(** * workin-wheel: the position-control loops of [load_test.py] and [reader.py]

    Both scripts drive a six-station wheel through a remote motor.  They are
    embedded here as programs of a small state-and-exception monad:

    - the remote collaborators (the robot connection, the motor, the random
      generator, the calendar) are oracles of a [world], indexed by the
      number of calls already made to them;
    - everything a script does to the outside is appended to a [trace];
    - the local variables that a script mutates across [try]/[except] and
      loops live in a [frame], part of the machine state;
    - Python exceptions are values of [exn]; [except Exception] catches all of
      them but [SystemExit];
    - [while True] loops with a [break] take a fuel and answer [OutOfFuel]
      when it is spent; the endless polling loops of [main] are unrolled for
      a given number of cycles. *)

From Stdlib Require Import ZArith List String Bool Arith Lia QArith.
Import ListNotations.
Open Scope string_scope.
Open Scope list_scope.
Open Scope Z_scope.

(** ** Values shared by the two scripts *)

(** A session is the object returned by [RobotClient.at_address]; the k-th
    call (counted from 0) answers the session numbered k, so two sessions are
    the same object exactly when their numbers agree. *)
Definition Session := nat.

(** [Motor.from_robot(robot, "wheel_motor")]: a handle bound to its robot. *)
Inductive Motor : Type := MotorOf (robot : Session).

Inductive exn : Type :=
| ConnectionError                (* RobotClient.at_address raised *)
| MotorError                     (* set_power raised *)
| ComponentNotFound              (* Motor.from_robot raised *)
| TooManyAttempts                (* reader.connect: Exception("Too many ...") *)
| CalendarError                  (* the calendar raised something else than HttpError *)
| NameError (name : string)
| TypeError
| AttributeError
| SystemExit.

(** [except Exception]: [SystemExit] derives from [BaseException] only. *)
Definition is_Exception (e : exn) : bool :=
  match e with
  | SystemExit => false
  | _ => true
  end.

Inductive event : Type :=
| EvPrint (msg : string)                          (* print(msg, ...) *)
| EvConnect (answer : option Session)             (* one RobotClient.at_address *)
| EvFromRobot (robot : Session) (ok : bool)       (* one Motor.from_robot *)
| EvSetPower (robot : Session) (power : Q) (ok : bool)   (* one set_power *)
| EvClose (robot : Session)                       (* robot.close() *)
| EvPoll                                          (* one call to the target source *)
| EvSleep (seconds : Z)                           (* time.sleep *)
| EvPosition (position : Z).  (* an assignment to current_wheel_position *)

(** One calendar event, as far as [get_next_wheel_position] reads it;
    [start] is [datetime.fromisoformat(start)] in microseconds. *)
Record cal_event : Type := mkEvent {
  eventType : string;
  summary : string;
  start : Z
}.

Inductive calendar_reply : Type :=
| HttpError                        (* caught by get_next_wheel_position *)
| CalendarRaises                   (* any other exception: not caught *)
| Items (events : list cal_event) (now1 now2 : Z).
    (* the items, and the readings of the two datetime.now() that follow *)

(** The environment of a run. *)
Record world : Type := mkWorld {
  at_address_ok : nat -> bool;     (* does the k-th at_address succeed? *)
  from_robot_ok : nat -> bool;     (* does the k-th Motor.from_robot succeed? *)
  set_power_ok : nat -> bool;      (* does the k-th set_power succeed? *)
  randint_0_5 : nat -> Z;          (* the k-th random.randint(0,5) *)
  calendar : nat -> calendar_reply (* the k-th events().list().execute() *)
}.

(** ** The machine *)

Record state (L : Type) : Type := mkState {
  n_connect : nat;                 (* calls made to at_address *)
  n_lookup : nat;                  (* calls made to Motor.from_robot *)
  n_pulse : nat;                   (* calls made to set_power *)
  n_poll : nat;                    (* calls made to the target source *)
  trace : list event;
  frame : L                        (* the locals of the running main *)
}.
Arguments mkState {L}.
Arguments n_connect {L}.
Arguments n_lookup {L}.
Arguments n_pulse {L}.
Arguments n_poll {L}.
Arguments trace {L}.
Arguments frame {L}.

Inductive result (A : Type) : Type :=
| Ret (a : A)
| Raise (e : exn)
| OutOfFuel.
Arguments Ret {A}.
Arguments Raise {A}.
Arguments OutOfFuel {A}.

Definition M (L A : Type) : Type := state L -> result A * state L.

Section Machine.
Context {L : Type}.
Variable w : world.

Definition ret {A} (a : A) : M L A := fun s => (Ret a, s).

Definition bind {A B} (m : M L A) (k : A -> M L B) : M L B :=
  fun s =>
    match m s with
    | (Ret a, s') => k a s'
    | (Raise e, s') => (Raise e, s')
    | (OutOfFuel, s') => (OutOfFuel, s')
    end.

Definition raise {A} (e : exn) : M L A := fun s => (Raise e, s).

Definition out_of_fuel {A} : M L A := fun s => (OutOfFuel, s).

(** [try: body except Exception as e: handler e] *)
Definition try_except {A} (body : M L A) (handler : exn -> M L A) : M L A :=
  fun s =>
    match body s with
    | (Raise e, s') => if is_Exception e then handler e s' else (Raise e, s')
    | r => r
    end.

Definition emit (e : event) : M L unit :=
  fun s => (Ret tt, mkState (n_connect s) (n_lookup s) (n_pulse s) (n_poll s)
                            (trace s ++ [e]) (frame s)).

Definition print (msg : string) : M L unit := emit (EvPrint msg).

Definition sleep (seconds : Z) : M L unit := emit (EvSleep seconds).

Definition get_frame : M L L := fun s => (Ret (frame s), s).

Definition put_frame (l : L) : M L unit :=
  fun s => (Ret tt, mkState (n_connect s) (n_lookup s) (n_pulse s) (n_poll s)
                            (trace s) l).

(** [await RobotClient.at_address(address, opts)] *)
Definition at_address : M L Session :=
  fun s =>
    let k := n_connect s in
    let ok := at_address_ok w k in
    let s' := mkState (S k) (n_lookup s) (n_pulse s) (n_poll s)
                      (trace s ++ [EvConnect (if ok then Some k else None)])
                      (frame s) in
    if ok then (Ret k, s') else (Raise ConnectionError, s').

(** [Motor.from_robot(robot, "wheel_motor")] *)
Definition from_robot (robot : Session) : M L Motor :=
  fun s =>
    let k := n_lookup s in
    let ok := from_robot_ok w k in
    let s' := mkState (n_connect s) (S k) (n_pulse s) (n_poll s)
                      (trace s ++ [EvFromRobot robot ok]) (frame s) in
    if ok then (Ret (MotorOf robot), s') else (Raise ComponentNotFound, s').

(** [await wheel_motor.set_power(power)] *)
Definition set_power (wheel_motor : Motor) (power : Q) : M L unit :=
  fun s =>
    let 'MotorOf robot := wheel_motor in
    let k := n_pulse s in
    let ok := set_power_ok w k in
    let s' := mkState (n_connect s) (n_lookup s) (S k) (n_poll s)
                      (trace s ++ [EvSetPower robot power ok]) (frame s) in
    if ok then (Ret tt, s') else (Raise MotorError, s').

(** [await robot.close()]; on [None] the attribute lookup raises. *)
Definition close (robot : option Session) : M L unit :=
  match robot with
  | Some r => emit (EvClose r)
  | None => raise AttributeError
  end.

(** [for _ in range(n): body] *)
Fixpoint for_range (n : nat) (body : M L unit) : M L unit :=
  match n with
  | O => ret tt
  | S n' => bind body (fun _ => for_range n' body)
  end.
End Machine.

Declare Scope monad_scope.
Delimit Scope monad_scope with monad.
Notation "x <- m ;; k" := (bind m (fun x => k))
  (at level 61, m at next level, right associativity) : monad_scope.
Notation "m ;; k" := (bind m (fun _ => k))
  (at level 61, right associativity) : monad_scope.
Notation "' pat <- m ;; k" := (bind m (fun x => match x with pat => k end))
  (at level 61, pat pattern, m at next level, right associativity) : monad_scope.
Open Scope monad_scope.

(** [math.copysign(x, y)] on the integers the scripts pass: the magnitude of
    [x] with the sign of [y]; an integer 0 converts to +0.0, so the sign of
    0 is positive.  The result is a float with an integral value, which
    [int()] gives back unchanged. *)
Definition copysign (x y : Z) : Z :=
  if y <? 0 then - Z.abs x else Z.abs x.

Definition initial_state {L} (l : L) : state L := mkState 0%nat 0%nat 0%nat 0%nat [] l.

(** The power of one pulse: [base * direction], written as an exact
    fraction.  The scripts compute it in binary64, where 1/6 and -1/12 are
    rounded; the properties below use a power only as the label of a pulse
    and for its sign, which the rounding keeps, and never add powers up. *)
Definition pulse_power (base : Q) (direction : Z) : Q :=
  Qred (base * inject_Z direction).

(** ** load_test.py: random targets, half-station pulses *)

Module LoadTest.

(** The locals of [main], and the [smart_machine] parameter of
    [rotate_with_retry], which is a local of that function. *)
Record locals : Type := mkLocals {
  smart_machine : option Session;          (* main: unbound until connected *)
  current_wheel_position : Z;              (* main *)
  rwr_smart_machine : option Session       (* rotate_with_retry *)
}.

Definition initial_locals : locals := mkLocals None 0 None.

(** The names bound at module level when [main] runs: the imports and the
    three functions.  [args] is a local of [main] and is not among them. *)
Definition module_globals : list string :=
  ["asyncio"; "random"; "time"; "argparse"; "math"; "RobotClient"; "Motor";
   "connect"; "main"; "rotate_with_retry"].

Section Program.
Variable w : world.
(** The module namespace is a parameter, so that the effect of a name
    being bound or not can be stated; the script runs with
    [module_globals]. *)
Variable globals : list string.

(** Reading a name that the function does not assign: a global lookup. *)
Definition load_global (name : string) : M locals unit :=
  if existsb (String.eqb name) globals then ret tt else raise (NameError name).

Definition connect : M locals Session := at_address w.

Definition set_smart_machine (sm : Session) : M locals unit :=
  f <- get_frame ;;
  put_frame (mkLocals (Some sm) (current_wheel_position f) (rwr_smart_machine f)).

Definition get_smart_machine : M locals Session :=
  f <- get_frame ;;
  match smart_machine f with
  | Some sm => ret sm
  | None => raise (NameError "smart_machine")
  end.

Definition set_rwr_smart_machine (sm : Session) : M locals unit :=
  f <- get_frame ;;
  put_frame (mkLocals (smart_machine f) (current_wheel_position f) (Some sm)).

Definition get_rwr_smart_machine : M locals Session :=
  f <- get_frame ;;
  match rwr_smart_machine f with
  | Some sm => ret sm
  | None => raise (NameError "smart_machine")
  end.

Definition set_current_wheel_position (p : Z) : M locals unit :=
  f <- get_frame ;;
  put_frame (mkLocals (smart_machine f) p (rwr_smart_machine f)) ;;
  emit (EvPosition p).

(** Lines 62-68: [while True: try: smart_machine = await connect(args...);
    break / except Exception: print; continue].  Evaluating the call's
    arguments reads [args] first. *)
Fixpoint reconnect_loop (fuel : nat) : M locals unit :=
  match fuel with
  | O => out_of_fuel
  | S fuel' =>
      try_except
        (load_global "args" ;;
         sm <- connect ;;
         set_rwr_smart_machine sm)
        (fun e =>
           print "CUSTOM ATTEMPT to reconnect after exception" ;;
           reconnect_loop fuel')
  end.

(** Lines 56-68. *)
Definition rotate_with_retry (fuel : nat) (smart_machine : Session)
    (rotations : Q) : M locals unit :=
  set_rwr_smart_machine smart_machine ;;
  try_except
    (sm <- get_rwr_smart_machine ;;
     wheel_motor <- from_robot w sm ;;
     set_power w wheel_motor rotations)
    (fun e =>
       print "CUSTOM ATTEMPT to reconnect after exception" ;;
       reconnect_loop fuel).

(** Lines 31-36: [while n_try: try: smart_machine = await connect(...);
    break / except Exception: n_try = n_try - 1]; answers the final
    [n_try]. *)
Fixpoint connect_loop (n_try : nat) : M locals nat :=
  match n_try with
  | O => ret O
  | S n_try' =>
      try_except
        (sm <- connect ;;
         set_smart_machine sm ;;
         ret n_try)
        (fun e => connect_loop n_try')
  end.

(** [random.randint(0,5)] *)
Definition randint : M locals Z :=
  fun s =>
    (Ret (randint_0_5 w (n_poll s)),
     mkState (n_connect s) (n_lookup s) (n_pulse s) (S (n_poll s))
             (trace s ++ [EvPoll]) (frame s)).

(** Lines 50-52: the direction and the number of pulses of a move. *)
Definition plan (current_wheel_position next_wheel_position : Z) : Z * nat :=
  let slices := current_wheel_position - next_wheel_position in
  let direction := copysign 1 slices in
  (direction, Z.to_nat (Z.abs slices * 2)).

(** Lines 47-54: one pass of the body of [while True]. *)
Definition turn (fuel : nat) : M locals unit :=
  next_wheel_position <- randint ;;
  f <- get_frame ;;
  if negb (current_wheel_position f =? next_wheel_position) then
    print "turning wheel from" ;;
    let '(direction, count) := plan (current_wheel_position f) next_wheel_position in
    for_range count
      (sm <- get_smart_machine ;;
       rotate_with_retry fuel sm (pulse_power (-1 # 12) direction)) ;;
    set_current_wheel_position next_wheel_position
  else ret tt.

(** The first [cycles] passes of [while True] (line 46). *)
Fixpoint polling_loop (fuel cycles : nat) : M locals unit :=
  match cycles with
  | O => ret tt
  | S cycles' => turn fuel ;; polling_loop fuel cycles'
  end.

(** Lines 29-54. *)
Definition main (fuel cycles : nat) : M locals unit :=
  print "connecting..." ;;
  n_try <- connect_loop 10 ;;
  (if Nat.eqb n_try 0
   then print "cannot connect, exiting" ;; raise SystemExit
   else ret tt) ;;
  print "turning wheel to initial position 0" ;;
  for_range 6
    (sm <- get_smart_machine ;;
     rotate_with_retry fuel sm (-1 # 12)) ;;
  set_current_wheel_position 0 ;;
  polling_loop fuel cycles.
End Program.

End LoadTest.

(** ** reader.py: calendar targets, one pulse per station *)

Module Reader.

Definition OUT_OF_OFFICE : Z := 0.
Definition WORK_FROM_HOME : Z := 1.
Definition GOING_TO_EVENT : Z := 2.
Definition FOCUS_TIME : Z := 3.
Definition AVAILABLE : Z := 4.
Definition IN_MEETING : Z := 5.

(** [event_type_to_wheel_position.get(event_type)] *)
Definition event_type_to_wheel_position (event_type : string) : option Z :=
  if String.eqb event_type "outOfOffice" then Some 0
  else if String.eqb event_type "focusTime" then Some 3
  else if String.eqb event_type "default" then Some 5
  else None.

(** [datetime.timedelta(minutes=5)] in microseconds. *)
Definition five_minutes : Z := 300000000.

(** Lines 92-111 of [get_next_wheel_position] without their prints: the
    value returned for the listed events. *)
Definition wheel_position_of (events : list cal_event) (now1 now2 : Z) : option Z :=
  match events with
  | [] => None
  | event :: _ =>
      let event_type := eventType event in
      let start_date := start event in
      if String.eqb event_type "workingLocation" then
        if negb (String.eqb (summary event) "Office") then Some WORK_FROM_HOME
        else event_type_to_wheel_position event_type
      else if start_date >=? now1 + five_minutes then Some AVAILABLE
      else if start_date >? now2 then Some GOING_TO_EVENT
      else event_type_to_wheel_position event_type
  end.

(** The locals of [main], and the [current_wheel_position] parameter of
    [control_wheel], which that function updates in place. *)
Record locals : Type := mkLocals {
  robot : option Session;                  (* main *)
  current_wheel_position : Z;              (* main *)
  cw_current_wheel_position : Z            (* control_wheel *)
}.

Definition initial_locals : locals := mkLocals None 0 0.

Section Program.
Variable w : world.

Definition set_robot (r : option Session) : M locals unit :=
  f <- get_frame ;;
  put_frame (mkLocals r (current_wheel_position f) (cw_current_wheel_position f)).

Definition set_current_wheel_position (p : Z) : M locals unit :=
  f <- get_frame ;;
  put_frame (mkLocals (robot f) p (cw_current_wheel_position f)) ;;
  emit (EvPosition p).

(** Binding the parameter at the call: no assignment statement. *)
Definition bind_cw_current_wheel_position (p : Z) : M locals unit :=
  f <- get_frame ;;
  put_frame (mkLocals (robot f) (current_wheel_position f) p).

Definition set_cw_current_wheel_position (p : Z) : M locals unit :=
  bind_cw_current_wheel_position p ;;
  emit (EvPosition p).

(** Lines 49-56: fifty attempts, then the exception. *)
Fixpoint connect_attempts (n : nat) : M locals Session :=
  match n with
  | O => raise TooManyAttempts
  | S n' =>
      try_except
        (print "connection try" ;;
         at_address w)
        (fun e =>
           print "Failed to connect. Please try hitting RESET on ESP32" ;;
           connect_attempts n')
  end.

Definition connect : M locals Session := connect_attempts 50.

(** [service.events().list(...).execute()] *)
Definition execute_list : M locals calendar_reply :=
  fun s =>
    (Ret (calendar w (n_poll s)),
     mkState (n_connect s) (n_lookup s) (n_pulse s) (S (n_poll s))
             (trace s ++ [EvPoll]) (frame s)).

(** Lines 81-114; the credential handling before the [try] is outside the
    model. *)
Definition get_next_wheel_position : M locals (option Z) :=
  print "Getting the upcoming 10 events" ;;
  reply <- execute_list ;;
  match reply with
  | HttpError => print "An error occurred: %s" ;; ret None
  | CalendarRaises => raise CalendarError
  | Items events now1 now2 =>
      match events with
      | [] => print "No upcoming events found." ;; ret None
      | event :: _ =>
          let event_type := eventType event in
          print "next event type:" ;;
          let start_date := start event in
          if String.eqb event_type "workingLocation" then
            if negb (String.eqb (summary event) "Office")
            then ret (Some WORK_FROM_HOME)
            else ret (event_type_to_wheel_position event_type)
          else if start_date >=? now1 + five_minutes then
            print "next event is > 5min from now, so AVAILABLE" ;;
            ret (Some AVAILABLE)
          else if start_date >? now2 then
            print "next event is <= 5min from now, so GOING_TO_EVENT" ;;
            ret (Some GOING_TO_EVENT)
          else ret (event_type_to_wheel_position event_type)
      end
  end.

(** Lines 125-126 and 132: the direction and the number of pulses. *)
Definition plan (current_wheel_position next_wheel_position : Z) : Z * nat :=
  let slices := current_wheel_position - next_wheel_position in
  let direction := copysign 1 slices in
  (direction, Z.to_nat (Z.abs slices)).

(** Lines 133-134: one pass of the [for] body. *)
Definition pulse (wheel_motor : Motor) (direction : Z) : M locals unit :=
  set_power w wheel_motor (pulse_power (1 # 6) direction) ;;
  f <- get_frame ;;
  set_cw_current_wheel_position (cw_current_wheel_position f - direction).

(** Lines 121-139.  With [next_wheel_position] being [None], the test
    [current_wheel_position != None] holds and the subtraction of line 125
    raises before the [try]. *)
Definition control_wheel (wheel_motor : Motor) (current_wheel_position : Z)
    : M locals (Z * option exn) :=
  bind_cw_current_wheel_position current_wheel_position ;;
  next_wheel_position <- get_next_wheel_position ;;
  match next_wheel_position with
  | None => print "turning wheel from" ;; raise TypeError
  | Some next_wheel_position =>
      if negb (current_wheel_position =? next_wheel_position) then
        print "turning wheel from" ;;
        let '(direction, count) := plan current_wheel_position next_wheel_position in
        try_except
          (for_range count (pulse wheel_motor direction) ;;
           f <- get_frame ;;
           ret (cw_current_wheel_position f, None))
          (fun e =>
             print "exception happened" ;;
             f <- get_frame ;;
             ret (cw_current_wheel_position f, Some e))
      else ret (current_wheel_position, None)
  end.

(** [if robot is None: robot = await connect(...)] and the read of
    [robot] that follows. *)
Definition ensure_robot : M locals Session :=
  f <- get_frame ;;
  match robot f with
  | None => r <- connect ;; set_robot (Some r) ;; ret r
  | Some r => ret r
  end.

(** Lines 160-164 and 182-186: the handler of both loops of [main]. *)
Definition failed_to_connect : M locals unit :=
  print "Failed to connect" ;;
  f <- get_frame ;;
  close (robot f) ;;
  set_robot None.

(** Lines 152-164: [while True] with a [break] after the six pulses. *)
Fixpoint homing_loop (fuel : nat) : M locals unit :=
  match fuel with
  | O => out_of_fuel
  | S fuel' =>
      try_except
        (r <- ensure_robot ;;
         wheel_motor <- from_robot w r ;;
         for_range 6 (set_power w wheel_motor (1 # 6)))
        (fun e => failed_to_connect ;; homing_loop fuel')
  end.

(** Lines 168-186: one pass of the body of the second [while True]. *)
Definition cycle : M locals unit :=
  try_except
    (r <- ensure_robot ;;
     wheel_motor <- from_robot w r ;;
     f <- get_frame ;;
     '(position, ex) <- control_wheel wheel_motor (current_wheel_position f) ;;
     set_current_wheel_position position ;;
     print "wheel now at: " ;;
     match ex with
     | Some _ => print "exception happened during turning, trying to recover. Exception: "
     | None => sleep 15
     end)
    (fun e => failed_to_connect).

(** The first [cycles] passes of the second [while True] (line 167). *)
Fixpoint polling_loop (cycles : nat) : M locals unit :=
  match cycles with
  | O => ret tt
  | S cycles' => cycle ;; polling_loop cycles'
  end.

(** Lines 146-186. *)
Definition main (fuel cycles : nat) : M locals unit :=
  print "Namespace(...)" ;;
  print "connecting to robot" ;;
  r <- connect ;;
  set_robot (Some r) ;;
  print "turning wheel to initial position 0" ;;
  homing_loop fuel ;;
  set_current_wheel_position 0 ;;
  polling_loop cycles.
End Program.

End Reader.

(** ** Reading traces, and the states and worlds the properties speak of *)

(** Is the event a [set_power] call? an assignment of the estimate? *)
Definition is_pulse (e : event) : bool :=
  match e with EvSetPower _ _ _ => true | _ => false end.

Definition is_position (e : event) : bool :=
  match e with EvPosition _ => true | _ => false end.

(** The [set_power] calls of a trace, in order. *)
Definition pulses_of (tr : list event) : list event := filter is_pulse tr.

(** The values assigned to [current_wheel_position], in order. *)
Fixpoint positions_of (tr : list event) : list Z :=
  match tr with
  | [] => []
  | EvPosition p :: tr' => p :: positions_of tr'
  | _ :: tr' => positions_of tr'
  end.

(** One of the six stations. *)
Definition in_range (p : Z) : Prop := 0 <= p <= 5.

(** The first of [n] calls to [at_address], from call [k] on, that succeeds. *)
Fixpoint first_ok (ok : nat -> bool) (k n : nat) : option nat :=
  match n with
  | O => None
  | S n' => if ok k then Some k else first_ok ok (S k) n'
  end.

(** The computation did not raise. *)
Definition quiet {A} (r : result A) : Prop :=
  match r with Raise _ => False | _ => True end.

(** The invariant of [load_test.main] once connected: the trace satisfies
    [T], [main] holds the session [sm0], the estimate satisfies [Pos]. *)
Definition lt_inv (T : list event -> Prop) (Pos : Z -> Prop) (sm0 : Session)
    (s : state LoadTest.locals) : Prop :=
  T (trace s) /\
  LoadTest.smart_machine (frame s) = Some sm0 /\
  Pos (LoadTest.current_wheel_position (frame s)).

(** [load_test.main] when it enters homing, connected at attempt [j]. *)
Definition homing_state (j : nat) : state LoadTest.locals :=
  mkState (S j) 0 0 0
    ([EvPrint "connecting..."] ++ repeat (EvConnect None) j
       ++ [EvConnect (Some j); EvPrint "turning wheel to initial position 0"])
    (LoadTest.mkLocals (Some j) 0 None).

(** A pulse, if the event is one, goes to the session [sm0]. *)
Definition on_session (sm0 : Session) (e : event) : Prop :=
  match e with
  | EvSetPower r _ _ => r = sm0
  | _ => True
  end.

(** No connection attempt ever succeeds. *)
Definition world_never_connects : world :=
  mkWorld (fun _ => false) (fun _ => true) (fun _ => true) (fun _ => 0) (fun _ => HttpError).

(** Only the tenth connection attempt succeeds. *)
Definition world_connects_at_tenth : world :=
  mkWorld (fun k => Nat.eqb k 9) (fun _ => true) (fun _ => true) (fun _ => 0) (fun _ => HttpError).

(** The number of calls to [set_power] that succeed in a row, from call [k]
    on, among at most [n]. *)
Fixpoint successes (ok : nat -> bool) (k n : nat) : nat :=
  match n with
  | O => O
  | S n' => if ok k then S (successes ok (S k) n') else O
  end.

(** The events of [j] passes of the [for] body of [control_wheel] whose
    [set_power] succeeds, from the estimate [c]. *)
Fixpoint stepped (robot : Session) (direction c : Z) (j : nat) : list event :=
  match j with
  | O => []
  | S j' =>
      EvSetPower robot (pulse_power (1 # 6) direction) true
        :: EvPosition (c - direction)
        :: stepped robot direction (c - direction) j'
  end.

(** What [get_next_wheel_position] answers and prints for a reply. *)
Definition target_of (reply : calendar_reply) : result (option Z) :=
  match reply with
  | HttpError => Ret None
  | CalendarRaises => Raise CalendarError
  | Items events now1 now2 => Ret (Reader.wheel_position_of events now1 now2)
  end.

(** What one call of [get_next_wheel_position] appends to the trace. *)
Definition poll_trace (reply : calendar_reply) : list event :=
  [EvPrint "Getting the upcoming 10 events"; EvPoll] ++
  match reply with
  | HttpError => [EvPrint "An error occurred: %s"]
  | CalendarRaises => []
  | Items [] _ _ => [EvPrint "No upcoming events found."]
  | Items (event :: _) now1 now2 =>
      EvPrint "next event type:" ::
      (if String.eqb (eventType event) "workingLocation" then []
       else if start event >=? now1 + Reader.five_minutes
       then [EvPrint "next event is > 5min from now, so AVAILABLE"]
       else if start event >? now2
       then [EvPrint "next event is <= 5min from now, so GOING_TO_EVENT"]
       else [])
  end.

(** The state after [j] successful passes of the [for] body. *)
Definition pulsed (robot : Session) (direction : Z) (j : nat)
    (s : state Reader.locals) : state Reader.locals :=
  mkState (n_connect s) (n_lookup s) (n_pulse s + j) (n_poll s)
    (trace s ++ stepped robot direction (Reader.cw_current_wheel_position (frame s)) j)
    (Reader.mkLocals (Reader.robot (frame s))
       (Reader.current_wheel_position (frame s))
       (Reader.cw_current_wheel_position (frame s) - direction * Z.of_nat j)).

(** The outcome of the [for] loop of [control_wheel] over [n] pulses. *)
Definition after_pulses (w : world) (robot : Session) (direction : Z) (n : nat)
    (s : state Reader.locals) : result unit * state Reader.locals :=
  let j := successes (set_power_ok w) (n_pulse s) n in
  let after := pulsed robot direction j s in
  if Nat.eqb j n then (Ret tt, after)
  else (Raise MotorError,
        mkState (n_connect after) (n_lookup after) (S (n_pulse after)) (n_poll after)
          (trace after ++ [EvSetPower robot (pulse_power (1 # 6) direction) false])
          (frame after)).

(** The state of [control_wheel] once the target source has answered. *)
Definition polled (w : world) (current : Z) (s : state Reader.locals)
    : state Reader.locals :=
  mkState (n_connect s) (n_lookup s) (n_pulse s) (S (n_poll s))
    (trace s ++ poll_trace (calendar w (n_poll s)))
    (Reader.mkLocals (Reader.robot (frame s))
       (Reader.current_wheel_position (frame s)) current).

(** ... and once line 124 has printed. *)
Definition announced (w : world) (current : Z) (s : state Reader.locals)
    : state Reader.locals :=
  mkState (n_connect s) (n_lookup s) (n_pulse s) (S (n_poll s))
    (trace s ++ poll_trace (calendar w (n_poll s)) ++ [EvPrint "turning wheel from"])
    (Reader.mkLocals (Reader.robot (frame s))
       (Reader.current_wheel_position (frame s)) current).

(** The end of [control_wheel] after the [for] loop gave [r]. *)
Definition wheel_return (r : result unit * state Reader.locals)
    : result (Z * option exn) * state Reader.locals :=
  match r with
  | (Ret _, s) => (Ret (Reader.cw_current_wheel_position (frame s), None), s)
  | (Raise e, s) =>
      if is_Exception e then
        (Ret (Reader.cw_current_wheel_position (frame s), Some e),
         mkState (n_connect s) (n_lookup s) (n_pulse s) (n_poll s)
           (trace s ++ [EvPrint "exception happened"]) (frame s))
      else (Raise e, s)
  | (OutOfFuel, s) => (OutOfFuel, s)
  end.

(** An event that keeps the estimate within the six stations. *)
Definition allowed (e : event) : Prop :=
  match e with
  | EvPosition p => in_range p
  | _ => True
  end.

(** The invariant of [reader.main]: the trace satisfies [T] and the estimate
    of [main] is a station. *)
Definition rd_inv (T : list event -> Prop) (s : state Reader.locals) : Prop :=
  T (trace s) /\ in_range (Reader.current_wheel_position (frame s)).

(** [m] keeps [I], and answers values in [V] when it returns. *)
Definition keeps {L A} (I : state L -> Prop) (V : A -> Prop) (m : M L A) : Prop :=
  forall s, I s ->
    I (snd (m s)) /\ forall a, fst (m s) = Ret a -> V a.

(** The first assignment is 0 and the later ones stay among the stations. *)
Definition from_0_in_range (l : list Z) : Prop :=
  match l with
  | [] => True
  | p :: rest => p = 0 /\ Forall in_range rest
  end.

(** No assignment of the estimate yet; the first one was 0 and the later
    ones are stations. *)
Definition no_position (tr : list event) : Prop := positions_of tr = [].

Definition homed (tr : list event) : Prop :=
  exists rest, positions_of tr = 0 :: rest /\ Forall in_range rest.

(** Everything succeeds, the random targets are [targets], and the calendar
    answers an HTTP error. *)
Definition world_of_targets (targets : nat -> Z) : world :=
  mkWorld (fun _ => true) (fun _ => true) (fun _ => true) targets (fun _ => HttpError).

(** The robot always answers, except that the [set_power] call numbered
    [bad] fails; the random targets are all [target]. *)
Definition world_one_bad_pulse (bad : nat) (target : Z) : world :=
  mkWorld (fun _ => true) (fun _ => true) (fun k => negb (Nat.eqb k bad))
          (fun _ => target) (fun _ => HttpError).

(** The first connection succeeds and no later one; the calendar has no
    upcoming event. *)
Definition world_no_event_then_offline : world :=
  mkWorld (fun k => Nat.eqb k 0) (fun _ => true) (fun _ => true)
          (fun _ => 0) (fun _ => Items [] 0 0).

(** The state after one call of [rotate_with_retry] whose lookup and pulse
    both succeed, and after [n] such calls. *)
Definition rotated1 (sm : Session) (p : Q) (s : state LoadTest.locals)
    : state LoadTest.locals :=
  mkState (n_connect s) (S (n_lookup s)) (S (n_pulse s)) (n_poll s)
    (trace s ++ [EvFromRobot sm true; EvSetPower sm p true])
    (LoadTest.mkLocals (LoadTest.smart_machine (frame s))
       (LoadTest.current_wheel_position (frame s)) (Some sm)).

Fixpoint rotated (sm : Session) (p : Q) (n : nat) (s : state LoadTest.locals)
    : state LoadTest.locals :=
  match n with
  | O => s
  | S n' => rotated sm p n' (rotated1 sm p s)
  end.

(** Neither the session nor the cadence is touched by such an event. *)
Definition keeps_session (e : event) : Prop :=
  match e with
  | EvClose _ | EvConnect _ | EvSleep _ => False
  | _ => True
  end.

(** What a cycle of [reader.main] appends when the pulse after [j]
    successful ones fails. *)
Definition failed_cycle_trace (reply : calendar_reply) (r : Session)
    (d c : Z) (j : nat) : list event :=
  [EvFromRobot r true] ++ poll_trace reply ++ [EvPrint "turning wheel from"]
    ++ stepped r d c j
    ++ [EvSetPower r (pulse_power (1 # 6) d) false;
        EvPrint "exception happened";
        EvPosition (c - d * Z.of_nat j);
        EvPrint "wheel now at: ";
        EvPrint "exception happened during turning, trying to recover. Exception: "].

(** The robot answers except for the [set_power] call numbered [bad]; the
    calendar always shows a focus-time event that has begun (station 3). *)
Definition world_focus_time (bad : nat) : world :=
  mkWorld (fun _ => true) (fun _ => true) (fun k => negb (Nat.eqb k bad))
          (fun _ => 0) (fun _ => Items [mkEvent "focusTime" "deep work" 0] 10 10).

(** The counters and locals of [reader.main] just after homing (session 0,
    six pulses sent, estimate 0), the trace left out. *)
Definition reader_homed : state Reader.locals :=
  mkState 1 1 6 0 [] (Reader.mkLocals (Some 0%nat) 0 0).

(** What does not change while load_test.py sends pulses. *)
Definition same_estimate (s s' : state LoadTest.locals) : Prop :=
  LoadTest.current_wheel_position (frame s') = LoadTest.current_wheel_position (frame s) /\
  positions_of (trace s') = positions_of (trace s).

(** The trace has grown from [tr0] without any assignment of the estimate,
    and by no other pulse than [p] on [sm]. *)
Definition grown_quietly (sm : Session) (p : Q) (tr0 tr : list event) : Prop :=
  exists new,
    tr = tr0 ++ new /\
    positions_of new = [] /\
    Forall (fun e => exists ok, e = EvSetPower sm p ok) (pulses_of new).

(** Consecutive estimates are at most one station apart. *)
Fixpoint steps_by_one (l : list Z) : Prop :=
  match l with
  | a :: (b :: _) as rest => Z.abs (b - a) <= 1 /\ steps_by_one rest
  | _ => True
  end.

(** The estimate after [k] one-station updates in [direction]. *)
Definition reflects_updates (current direction : Z) (k : nat) (position : Z) : Prop :=
  position = current - direction * Z.of_nat k.

(** The counters and locals of [load_test.main] just after homing on session
    0, the trace left out. *)
Definition load_test_homed : state LoadTest.locals :=
  mkState 1 6 6 0 [] (LoadTest.mkLocals (Some 0%nat) 0 (Some 0%nat)).

(** ** Further definitions: connection rounds, pulse counts, sessions, credentials *)

(** What [n] failed rounds of [reader.connect] append to the trace. *)
Fixpoint failed_attempts (n : nat) : list event :=
  match n with
  | O => []
  | S n' =>
      [EvPrint "connection try"; EvConnect None;
       EvPrint "Failed to connect. Please try hitting RESET on ESP32"]
        ++ failed_attempts n'
  end.

(** The sense of a pulse: the sign of its power.  The scripts multiply 1/6
    or -1/12 by a direction of +1 or -1; the sign of that product is the
    same in binary64 as in exact arithmetic. *)
Definition pulse_sense (power : Q) : Z := Z.sgn (Qnum power).

(** The pulses commanded by a trace, counted with their sense. *)
Fixpoint signed_pulses (tr : list event) : Z :=
  match tr with
  | [] => 0
  | EvSetPower _ power _ :: tr' => pulse_sense power + signed_pulses tr'
  | _ :: tr' => signed_pulses tr'
  end.

(** What [control_wheel] appends after the target source has answered, when
    every pulse of the plan from [current] to [next] is answered. *)
Definition move_trace (robot : Session) (current next : Z) : list event :=
  if current =? next then []
  else EvPrint "turning wheel from"
         :: stepped robot (Z.sgn (current - next)) current
              (Z.to_nat (Z.abs (current - next))).

(** ** Judgements on computations *)

(** [m], started in a state of [P], ends with a result and in a state that
    [Q] relates. *)
Definition triple {L A} (P : state L -> Prop) (m : M L A)
    (Q : result A -> state L -> Prop) : Prop :=
  forall s, P s -> Q (fst (m s)) (snd (m s)).

(** [m] keeps [I] however it ends; it answers a value of [V] or raises an
    exception that [except Exception] catches, and needs no fuel. *)
Definition steady {L A} (I : state L -> Prop) (V : A -> Prop) (m : M L A) : Prop :=
  triple I m
    (fun res s =>
       I s /\
       match res with
       | Ret a => V a
       | Raise e => is_Exception e = true
       | OutOfFuel => False
       end).

(** ** reader.py: the session that [main] holds *)

(** The event neither opens nor closes a connection, and a motor lookup or
    a pulse goes to [r]. *)
Definition uses_only (r : Session) (e : event) : Prop :=
  match e with
  | EvConnect _ | EvClose _ => False
  | EvFromRobot r' _ | EvSetPower r' _ _ => r' = r
  | _ => True
  end.

(** [main] holds the session [r] and the trace satisfies [U]. *)
Definition held (U : list event -> Prop) (r : Session)
    (s : state Reader.locals) : Prop :=
  Reader.robot (frame s) = Some r /\ U (trace s).

(** The [try] bodies of the two loops of [reader.main] once [robot] is
    read (lines 156-158 and 171-181). *)
Definition homing_rest (w : world) (r : Session) : M Reader.locals unit :=
  wheel_motor <- from_robot w r ;;
  for_range 6 (set_power w wheel_motor (1 # 6)).

Definition cycle_rest (w : world) (r : Session) : M Reader.locals unit :=
  wheel_motor <- from_robot w r ;;
  f <- get_frame ;;
  '(position, ex) <- Reader.control_wheel w wheel_motor
                       (Reader.current_wheel_position f) ;;
  Reader.set_current_wheel_position position ;;
  print "wheel now at: " ;;
  match ex with
  | Some _ => print "exception happened during turning, trying to recover. Exception: "
  | None => sleep 15
  end.

(** How the connections of a trace are used: no session is open, the
    session [r] is open, or the trace has broken the discipline: a
    connection attempt while a session is open, or a motor lookup, a pulse
    or a close on anything but the open session. *)
Inductive usage : Type :=
| Violated
| Idle
| Open (r : Session).

Definition use (u : usage) (e : event) : usage :=
  match u with
  | Violated => Violated
  | Idle =>
      match e with
      | EvConnect (Some k) => Open k
      | EvConnect None => Idle
      | EvFromRobot _ _ | EvSetPower _ _ _ | EvClose _ => Violated
      | _ => Idle
      end
  | Open r =>
      match e with
      | EvConnect _ => Violated
      | EvFromRobot r' _ | EvSetPower r' _ _ =>
          if Nat.eqb r' r then Open r else Violated
      | EvClose r' => if Nat.eqb r' r then Idle else Violated
      | _ => Open r
      end
  end.

Definition usage_of (tr : list event) : usage := fold_left use tr Idle.

(** What the variable [robot] of [reader.main] says of the connection. *)
Definition robot_usage (s : state Reader.locals) : usage :=
  match Reader.robot (frame s) with
  | Some r => Open r
  | None => Idle
  end.

Definition disciplined (s : state Reader.locals) : Prop :=
  usage_of (trace s) = robot_usage s.

(** The one way in which a loop of [reader.main] lets an exception out:
    the handler calls [close] on [None] right after fifty failed
    attempts. *)
Definition gave_up (e : exn) (s : state Reader.locals) : Prop :=
  e = AttributeError /\
  Reader.robot (frame s) = None /\
  exists before,
    trace s = before ++ failed_attempts 50 ++ [EvPrint "Failed to connect"].

(** The state in which a handler of [reader.main] starts: with a session,
    or with none right after fifty failed attempts. *)
Definition before_handler (s : state Reader.locals) : Prop :=
  disciplined s /\
  (Reader.robot (frame s) = None ->
   exists before, trace s = before ++ failed_attempts 50).

(** How a loop of [reader.main] may end. *)
Definition loop_end {A} (res : result A) (s : state Reader.locals) : Prop :=
  disciplined s /\
  match res with
  | Raise e => gave_up e s
  | _ => True
  end.

(** The state of [reader.main] once the attempt numbered [j] has connected
    and line 155 or 170 has bound [robot]. *)
Definition reconnected (j : nat) (s : state Reader.locals) : state Reader.locals :=
  mkState (S j) (n_lookup s) (n_pulse s) (n_poll s)
    (trace s ++ failed_attempts (j - n_connect s)
       ++ [EvPrint "connection try"; EvConnect (Some j)])
    (Reader.mkLocals (Some j) (Reader.current_wheel_position (frame s))
       (Reader.cw_current_wheel_position (frame s))).

(** ... and once all fifty attempts have failed. *)
Definition unreachable (s : state Reader.locals) : state Reader.locals :=
  mkState (n_connect s + 50) (n_lookup s) (n_pulse s) (n_poll s)
    (trace s ++ failed_attempts 50) (frame s).

(** ** load_test.py: what a whole run never does *)

(** Neither a [close] nor a [sleep]. *)
Definition calm (e : event) : Prop :=
  match e with
  | EvClose _ | EvSleep _ => False
  | _ => True
  end.

(** [load_test.main] holds [sm], has made [c] connection attempts, and has
    neither closed a session nor slept. *)
Definition connected_once (c : nat) (sm : Session)
    (s : state LoadTest.locals) : Prop :=
  n_connect s = c /\
  LoadTest.smart_machine (frame s) = Some sm /\
  Forall calm (trace s).

(** ** reader.py: the credentials of the calendar (lines 62-79 and 116-119)

    The block that opens [get_next_wheel_position] reads, renews and saves
    the Google credentials.  It touches neither the robot nor the wheel, so
    it is embedded on its own: the file token.json and the calls made are
    the state, the Google libraries are the [services] of a run. *)

Module Credentials.

(** What the script reads of a [Credentials] object. *)
Record credentials : Type := mkCredentials {
  valid : bool;                       (* creds.valid *)
  expired : bool;                     (* creds.expired *)
  refresh_token : option string;      (* creds.refresh_token *)
  to_json : string                    (* creds.to_json() *)
}.

Inductive error : Type :=
| ValueError             (* from_authorized_user_file: token.json is malformed *)
| RefreshError           (* creds.refresh: the refresh was refused *)
| TransportError         (* creds.refresh: any other failure *)
| FileNotFoundError      (* from_client_secrets_file: no credentials.json *)
| FlowError.             (* run_local_server failed *)

(** [creds.refresh(Request())] updates [creds] in place, or raises. *)
Inductive refresh_reply : Type :=
| Refreshed (creds : credentials)
| Refused                             (* raises RefreshError *)
| Broken.                             (* raises something else *)

Record services : Type := mkServices {
  from_authorized_user_file : string -> option credentials;
                                      (* of the text of token.json; None: raises *)
  refresh : credentials -> refresh_reply;
  from_client_secrets_file : bool;    (* can credentials.json be loaded? *)
  run_local_server : option credentials   (* None: the login flow raises *)
}.

Inductive action : Type :=
| Refresh                             (* creds.refresh(Request()) *)
| RunLocalServer                      (* flow.run_local_server(port=0) *)
| WriteToken (content : string).      (* token.write(content) on token.json *)

Record files : Type := mkFiles {
  token_json : option string;         (* the text of token.json, if it exists *)
  actions : list action
}.

Inductive outcome (A : Type) : Type :=
| Ok (a : A)
| Error (e : error).
Arguments Ok {A}.
Arguments Error {A}.

Definition C (A : Type) : Type := files -> outcome A * files.

Definition ret {A} (a : A) : C A := fun st => (Ok a, st).

Definition raise {A} (e : error) : C A := fun st => (Error e, st).

Definition bind {A B} (m : C A) (k : A -> C B) : C B :=
  fun st =>
    match m st with
    | (Ok a, st') => k a st'
    | (Error e, st') => (Error e, st')
    end.

(** [try: body except RefreshError: handler] *)
Definition try_except_RefreshError {A} (body handler : C A) : C A :=
  fun st =>
    match body st with
    | (Error RefreshError, st') => handler st'
    | r => r
    end.

Definition act (a : action) : C unit :=
  fun st => (Ok tt, mkFiles (token_json st) (actions st ++ [a])).

(** The truth value of a string attribute: [None] and the empty string are
    false. *)
Definition truthy (s : option string) : bool :=
  match s with
  | Some text => negb (String.eqb text "")
  | None => false
  end.

Section Program.
Variable sv : services.

(** Lines 116-119. *)
Definition get_creds : C credentials :=
  if from_client_secrets_file sv then
    bind (act RunLocalServer) (fun _ =>
    match run_local_server sv with
    | Some creds => ret creds
    | None => raise FlowError
    end)
  else raise FileNotFoundError.

(** Lines 62-67: [creds] is [None] without a token.json. *)
Definition read_token : C (option credentials) :=
  fun st =>
    match token_json st with
    | Some text =>
        match from_authorized_user_file sv text with
        | Some creds => (Ok (Some creds), st)
        | None => (Error ValueError, st)
        end
    | None => (Ok None, st)
    end.

(** Line 72. *)
Definition do_refresh (creds : credentials) : C credentials :=
  bind (act Refresh) (fun _ =>
  match refresh sv creds with
  | Refreshed creds' => ret creds'
  | Refused => raise RefreshError
  | Broken => raise TransportError
  end).

(** Lines 78-79: [open('token.json', 'w')] and the write. *)
Definition write_token (content : string) : C unit :=
  fun st => (Ok tt, mkFiles (Some content) (actions st ++ [WriteToken content])).

(** Lines 70-79, entered when [not creds or not creds.valid]. *)
Definition renew (creds : option credentials) : C credentials :=
  bind
    (match creds with
     | Some c =>
         if expired c && truthy (refresh_token c)
         then try_except_RefreshError (do_refresh c) get_creds
         else get_creds
     | None => get_creds
     end)
    (fun creds' =>
       bind (write_token (to_json creds')) (fun _ => ret creds')).

(** Lines 62-79: the credentials that line 82 hands to [build]. *)
Definition load_credentials : C credentials :=
  bind read_token (fun creds =>
  match creds with
  | Some c => if valid c then ret c else renew creds
  | None => renew creds
  end).
End Program.

End Credentials.

(** token.json holds ["saved"], which reads as valid credentials. *)
Definition saved_credentials : Credentials.credentials :=
  Credentials.mkCredentials true false (Some "refresh") "saved".

(** No token.json can be read but ["saved"]; the login flow answers
    [saved_credentials]. *)
Definition services_login : Credentials.services :=
  Credentials.mkServices
    (fun text => if String.eqb text "saved" then Some saved_credentials else None)
    (fun _ => Credentials.Refused)
    true
    (Some saved_credentials).

(** The pulses that the motor has acknowledged, counted with their sense:
    those whose call returned. *)
Fixpoint acknowledged (tr : list event) : Z :=
  match tr with
  | [] => 0
  | EvSetPower _ power true :: tr' => pulse_sense power + acknowledged tr'
  | _ :: tr' => acknowledged tr'
  end.

(** * Properties *)

(** ** Traces and the first successful connection *)

Lemma positions_of_app (a b : list event) :
  positions_of (a ++ b) = positions_of a ++ positions_of b.
Proof.
  induction a as [|e a IH]; simpl; [reflexivity|].
  destruct e; simpl; rewrite IH; reflexivity.
Qed.

Lemma pulses_of_app (a b : list event) :
  pulses_of (a ++ b) = pulses_of a ++ pulses_of b.
Proof. unfold pulses_of. apply filter_app. Qed.

Lemma copysign_sgn (x : Z) : x <> 0 -> copysign 1 x = Z.sgn x.
Proof. unfold copysign. destruct (Z.ltb_spec x 0); simpl; lia. Qed.

Lemma first_ok_spec (ok : nat -> bool) (n k : nat) :
  match first_ok ok k n with
  | None => forall i, (i < n)%nat -> ok (k + i)%nat = false
  | Some j => (k <= j < k + n)%nat /\ ok j = true /\
              forall i, (k <= i < j)%nat -> ok i = false
  end.
Proof.
  revert k. induction n as [|n IH]; intros k; simpl.
  - intros i Hi. lia.
  - destruct (ok k) eqn:Hk.
    + repeat split; try lia; auto; intros; lia.
    + specialize (IH (S k)). destruct (first_ok ok (S k) n) as [j|].
      * destruct IH as (Hj & Hok & Hbefore). repeat split; try lia; auto.
        intros i Hi. destruct (Nat.eq_dec i k) as [->|Hne]; auto.
        apply Hbefore. lia.
      * intros i Hi. destruct i as [|i].
        -- now rewrite Nat.add_0_r.
        -- replace (k + S i)%nat with (S k + i)%nat by lia. apply IH. lia.
Qed.

Ltac unfold_machine :=
  unfold bind, ret, raise, out_of_fuel, try_except, print, sleep, emit,
    get_frame, put_frame, at_address, from_robot, set_power, close in *.

(** ** load_test.py: what a connected run preserves *)

Section BindEquations.
Context {L A B : Type}.
Variables (m : M L A) (k : A -> M L B) (s s' : state L).

Lemma bind_Ret (a : A) : m s = (Ret a, s') -> bind m k s = k a s'.
Proof. intros H. unfold bind. now rewrite H. Qed.

Lemma bind_Raise (e : exn) : m s = (Raise e, s') -> bind m k s = (Raise e, s').
Proof. intros H. unfold bind. now rewrite H. Qed.

Lemma bind_OutOfFuel : m s = (OutOfFuel, s') -> bind m k s = (OutOfFuel, s').
Proof. intros H. unfold bind. now rewrite H. Qed.
End BindEquations.

Section ForRange.
Context {L : Type}.
Variable I : state L -> Prop.
Variable body : M L unit.
Hypothesis body_inv : forall s, I s -> I (snd (body s)) /\ quiet (fst (body s)).

Lemma for_range_inv (n : nat) (s : state L) :
  I s -> I (snd (for_range n body s)) /\ quiet (fst (for_range n body s)).
Proof.
  revert s. induction n as [|n IH]; intros s Hs; simpl.
  - split; [exact Hs | exact Logic.I].
  - unfold bind. destruct (body_inv s Hs) as [H1 H2].
    destruct (body s) as [[[]|e|] s1]; simpl in *.
    + apply IH, H1.
    + contradiction.
    + split; [exact H1 | exact Logic.I].
Qed.
End ForRange.

Section LoadTestSafety.
Variable w : world.
Variable globals : list string.
Variable sm0 : Session.
Variable T : list event -> Prop.
Variable Pos : Z -> Prop.
Variable Pw : Q -> Prop.
Hypothesis T_print : forall tr m, T tr -> T (tr ++ [EvPrint m]).
Hypothesis T_connect : forall tr a, T tr -> T (tr ++ [EvConnect a]).
Hypothesis T_from_robot : forall tr ok, T tr -> T (tr ++ [EvFromRobot sm0 ok]).
Hypothesis T_set_power :
  forall tr p ok, Pw p -> T tr -> T (tr ++ [EvSetPower sm0 p ok]).
Hypothesis T_poll : forall tr, T tr -> T (tr ++ [EvPoll]).
Hypothesis T_position : forall tr p, T tr -> Pos p -> T (tr ++ [EvPosition p]).
Hypothesis Pos_randint : forall k, Pos (randint_0_5 w k).
Hypothesis Pos_0 : Pos 0.

Ltac inv_auto := unfold lt_inv; simpl; repeat split; auto.

Lemma reconnect_loop_inv (fuel : nat) (s : state LoadTest.locals) :
  lt_inv T Pos sm0 s ->
  lt_inv T Pos sm0 (snd (LoadTest.reconnect_loop w globals fuel s)) /\
  quiet (fst (LoadTest.reconnect_loop w globals fuel s)).
Proof.
  revert s. induction fuel as [|fuel IH]; intros s (Ht & Hsm & Hp); simpl.
  - unfold out_of_fuel; simpl. inv_auto.
  - unfold LoadTest.load_global, LoadTest.connect, LoadTest.set_rwr_smart_machine.
    destruct (existsb (String.eqb "args") globals); unfold_machine; simpl.
    + destruct (at_address_ok w (n_connect s)); simpl.
      * inv_auto.
      * apply IH. inv_auto.
    + apply IH. inv_auto.
Qed.

Lemma rotate_with_retry_inv (fuel : nat) (p : Q) (s : state LoadTest.locals) :
  Pw p ->
  lt_inv T Pos sm0 s ->
  lt_inv T Pos sm0 (snd (LoadTest.rotate_with_retry w globals fuel sm0 p s)) /\
  quiet (fst (LoadTest.rotate_with_retry w globals fuel sm0 p s)).
Proof.
  intros Hpw (Ht & Hsm & Hp).
  unfold LoadTest.rotate_with_retry, LoadTest.set_rwr_smart_machine,
    LoadTest.get_rwr_smart_machine.
  unfold_machine; simpl.
  destruct (from_robot_ok w (n_lookup s)); simpl.
  - destruct (set_power_ok w (n_pulse s)); simpl.
    + inv_auto.
    + apply reconnect_loop_inv. inv_auto.
  - apply reconnect_loop_inv. inv_auto.
Qed.

Lemma get_smart_machine_bound (s : state LoadTest.locals) (sm : Session) :
  LoadTest.smart_machine (frame s) = Some sm ->
  LoadTest.get_smart_machine s = (Ret sm, s).
Proof.
  intros H. unfold LoadTest.get_smart_machine, bind, get_frame.
  now rewrite H.
Qed.

Lemma call_rotate_inv (fuel : nat) (p : Q) (Hpw : Pw p)
    (s : state LoadTest.locals) :
  let body := (sm <- LoadTest.get_smart_machine ;;
               LoadTest.rotate_with_retry w globals fuel sm p) in
  lt_inv T Pos sm0 s -> lt_inv T Pos sm0 (snd (body s)) /\ quiet (fst (body s)).
Proof.
  intros body Hs. pose proof Hs as (Ht & Hsm & Hp). unfold body.
  rewrite (bind_Ret _ _ _ _ _ (get_smart_machine_bound s sm0 Hsm)).
  apply rotate_with_retry_inv; assumption.
Qed.

(** From here on every power is accepted. *)
Hypothesis Pw_any : forall p, Pw p.

Lemma turn_inv (fuel : nat) (s : state LoadTest.locals) :
  lt_inv T Pos sm0 s ->
  lt_inv T Pos sm0 (snd (LoadTest.turn w globals fuel s)) /\
  quiet (fst (LoadTest.turn w globals fuel s)).
Proof.
  intros (Ht & Hsm & Hp).
  unfold LoadTest.turn.
  erewrite bind_Ret by (unfold LoadTest.randint; reflexivity).
  erewrite bind_Ret by (unfold get_frame; reflexivity).
  cbn [frame].
  destruct (LoadTest.current_wheel_position (frame s) =? randint_0_5 w (n_poll s)); cbn [negb].
  - unfold ret; simpl. inv_auto.
  - erewrite bind_Ret by (unfold print, emit; reflexivity).
    destruct (LoadTest.plan _ _) as [direction count].
    match goal with |- context [bind (for_range count ?b) ?k ?s0] =>
      destruct (for_range_inv (lt_inv T Pos sm0) b (call_rotate_inv fuel _ (Pw_any _)) count s0) as [H1 H2];
      [ inv_auto | destruct (for_range count b s0) as [[[]|e|] s1] eqn:E ]
    end; simpl in *; try contradiction.
    + rewrite (bind_Ret _ _ _ _ _ E).
      destruct H1 as (Ht1 & Hsm1 & Hp1).
      unfold LoadTest.set_current_wheel_position; unfold_machine; simpl.
      inv_auto.
    + rewrite (bind_OutOfFuel _ _ _ _ E). auto.
Qed.

Lemma polling_loop_inv (fuel cycles : nat) (s : state LoadTest.locals) :
  lt_inv T Pos sm0 s ->
  lt_inv T Pos sm0 (snd (LoadTest.polling_loop w globals fuel cycles s)) /\
  quiet (fst (LoadTest.polling_loop w globals fuel cycles s)).
Proof.
  revert s. induction cycles as [|cycles IH]; intros s Hs; simpl.
  - split; [exact Hs | exact Logic.I].
  - unfold bind. destruct (turn_inv fuel s Hs) as [H1 H2].
    destruct (LoadTest.turn w globals fuel s) as [[[]|e|] s1]; simpl in *.
    + apply IH, H1.
    + contradiction.
    + split; [exact H1 | exact Logic.I].
Qed.

Lemma run_from_homing_inv (fuel cycles : nat) (s : state LoadTest.locals) :
  let rest :=
    (for_range 6
       (sm <- LoadTest.get_smart_machine ;;
        LoadTest.rotate_with_retry w globals fuel sm (-1 # 12)) ;;
     LoadTest.set_current_wheel_position 0 ;;
     LoadTest.polling_loop w globals fuel cycles) in
  lt_inv T Pos sm0 s ->
  lt_inv T Pos sm0 (snd (rest s)) /\ quiet (fst (rest s)).
Proof.
  intros rest Hs. unfold rest.
  match goal with |- context [bind (for_range 6 ?b) ?k s] =>
    destruct (for_range_inv (lt_inv T Pos sm0) b (call_rotate_inv fuel _ (Pw_any _)) 6 s Hs) as [H1 H2];
    destruct (for_range 6 b s) as [[[]|e|] s1] eqn:E
  end; simpl in H1, H2; try contradiction.
  - rewrite (bind_Ret _ _ _ _ _ E).
    erewrite bind_Ret
      by (unfold LoadTest.set_current_wheel_position; unfold_machine; reflexivity).
    apply polling_loop_inv. destruct H1 as (Ht1 & Hsm1 & Hp1). inv_auto.
  - rewrite (bind_OutOfFuel _ _ _ _ E). auto.
Qed.
End LoadTestSafety.

Section LoadTestConnect.
Variable w : world.

Lemma connect_loop_spec (n : nat) (s : state LoadTest.locals) :
  LoadTest.connect_loop w n s =
  match first_ok (at_address_ok w) (n_connect s) n with
  | None =>
      (Ret 0%nat,
       mkState (n_connect s + n) (n_lookup s) (n_pulse s) (n_poll s)
               (trace s ++ repeat (EvConnect None) n) (frame s))
  | Some j =>
      (Ret (n - (j - n_connect s))%nat,
       mkState (S j) (n_lookup s) (n_pulse s) (n_poll s)
               (trace s ++ repeat (EvConnect None) (j - n_connect s)
                        ++ [EvConnect (Some j)])
               (LoadTest.mkLocals (Some j)
                  (LoadTest.current_wheel_position (frame s))
                  (LoadTest.rwr_smart_machine (frame s))))
  end.
Proof.
  revert s. induction n as [|n IH]; intros s.
  - destruct s; simpl. unfold ret; simpl.
    now rewrite Nat.add_0_r, app_nil_r.
  - simpl. unfold LoadTest.connect, LoadTest.set_smart_machine.
    unfold_machine; simpl.
    destruct (at_address_ok w (n_connect s)) eqn:Hok; simpl.
    + now rewrite Nat.sub_diag.
    + rewrite IH; simpl.
      pose proof (first_ok_spec (at_address_ok w) n (S (n_connect s))) as Hf.
      destruct (first_ok (at_address_ok w) (S (n_connect s)) n) as [j|].
      * destruct Hf as (Hj & _).
        replace (j - n_connect s)%nat with (S (j - S (n_connect s))) by lia.
        simpl. rewrite <- app_assoc. simpl.
        do 2 f_equal.
      * rewrite <- app_assoc. simpl. do 2 f_equal. lia.
Qed.
End LoadTestConnect.

Section LoadTestMain.
Variable w : world.
Variable globals : list string.
Variables fuel cycles : nat.

Lemma main_not_connected :
  first_ok (at_address_ok w) 0 10 = None ->
  LoadTest.main w globals fuel cycles (initial_state LoadTest.initial_locals) =
  (Raise SystemExit,
   mkState 10 0 0 0
     ([EvPrint "connecting..."] ++ repeat (EvConnect None) 10
        ++ [EvPrint "cannot connect, exiting"])
     LoadTest.initial_locals).
Proof.
  intros Hf. unfold LoadTest.main.
  erewrite bind_Ret by (unfold print, emit; reflexivity).
  erewrite bind_Ret by (rewrite connect_loop_spec; simpl n_connect; rewrite Hf; reflexivity).
  reflexivity.
Qed.

Lemma main_connected (j : nat) :
  first_ok (at_address_ok w) 0 10 = Some j ->
  LoadTest.main w globals fuel cycles (initial_state LoadTest.initial_locals) =
  (for_range 6
     (sm <- LoadTest.get_smart_machine ;;
      LoadTest.rotate_with_retry w globals fuel sm (-1 # 12)) ;;
   LoadTest.set_current_wheel_position 0 ;;
   LoadTest.polling_loop w globals fuel cycles) (homing_state j).
Proof.
  intros Hf. unfold LoadTest.main.
  pose proof (first_ok_spec (at_address_ok w) 10 0) as Hs. rewrite Hf in Hs.
  destruct Hs as (Hj & _).
  erewrite bind_Ret by (unfold print, emit; reflexivity).
  erewrite bind_Ret by (rewrite connect_loop_spec; simpl n_connect; rewrite Hf; reflexivity).
  rewrite Nat.sub_0_r.
  destruct (Nat.eqb_spec (10 - j) 0) as [E|_]; [lia|].
  erewrite bind_Ret by reflexivity.
  erewrite bind_Ret by (unfold print, emit; reflexivity).
  unfold homing_state. simpl. rewrite <- app_assoc. reflexivity.
Qed.
End LoadTestMain.

(** C7. With all ten initial attempts failing, [main] of load_test.py prints
    "cannot connect, exiting" and exits without a single pulse; with a
    success among the ten attempts (the last included) it does not exit: it
    keeps the session of the first success and goes on to the homing
    message. *)
Theorem C7_initial_connect (w : world) (globals : list string) (fuel cycles : nat) :
  let run := LoadTest.main w globals fuel cycles (initial_state LoadTest.initial_locals) in
  ((forall k, (k < 10)%nat -> at_address_ok w k = false) ->
   fst run = Raise SystemExit /\
   trace (snd run) =
     [EvPrint "connecting..."] ++ repeat (EvConnect None) 10
       ++ [EvPrint "cannot connect, exiting"] /\
   n_pulse (snd run) = 0%nat /\
   pulses_of (trace (snd run)) = [])
  /\
  ((exists k, (k < 10)%nat /\ at_address_ok w k = true) ->
   quiet (fst run) /\
   exists j rest,
     (j < 10)%nat /\ at_address_ok w j = true /\
     LoadTest.smart_machine (frame (snd run)) = Some j /\
     trace (snd run) =
       ([EvPrint "connecting..."] ++ repeat (EvConnect None) j
          ++ [EvConnect (Some j); EvPrint "turning wheel to initial position 0"])
       ++ rest).
Proof.
  intros run.
  pose proof (first_ok_spec (at_address_ok w) 10 0) as Hspec.
  destruct (first_ok (at_address_ok w) 0 10) as [j|] eqn:Hf; split.
  - intros Hall. destruct Hspec as (Hj & Hok & _).
    rewrite Hall in Hok by lia. discriminate.
  - intros _. destruct Hspec as (Hj & Hok & _).
    subst run. rewrite (main_connected w globals fuel cycles j Hf).
    set (T := fun tr : list event => exists rest, tr = trace (homing_state j) ++ rest).
    destruct (run_from_homing_inv w globals j T (fun _ => True) (fun _ => True)) with
      (fuel := fuel) (cycles := cycles) (s := homing_state j)
      as [(Ht & Hsm & _) Hq].
    + intros tr m [rest ->]. exists (rest ++ [EvPrint m]). now rewrite app_assoc.
    + intros tr a [rest ->]. exists (rest ++ [EvConnect a]). now rewrite app_assoc.
    + intros tr ok [rest ->]. exists (rest ++ [EvFromRobot j ok]). now rewrite app_assoc.
    + intros tr p ok _ [rest ->]. exists (rest ++ [EvSetPower j p ok]).
      now rewrite app_assoc.
    + intros tr [rest ->]. exists (rest ++ [EvPoll]). now rewrite app_assoc.
    + intros tr p [rest ->] _. exists (rest ++ [EvPosition p]). now rewrite app_assoc.
    + intros _. exact Logic.I.
    + exact Logic.I.
    + intros _. exact Logic.I.
    + repeat split; trivial. exists []. now rewrite app_nil_r.
    + split; [exact Hq|]. destruct Ht as [rest Hrest].
      exists j, rest. repeat split; try lia; assumption.
  - intros _. subst run. rewrite (main_not_connected w globals fuel cycles Hf).
    simpl. repeat split; reflexivity.
  - intros (k & Hk & Hok). specialize (Hspec k Hk). simpl in Hspec.
    rewrite Hspec in Hok. discriminate.
Qed.

Section LoadTestFrame.
Variable w : world.
Variable globals : list string.

Lemma reconnect_loop_frame (fuel : nat) (s : state LoadTest.locals) :
  LoadTest.smart_machine (frame (snd (LoadTest.reconnect_loop w globals fuel s)))
  = LoadTest.smart_machine (frame s).
Proof.
  revert s. induction fuel as [|fuel IH]; intros s; simpl; [reflexivity|].
  unfold LoadTest.load_global, LoadTest.connect, LoadTest.set_rwr_smart_machine.
  destruct (existsb (String.eqb "args") globals); unfold_machine; simpl.
  - destruct (at_address_ok w (n_connect s)); simpl; [reflexivity|].
    now rewrite IH.
  - now rewrite IH.
Qed.

Lemma rotate_with_retry_frame (fuel : nat) (sm : Session) (p : Q)
    (s : state LoadTest.locals) :
  LoadTest.smart_machine (frame (snd (LoadTest.rotate_with_retry w globals fuel sm p s)))
  = LoadTest.smart_machine (frame s).
Proof.
  unfold LoadTest.rotate_with_retry, LoadTest.set_rwr_smart_machine,
    LoadTest.get_rwr_smart_machine.
  unfold_machine; simpl.
  destruct (from_robot_ok w (n_lookup s)); simpl.
  - destruct (set_power_ok w (n_pulse s)); simpl; [reflexivity|].
    now rewrite reconnect_loop_frame.
  - now rewrite reconnect_loop_frame.
Qed.
End LoadTestFrame.

Lemma Forall_snoc {A} (P : A -> Prop) (l : list A) (a : A) :
  Forall P l -> P a -> Forall P (l ++ [a]).
Proof. intros Hl Ha. apply Forall_app. split; [exact Hl | now constructor]. Qed.

(** C10. [rotate_with_retry] of load_test.py leaves the [smart_machine] of
    its caller as it was, whatever its own reconnection loop binds; hence
    every pulse of a run, those after a failure included, goes to the
    session obtained by the initial connection. *)
Theorem C10_caller_session_kept (w : world) (globals : list string)
    (fuel cycles : nat) :
  (forall (s : state LoadTest.locals) (sm : Session) (p : Q),
     LoadTest.smart_machine
       (frame (snd (LoadTest.rotate_with_retry w globals fuel sm p s)))
     = LoadTest.smart_machine (frame s))
  /\
  let run := LoadTest.main w globals fuel cycles (initial_state LoadTest.initial_locals) in
  match first_ok (at_address_ok w) 0 10 with
  | Some j =>
      LoadTest.smart_machine (frame (snd run)) = Some j /\
      Forall (on_session j) (trace (snd run))
  | None => pulses_of (trace (snd run)) = []
  end.
Proof.
  split.
  - intros s sm p. apply rotate_with_retry_frame.
  - intros run. subst run.
    destruct (first_ok (at_address_ok w) 0 10) as [j|] eqn:Hf.
    + rewrite (main_connected w globals fuel cycles j Hf).
      destruct (run_from_homing_inv w globals j (Forall (on_session j))
                  (fun _ => True) (fun _ => True))
        with (fuel := fuel) (cycles := cycles) (s := homing_state j)
        as [(Ht & Hsm & _) _];
        try (intros; apply Forall_snoc; simpl; trivial; fail);
        try (intros; exact Logic.I).
      * repeat split; trivial. unfold homing_state; simpl.
        constructor; [exact Logic.I|].
        apply Forall_app. split.
        -- apply Forall_forall. intros e He. apply repeat_spec in He. now subst e.
        -- repeat constructor.
      * split; assumption.
    + rewrite (main_not_connected w globals fuel cycles Hf). reflexivity.
Qed.

(** ** reader.py: the pulse loop and [control_wheel] in closed form *)

Lemma successes_le (ok : nat -> bool) (n k : nat) : (successes ok k n <= n)%nat.
Proof.
  revert k. induction n as [|n IH]; intros k; simpl; [lia|].
  destruct (ok k); [specialize (IH (S k))|]; lia.
Qed.

Lemma successes_all (ok : nat -> bool) (n k : nat) :
  (forall i, (i < n)%nat -> ok (k + i)%nat = true) -> successes ok k n = n.
Proof.
  revert k. induction n as [|n IH]; intros k H; simpl; [reflexivity|].
  rewrite <- (Nat.add_0_r k) at 1. rewrite H by lia. f_equal. apply IH.
  intros i Hi. replace (S k + i)%nat with (k + S i)%nat by lia. apply H. lia.
Qed.

Lemma successes_until (ok : nat -> bool) (n k j : nat) :
  (j < n)%nat ->
  (forall i, (i < j)%nat -> ok (k + i)%nat = true) ->
  ok (k + j)%nat = false ->
  successes ok k n = j.
Proof.
  revert k j. induction n as [|n IH]; intros k j Hj Hok Hfail; [lia|]. simpl.
  destruct j as [|j].
  - rewrite Nat.add_0_r in Hfail. now rewrite Hfail.
  - rewrite <- (Nat.add_0_r k) at 1. rewrite Hok by lia. f_equal.
    apply IH; [lia| |].
    + intros i Hi. replace (S k + i)%nat with (k + S i)%nat by lia. apply Hok. lia.
    + replace (S k + j)%nat with (k + S j)%nat by lia. exact Hfail.
Qed.

Lemma wheel_position_of_range (events : list cal_event) (now1 now2 p : Z) :
  Reader.wheel_position_of events now1 now2 = Some p -> in_range p.
Proof.
  unfold Reader.wheel_position_of, Reader.event_type_to_wheel_position, in_range.
  destruct events as [|event events]; [discriminate|].
  repeat match goal with
         | |- context [if ?b then _ else _] => destruct b
         end;
    intros H; inversion H; subst;
    unfold Reader.WORK_FROM_HOME, Reader.AVAILABLE, Reader.GOING_TO_EVENT; lia.
Qed.

Lemma positions_of_stepped (robot : Session) (direction : Z) (j : nat) (c : Z) :
  positions_of (stepped robot direction c j)
  = map (fun i => c - direction * Z.of_nat i) (seq 1 j).
Proof.
  revert c. induction j as [|j IH]; intros c; [reflexivity|].
  cbn [stepped positions_of]. rewrite IH. cbn [seq map]. f_equal.
  - f_equal. lia.
  - rewrite <- (seq_shift j 1), map_map. apply map_ext. intros i. lia.
Qed.

Lemma pulses_of_stepped (robot : Session) (direction : Z) (j : nat) (c : Z) :
  pulses_of (stepped robot direction c j)
  = repeat (EvSetPower robot (pulse_power (1 # 6) direction) true) j.
Proof.
  revert c. induction j as [|j IH]; intros c; [reflexivity|].
  cbn [stepped]. unfold pulses_of in *. cbn [filter is_pulse repeat].
  now rewrite IH.
Qed.

Section ReaderWheel.
Variable w : world.

Lemma get_next_wheel_position_spec (s : state Reader.locals) :
  Reader.get_next_wheel_position w s =
  (target_of (calendar w (n_poll s)),
   mkState (n_connect s) (n_lookup s) (n_pulse s) (S (n_poll s))
           (trace s ++ poll_trace (calendar w (n_poll s))) (frame s)).
Proof.
  unfold Reader.get_next_wheel_position, poll_trace, Reader.wheel_position_of.
  erewrite bind_Ret by reflexivity.
  erewrite bind_Ret by (unfold Reader.execute_list; reflexivity).
  cbn [n_connect n_lookup n_pulse n_poll trace frame].
  destruct (calendar w (n_poll s)) as [| |[|event events] now1 now2];
    cbn [target_of]; try (unfold_machine; cbn; rewrite <- !app_assoc; reflexivity).
  erewrite bind_Ret by reflexivity.
  cbn [n_connect n_lookup n_pulse n_poll trace frame].
  unfold Reader.wheel_position_of.
  repeat match goal with
         | |- context [if ?b then _ else _] => destruct b
         end;
    unfold_machine; cbn [n_connect n_lookup n_pulse n_poll trace frame];
    rewrite <- !app_assoc; reflexivity.
Qed.

Lemma pulse_succeeds (robot : Session) (direction : Z) (s : state Reader.locals) :
  set_power_ok w (n_pulse s) = true ->
  Reader.pulse w (MotorOf robot) direction s =
  (Ret tt,
   mkState (n_connect s) (n_lookup s) (S (n_pulse s)) (n_poll s)
     (trace s ++ [EvSetPower robot (pulse_power (1 # 6) direction) true;
                  EvPosition (Reader.cw_current_wheel_position (frame s) - direction)])
     (Reader.mkLocals (Reader.robot (frame s))
        (Reader.current_wheel_position (frame s))
        (Reader.cw_current_wheel_position (frame s) - direction))).
Proof.
  intros Hok.
  unfold Reader.pulse, Reader.set_cw_current_wheel_position,
    Reader.bind_cw_current_wheel_position.
  unfold_machine. rewrite Hok. cbn. now rewrite <- app_assoc.
Qed.

Lemma pulse_fails (robot : Session) (direction : Z) (s : state Reader.locals) :
  set_power_ok w (n_pulse s) = false ->
  Reader.pulse w (MotorOf robot) direction s =
  (Raise MotorError,
   mkState (n_connect s) (n_lookup s) (S (n_pulse s)) (n_poll s)
     (trace s ++ [EvSetPower robot (pulse_power (1 # 6) direction) false])
     (frame s)).
Proof.
  intros Hok.
  unfold Reader.pulse. unfold_machine. rewrite Hok. reflexivity.
Qed.

Lemma pulses_spec (robot : Session) (direction : Z) (n : nat)
    (s : state Reader.locals) :
  for_range n (Reader.pulse w (MotorOf robot) direction) s =
  after_pulses w robot direction n s.
Proof.
  revert s. induction n as [|n IH]; intros s; unfold after_pulses, pulsed.
  - destruct s as [nc nl np npo tr [r p c]]; simpl. unfold ret.
    rewrite Nat.add_0_r, app_nil_r, Z.mul_0_r, Z.sub_0_r. reflexivity.
  - cbn [for_range successes].
    destruct (set_power_ok w (n_pulse s)) eqn:Hok.
    + rewrite (bind_Ret _ _ _ _ _ (pulse_succeeds robot direction s Hok)).
      rewrite IH. unfold after_pulses, pulsed. cbn [n_connect n_lookup n_pulse n_poll trace frame
        Reader.robot Reader.current_wheel_position Reader.cw_current_wheel_position].
      set (j := successes (set_power_ok w) (S (n_pulse s)) n).
      replace (Reader.cw_current_wheel_position (frame s) - direction
               - direction * Z.of_nat j)
        with (Reader.cw_current_wheel_position (frame s)
              - direction * Z.of_nat (S j)) by lia.
      replace (S (n_pulse s) + j)%nat with (n_pulse s + S j)%nat by lia.
      rewrite <- !app_assoc. cbn [app stepped].
      change (S j =? S n)%nat with (j =? n)%nat.
      destruct (Nat.eqb_spec j n); reflexivity.
    + rewrite (bind_Raise _ _ _ _ _ (pulse_fails robot direction s Hok)).
      destruct s as [nc nl np npo tr [r p c]]; cbn.
      rewrite Nat.add_0_r, app_nil_r, Z.mul_0_r, Z.sub_0_r. reflexivity.
Qed.
End ReaderWheel.

Section ReaderControl.
Variable w : world.
Variables (robot : Session) (current : Z) (s : state Reader.locals).

Lemma control_wheel_polls :
  Reader.control_wheel w (MotorOf robot) current s =
  match target_of (calendar w (n_poll s)) with
  | Ret None => (Raise TypeError, announced w current s)
  | Ret (Some next) =>
      if current =? next then (Ret (current, None), polled w current s)
      else
        wheel_return
          (for_range (snd (Reader.plan current next))
             (Reader.pulse w (MotorOf robot) (fst (Reader.plan current next)))
             (announced w current s))
  | Raise e => (Raise e, polled w current s)
  | OutOfFuel => (OutOfFuel, polled w current s)
  end.
Proof.
  unfold Reader.control_wheel.
  erewrite bind_Ret
    by (unfold Reader.bind_cw_current_wheel_position; unfold_machine; reflexivity).
  unfold bind at 1. rewrite get_next_wheel_position_spec.
  cbn [n_connect n_lookup n_pulse n_poll trace frame].
  fold (polled w current s).
  destruct (target_of (calendar w (n_poll s))) as [[next|]|e|]; try reflexivity.
  - destruct (current =? next); cbn [negb]; [reflexivity|].
    erewrite bind_Ret by (unfold print, emit; reflexivity).
    destruct (Reader.plan current next) as [direction count]. cbn [fst snd].
    unfold polled. cbn [n_connect n_lookup n_pulse n_poll trace frame].
    rewrite <- app_assoc. fold (announced w current s).
    unfold try_except, wheel_return.
    unfold bind at 1.
    destruct (for_range count (Reader.pulse w (MotorOf robot) direction)
                (announced w current s)) as [[[]|e|] s3]; reflexivity.
  - unfold_machine. unfold polled, announced. cbn. now rewrite <- app_assoc.
Qed.
End ReaderControl.

(** ** reader.py: the estimate stays among the stations *)

Section Keeps.
Context {L : Type}.
Variable I : state L -> Prop.

Lemma keeps_weaken {A} (V V' : A -> Prop) (m : M L A) :
  (forall a, V a -> V' a) -> keeps I V m -> keeps I V' m.
Proof. intros HV Hm s Hs. destruct (Hm s Hs). split; auto. Qed.

Lemma keeps_ret {A} (V : A -> Prop) (a : A) : V a -> keeps I V (ret a).
Proof. intros Ha s Hs. split; [exact Hs|]. intros a' E. inversion E; subst. exact Ha. Qed.

Lemma keeps_raise {A} (V : A -> Prop) (e : exn) : keeps I V (raise e).
Proof. intros s Hs. split; [exact Hs|]. intros a' E. discriminate. Qed.

Lemma keeps_out_of_fuel {A} (V : A -> Prop) : keeps I V out_of_fuel.
Proof. intros s Hs. split; [exact Hs|]. intros a' E. discriminate. Qed.

Lemma keeps_bind {A B} (V : A -> Prop) (V' : B -> Prop) (m : M L A)
    (k : A -> M L B) :
  keeps I V m -> (forall a, V a -> keeps I V' (k a)) -> keeps I V' (bind m k).
Proof.
  intros Hm Hk s Hs. unfold bind. destruct (Hm s Hs) as [H1 H2].
  destruct (m s) as [[a|e|] s1]; simpl in *.
  - apply Hk; auto.
  - split; [exact H1 | discriminate].
  - split; [exact H1 | discriminate].
Qed.

Lemma keeps_try_except {A} (V : A -> Prop) (body : M L A)
    (handler : exn -> M L A) :
  keeps I V body -> (forall e, keeps I V (handler e)) ->
  keeps I V (try_except body handler).
Proof.
  intros Hb Hh s Hs. unfold try_except. destruct (Hb s Hs) as [H1 H2].
  destruct (body s) as [[a|e|] s1]; simpl in *.
  - split; [exact H1 | exact H2].
  - destruct (is_Exception e).
    + apply Hh, H1.
    + split; [exact H1 | exact H2].
  - split; [exact H1 | discriminate].
Qed.

Lemma keeps_for_range (n : nat) (body : M L unit) :
  keeps I (fun _ => True) body -> keeps I (fun _ => True) (for_range n body).
Proof.
  intros Hb. induction n as [|n IH]; simpl.
  - now apply keeps_ret.
  - eapply keeps_bind; [exact Hb|]. intros ? _. exact IH.
Qed.

Lemma keeps_get_frame (F : L -> Prop) :
  (forall s, I s -> F (frame s)) -> keeps I F get_frame.
Proof.
  intros HF s Hs. split; [exact Hs|]. intros a E. inversion E; subst. now apply HF.
Qed.
End Keeps.

Lemma plan_steps_in_range (current next : Z) (i : nat) :
  in_range current -> in_range next ->
  (i <= snd (Reader.plan current next))%nat ->
  in_range (current - fst (Reader.plan current next) * Z.of_nat i).
Proof.
  unfold in_range, Reader.plan, copysign. cbn [fst snd]. intros Hc Hn Hi.
  destruct (Z.ltb_spec (current - next) 0); simpl Z.abs; nia.
Qed.

Section ReaderSafety.
Variable w : world.
Variable T : list event -> Prop.
Variable G : event -> Prop.
Hypothesis G_other : forall e, is_position e = false -> G e.
Hypothesis G_position : forall p, in_range p -> G (EvPosition p).
Hypothesis T_step : forall tr e, T tr -> G e -> T (tr ++ [e]).

Lemma stepped_allowed (robot : Session) (direction : Z) (j : nat) (c : Z) :
  (forall i, (1 <= i <= j)%nat -> in_range (c - direction * Z.of_nat i)) ->
  Forall G (stepped robot direction c j).
Proof.
  revert c. induction j as [|j IH]; intros c H; cbn [stepped]; [constructor|].
  constructor; [now apply G_other|]. constructor.
  - apply G_position. specialize (H 1%nat).
    replace (c - direction) with (c - direction * Z.of_nat 1) by lia.
    apply H. lia.
  - apply IH. intros i Hi.
    replace (c - direction - direction * Z.of_nat i)
      with (c - direction * Z.of_nat (S i)) by lia.
    apply H. lia.
Qed.

Lemma T_app (l : list event) (tr : list event) :
  T tr -> Forall G l -> T (tr ++ l).
Proof.
  revert tr. induction l as [|e l IH]; intros tr Ht Hl.
  - now rewrite app_nil_r.
  - inversion Hl; subst.
    change (e :: l) with ([e] ++ l). rewrite app_assoc. apply IH; auto.
Qed.

Ltac rd_auto :=
  unfold rd_inv in *; cbn [trace frame Reader.current_wheel_position] in *;
  intuition (try apply T_step; try (apply G_other; reflexivity); auto).

Lemma keeps_emit (V : unit -> Prop) (e : event) :
  G e -> (forall u, V u) -> keeps (rd_inv T) V (emit e).
Proof. intros He HV s Hs. unfold emit; simpl. split; [rd_auto | auto]. Qed.

Lemma keeps_at_address :
  keeps (rd_inv T) (fun _ => True) (@at_address Reader.locals w).
Proof.
  intros s Hs. unfold at_address.
  destruct (at_address_ok w (n_connect s)); simpl; split; auto; rd_auto.
Qed.

Lemma keeps_from_robot (r : Session) :
  keeps (rd_inv T) (fun _ => True) (@from_robot Reader.locals w r).
Proof.
  intros s Hs. unfold from_robot.
  destruct (from_robot_ok w (n_lookup s)); simpl; split; auto; rd_auto.
Qed.

Lemma keeps_set_power (m : Motor) (p : Q) :
  keeps (rd_inv T) (fun _ => True) (@set_power Reader.locals w m p).
Proof.
  intros s Hs. unfold set_power. destruct m as [r].
  destruct (set_power_ok w (n_pulse s)); simpl; split; auto; rd_auto.
Qed.

Lemma keeps_close (r : option Session) :
  keeps (rd_inv T) (fun _ => True) (@close Reader.locals r).
Proof.
  destruct r as [r|]; simpl.
  - apply keeps_emit; auto.
  - apply keeps_raise.
Qed.

Lemma keeps_set_robot (r : option Session) :
  keeps (rd_inv T) (fun _ => True) (Reader.set_robot r).
Proof.
  intros s Hs. unfold Reader.set_robot. unfold_machine; simpl.
  split; auto; rd_auto.
Qed.

Lemma keeps_set_current_wheel_position (p : Z) :
  in_range p ->
  keeps (rd_inv T) (fun _ => True) (Reader.set_current_wheel_position p).
Proof.
  intros Hp s Hs. unfold Reader.set_current_wheel_position. unfold_machine; simpl.
  split; auto; rd_auto.
Qed.

Lemma keeps_connect_attempts (n : nat) :
  keeps (rd_inv T) (fun _ => True) (Reader.connect_attempts w n).
Proof.
  induction n as [|n IH]; simpl.
  - apply keeps_raise.
  - apply keeps_try_except.
    + eapply keeps_bind; [apply keeps_emit with (V := fun _ => True); auto|].
      intros _ _. apply keeps_at_address.
    + intros e. eapply keeps_bind; [apply keeps_emit with (V := fun _ => True); auto|].
      intros _ _. exact IH.
Qed.

Lemma keeps_ensure_robot :
  keeps (rd_inv T) (fun _ => True) (Reader.ensure_robot w).
Proof.
  unfold Reader.ensure_robot.
  eapply keeps_bind; [apply keeps_get_frame with (F := fun _ => True); auto|].
  intros f _. destruct (Reader.robot f) as [r|].
  - now apply keeps_ret.
  - eapply keeps_bind; [apply keeps_connect_attempts|]. intros r _.
    eapply keeps_bind; [apply keeps_set_robot|]. intros _ _. now apply keeps_ret.
Qed.

Lemma keeps_failed_to_connect :
  keeps (rd_inv T) (fun _ => True) Reader.failed_to_connect.
Proof.
  unfold Reader.failed_to_connect.
  eapply keeps_bind; [apply keeps_emit with (V := fun _ => True); auto|]. intros _ _.
  eapply keeps_bind; [apply keeps_get_frame with (F := fun _ => True); auto|].
  intros f _.
  eapply keeps_bind; [apply keeps_close|]. intros _ _. apply keeps_set_robot.
Qed.

Lemma keeps_homing_loop (fuel : nat) :
  keeps (rd_inv T) (fun _ => True) (Reader.homing_loop w fuel).
Proof.
  induction fuel as [|fuel IH]; cbn [Reader.homing_loop].
  - apply keeps_out_of_fuel.
  - apply keeps_try_except.
    + eapply keeps_bind; [apply keeps_ensure_robot|]. intros r _.
      eapply keeps_bind; [apply keeps_from_robot|]. intros m _.
      apply keeps_for_range, keeps_set_power.
    + intros e. eapply keeps_bind; [apply keeps_failed_to_connect|].
      intros _ _. exact IH.
Qed.

Lemma keeps_control_wheel (robot : Session) (current : Z) :
  in_range current ->
  keeps (rd_inv T) (fun r => in_range (fst r))
    (Reader.control_wheel w (MotorOf robot) current).
Proof.
  intros Hc s (Ht & Hp). rewrite control_wheel_polls.
  assert (Hpoll : T (trace s ++ poll_trace (calendar w (n_poll s)))).
  { apply T_app; [exact Ht|]. unfold poll_trace.
    destruct (calendar w (n_poll s)) as [| |[|event events] now1 now2];
      repeat match goal with
             | |- context [if ?b then _ else _] => destruct b
             end;
      repeat (constructor; [now apply G_other|]); constructor. }
  destruct (target_of (calendar w (n_poll s))) as [[next|]|e|] eqn:Htarget.
  - assert (Hn : in_range next).
    { destruct (calendar w (n_poll s)); simpl in Htarget; try discriminate.
      inversion Htarget. eapply wheel_position_of_range; eauto. }
    destruct (current =? next).
    + split; [split; assumption|]. intros a E. inversion E; subst. exact Hc.
    + rewrite pulses_spec. unfold after_pulses.
      set (d := fst (Reader.plan current next)).
      set (n := snd (Reader.plan current next)).
      cbn [n_pulse announced].
      set (j := successes (set_power_ok w) (n_pulse s) n).
      assert (Hj : (j <= n)%nat) by apply successes_le.
      assert (Hsteps : T ((trace s ++ poll_trace (calendar w (n_poll s))
                            ++ [EvPrint "turning wheel from"])
                          ++ stepped robot d current j)).
      { apply T_app.
        - rewrite app_assoc. apply T_step; [exact Hpoll | now apply G_other].
        - apply stepped_allowed. intros i Hi.
          apply plan_steps_in_range; auto. fold n. lia. }
      assert (Hend : in_range (current - d * Z.of_nat j)).
      { apply plan_steps_in_range; auto. }
      destruct (Nat.eqb j n); unfold wheel_return, pulsed; cbn.
      * split; [split; assumption|]. intros a E. inversion E; subst. exact Hend.
      * split.
        -- split; [|assumption]. cbn. apply T_step; [|now apply G_other].
           apply T_step; [exact Hsteps | now apply G_other].
        -- intros a E. inversion E; subst. exact Hend.
  - split; [|discriminate]. split; [|assumption]. unfold announced; cbn [snd trace].
    rewrite app_assoc. apply T_step; [exact Hpoll | now apply G_other].
  - split; [|discriminate]. split; assumption.
  - split; [|discriminate]. split; assumption.
Qed.

Lemma keeps_cycle : keeps (rd_inv T) (fun _ => True) (Reader.cycle w).
Proof.
  unfold Reader.cycle. apply keeps_try_except.
  - eapply keeps_bind; [apply keeps_ensure_robot|]. intros r _.
    eapply keeps_bind; [apply keeps_from_robot|]. intros [r'] _.
    eapply keeps_bind;
      [apply keeps_get_frame
         with (F := fun f => in_range (Reader.current_wheel_position f));
       now intros s0 (_ & H)|].
    intros f Hf.
    eapply keeps_bind; [apply keeps_control_wheel, Hf|].
    intros [position ex] Hpos.
    eapply keeps_bind; [apply keeps_set_current_wheel_position, Hpos|]. intros _ _.
    eapply keeps_bind; [apply keeps_emit with (V := fun _ => True); auto|]. intros _ _.
    destruct ex; apply keeps_emit; auto.
  - intros e. apply keeps_failed_to_connect.
Qed.

Lemma keeps_polling_loop (cycles : nat) :
  keeps (rd_inv T) (fun _ => True) (Reader.polling_loop w cycles).
Proof.
  induction cycles as [|cycles IH]; simpl.
  - now apply keeps_ret.
  - eapply keeps_bind; [apply keeps_cycle|]. intros _ _. exact IH.
Qed.

Lemma keeps_connect_and_home (fuel : nat) :
  keeps (rd_inv T) (fun _ => True)
    (print "Namespace(...)" ;;
     print "connecting to robot" ;;
     r <- Reader.connect w ;;
     Reader.set_robot (Some r) ;;
     print "turning wheel to initial position 0" ;;
     Reader.homing_loop w fuel).
Proof.
  eapply keeps_bind; [apply keeps_emit with (V := fun _ => True); auto|]. intros _ _.
  eapply keeps_bind; [apply keeps_emit with (V := fun _ => True); auto|]. intros _ _.
  eapply keeps_bind; [apply keeps_connect_attempts|]. intros r _.
  eapply keeps_bind; [apply keeps_set_robot|]. intros _ _.
  eapply keeps_bind; [apply keeps_emit with (V := fun _ => True); auto|]. intros _ _.
  apply keeps_homing_loop.
Qed.

Lemma keeps_main (fuel cycles : nat) :
  keeps (rd_inv T) (fun _ => True) (Reader.main w fuel cycles).
Proof.
  unfold Reader.main.
  eapply keeps_bind; [apply keeps_emit with (V := fun _ => True); auto|]. intros _ _.
  eapply keeps_bind; [apply keeps_emit with (V := fun _ => True); auto|]. intros _ _.
  eapply keeps_bind; [apply keeps_connect_attempts|]. intros r _.
  eapply keeps_bind; [apply keeps_set_robot|]. intros _ _.
  eapply keeps_bind; [apply keeps_emit with (V := fun _ => True); auto|]. intros _ _.
  eapply keeps_bind; [apply keeps_homing_loop|]. intros _ _.
  eapply keeps_bind; [apply keeps_set_current_wheel_position; unfold in_range; lia|].
  intros _ _. apply keeps_polling_loop.
Qed.
End ReaderSafety.

Lemma reader_main_split (w : world) (fuel cycles : nat) (s : state Reader.locals) :
  Reader.main w fuel cycles s =
  ((print "Namespace(...)" ;;
    print "connecting to robot" ;;
    r <- Reader.connect w ;;
    Reader.set_robot (Some r) ;;
    print "turning wheel to initial position 0" ;;
    Reader.homing_loop w fuel) ;;
   Reader.set_current_wheel_position 0 ;;
   Reader.polling_loop w cycles) s.
Proof.
  unfold Reader.main, bind.
  repeat match goal with
         | |- context [match ?m ?st with _ => _ end] =>
             destruct (m st) as [[?|?|] ?]
         end;
    reflexivity.
Qed.

Lemma no_position_step (tr : list event) (e : event) :
  no_position tr -> is_position e = false -> no_position (tr ++ [e]).
Proof.
  unfold no_position. intros H He. rewrite positions_of_app, H.
  destruct e; simpl in *; try reflexivity; discriminate.
Qed.

Lemma homed_step (tr : list event) (e : event) :
  homed tr -> allowed e -> homed (tr ++ [e]).
Proof.
  intros (rest & H & Hr) He. unfold homed. rewrite positions_of_app, H.
  destruct e; simpl in *;
    try (exists rest; split; [now rewrite app_nil_r | exact Hr]).
  exists (rest ++ [position]). split; [reflexivity|]. now apply Forall_snoc.
Qed.

Lemma homed_from_0 (tr : list event) : homed tr -> from_0_in_range (positions_of tr).
Proof. intros (rest & H & Hr). rewrite H. simpl. auto. Qed.

Lemma no_position_from_0 (tr : list event) :
  no_position tr -> from_0_in_range (positions_of tr).
Proof. unfold no_position. intros ->. exact Logic.I. Qed.

Lemma homing_state_no_position (j : nat) : no_position (trace (homing_state j)).
Proof.
  unfold no_position, homing_state. cbn [trace].
  rewrite !positions_of_app. cbn [positions_of app].
  induction j as [|j IH]; [reflexivity | exact IH].
Qed.

Lemma load_test_positions (w : world) (globals : list string) (fuel cycles : nat) :
  (forall k, in_range (randint_0_5 w k)) ->
  let run := snd (LoadTest.main w globals fuel cycles
                    (initial_state LoadTest.initial_locals)) in
  in_range (LoadTest.current_wheel_position (frame run)) /\
  from_0_in_range (positions_of (trace run)).
Proof.
  intros Hrand run. subst run.
  assert (H0 : in_range 0) by (unfold in_range; lia).
  destruct (first_ok (at_address_ok w) 0 10) as [j|] eqn:Hf.
  - rewrite (main_connected w globals fuel cycles j Hf).
    match goal with |- context [bind (for_range 6 ?b) ?k ?s0] =>
      destruct (for_range_inv (lt_inv no_position in_range j) b) with (n := 6%nat) (s := s0)
        as [H1 H2];
      [ intros s Hs;
        apply (call_rotate_inv w globals j no_position in_range (fun _ => True)); auto;
          intros; apply no_position_step; auto
      | split; [apply homing_state_no_position | split; [reflexivity | exact H0]]
      | destruct (for_range 6 b s0) as [[[]|e|] s1] eqn:E ]
    end; simpl in H1, H2; try contradiction.
    + rewrite (bind_Ret _ _ _ _ _ E).
      erewrite bind_Ret
        by (unfold LoadTest.set_current_wheel_position; unfold_machine; reflexivity).
      destruct H1 as (Ht1 & Hsm1 & Hp1).
      destruct (polling_loop_inv w globals j homed in_range (fun _ => True)) with
        (fuel := fuel) (cycles := cycles)
        (s := mkState (n_connect s1) (n_lookup s1) (n_pulse s1) (n_poll s1)
                (trace s1 ++ [EvPosition 0])
                (LoadTest.mkLocals (LoadTest.smart_machine (frame s1)) 0
                   (LoadTest.rwr_smart_machine (frame s1))))
        as [(Ht & _ & Hp) _];
        try (intros; apply homed_step; simpl; auto; fail); auto.
      * unfold lt_inv; cbn. split; [|split; [assumption | exact H0]].
        exists []. unfold no_position in Ht1.
        rewrite positions_of_app, Ht1. split; [reflexivity | constructor].
      * split; [exact Hp | now apply homed_from_0].
    + rewrite (bind_OutOfFuel _ _ _ _ E). cbn [snd].
      destruct H1 as (Ht1 & Hsm1 & Hp1). split; [exact Hp1 | now apply no_position_from_0].
  - rewrite (main_not_connected w globals fuel cycles Hf). cbn.
    split; [exact H0|].
    replace (positions_of (repeat (EvConnect None) 10 ++ [EvPrint "cannot connect, exiting"]))
      with (@nil Z) by reflexivity.
    exact Logic.I.
Qed.

Lemma reader_positions (w : world) (fuel cycles : nat) :
  let run := snd (Reader.main w fuel cycles (initial_state Reader.initial_locals)) in
  in_range (Reader.current_wheel_position (frame run)) /\
  from_0_in_range (positions_of (trace run)).
Proof.
  intros run. subst run. rewrite reader_main_split.
  assert (H0 : in_range 0) by (unfold in_range; lia).
  match goal with |- context [bind ?m ?k ?s0] =>
    destruct (keeps_connect_and_home w no_position (fun e => is_position e = false))
      with (fuel := fuel) (s := s0) as [(Ht1 & Hp1) _];
    [ auto | exact no_position_step | split; [reflexivity | exact H0] | ];
    destruct (m s0) as [[[]|e|] s1] eqn:E
  end; cbn [snd] in Ht1, Hp1.
  - rewrite (bind_Ret _ _ _ _ _ E).
    erewrite bind_Ret
      by (unfold Reader.set_current_wheel_position; unfold_machine; reflexivity).
    destruct (keeps_polling_loop w homed allowed) with
      (cycles := cycles)
      (s := mkState (n_connect s1) (n_lookup s1) (n_pulse s1) (n_poll s1)
              (trace s1 ++ [EvPosition 0])
              (Reader.mkLocals (Reader.robot (frame s1)) 0
                 (Reader.cw_current_wheel_position (frame s1))))
      as [(Ht & Hp) _].
    + intros e He. destruct e; simpl in *; try exact Logic.I; discriminate.
    + intros p Hp. exact Hp.
    + exact homed_step.
    + split; cbn; [|exact H0]. exists []. unfold no_position in Ht1.
      rewrite positions_of_app, Ht1. split; [reflexivity | constructor].
    + split; [exact Hp | now apply homed_from_0].
  - rewrite (bind_Raise _ _ _ _ _ E). cbn [snd].
    split; [exact Hp1 | now apply no_position_from_0].
  - rewrite (bind_OutOfFuel _ _ _ _ E). cbn [snd].
    split; [exact Hp1 | now apply no_position_from_0].
Qed.

(** C9. In both scripts the estimate is one of the stations 0..5 all along a
    run: the first value assigned is the 0 that follows homing, every later
    assignment (per pulse, at the end of a plan, on any failure path) stays in
    0..5, and so does the variable of [main] at the end.  The random targets
    are taken in 0..5, as [random.randint(0,5)] gives them; the calendar
    targets are those that [get_next_wheel_position] computes. *)
Theorem C9_position_in_range (w : world) (globals : list string)
    (fuel cycles : nat) :
  (forall k, in_range (randint_0_5 w k)) ->
  let random_run :=
    snd (LoadTest.main w globals fuel cycles (initial_state LoadTest.initial_locals)) in
  let calendar_run :=
    snd (Reader.main w fuel cycles (initial_state Reader.initial_locals)) in
  (in_range (LoadTest.current_wheel_position (frame random_run)) /\
   from_0_in_range (positions_of (trace random_run))) /\
  (in_range (Reader.current_wheel_position (frame calendar_run)) /\
   from_0_in_range (positions_of (trace calendar_run))).
Proof.
  intros Hrand. split.
  - now apply load_test_positions.
  - apply reader_positions.
Qed.

Lemma turn_same_target (w : world) (globals : list string) (fuel : nat)
    (s : state LoadTest.locals) :
  randint_0_5 w (n_poll s) = LoadTest.current_wheel_position (frame s) ->
  LoadTest.turn w globals fuel s =
  (Ret tt, mkState (n_connect s) (n_lookup s) (n_pulse s) (S (n_poll s))
             (trace s ++ [EvPoll]) (frame s)).
Proof.
  intros H. unfold LoadTest.turn.
  erewrite bind_Ret by (unfold LoadTest.randint; reflexivity).
  erewrite bind_Ret by (unfold get_frame; reflexivity).
  cbn [frame]. rewrite H, Z.eqb_refl. reflexivity.
Qed.

(** ** Failure paths *)

Section LoadTestStuck.
Variable w : world.

Lemma reconnect_loop_diverges (fuel : nat) (s : state LoadTest.locals) :
  LoadTest.reconnect_loop w LoadTest.module_globals fuel s =
  (OutOfFuel,
   mkState (n_connect s) (n_lookup s) (n_pulse s) (n_poll s)
     (trace s ++ repeat (EvPrint "CUSTOM ATTEMPT to reconnect after exception") fuel)
     (frame s)).
Proof.
  revert s. induction fuel as [|fuel IH]; intros s.
  - destruct s; simpl. unfold out_of_fuel. now rewrite app_nil_r.
  - cbn [LoadTest.reconnect_loop]. unfold try_except.
    erewrite bind_Raise by reflexivity. cbn [is_Exception].
    erewrite bind_Ret by (unfold print, emit; reflexivity).
    rewrite IH. cbn. now rewrite <- app_assoc.
Qed.

Lemma rotate_with_retry_stuck (fuel : nat) (sm : Session) (p : Q)
    (s : state LoadTest.locals) :
  from_robot_ok w (n_lookup s) = true ->
  set_power_ok w (n_pulse s) = false ->
  LoadTest.rotate_with_retry w LoadTest.module_globals fuel sm p s =
  (OutOfFuel,
   mkState (n_connect s) (S (n_lookup s)) (S (n_pulse s)) (n_poll s)
     (trace s ++ [EvFromRobot sm true; EvSetPower sm p false]
        ++ repeat (EvPrint "CUSTOM ATTEMPT to reconnect after exception") (S fuel))
     (LoadTest.mkLocals (LoadTest.smart_machine (frame s))
        (LoadTest.current_wheel_position (frame s)) (Some sm))).
Proof.
  intros Hl Hp.
  unfold LoadTest.rotate_with_retry, LoadTest.set_rwr_smart_machine,
    LoadTest.get_rwr_smart_machine.
  unfold_machine; simpl. rewrite Hl; simpl. rewrite Hp; simpl.
  rewrite reconnect_loop_diverges. cbn.
  rewrite <- !app_assoc. reflexivity.
Qed.
End LoadTestStuck.

(** C5 fails on reader.py.  A cycle without a target makes [main] close the
    session and set [robot] to [None]; the reconnection of the next cycle
    fails fifty times; the handler of line 184 then calls [close] on [None],
    and that AttributeError leaves [main]. *)
Theorem C5_recovery_raises (fuel cycles : nat) :
  let run := Reader.main world_no_event_then_offline (S fuel) (S (S cycles))
               (initial_state Reader.initial_locals) in
  fst run = Raise AttributeError /\
  n_connect (snd run) = 51%nat /\
  Reader.robot (frame (snd run)) = None.
Proof. intros run. subst run. repeat split. Qed.

(** C6 fails on reader.py.  After homing, the calendar has no upcoming event
    and [get_next_wheel_position] answers [None]; line 125 raises a
    TypeError, which the handler of [main] takes for a lost connection: it
    prints "Failed to connect", closes the healthy session and forgets it.
    No pulse is sent and the estimate stays 0. *)
Theorem C6_no_target_drops_session (fuel : nat) :
  let run := Reader.main world_no_event_then_offline (S fuel) 1
               (initial_state Reader.initial_locals) in
  fst run = Ret tt /\
  Reader.robot (frame (snd run)) = None /\
  Reader.current_wheel_position (frame (snd run)) = 0 /\
  n_pulse (snd run) = 6%nat /\
  exists before,
    trace (snd run) =
      before ++ [EvPrint "No upcoming events found."; EvPrint "turning wheel from";
                 EvPrint "Failed to connect"; EvClose 0%nat].
Proof.
  intros run. subst run. repeat split. eexists. vm_compute. 
  match goal with |- ?l = _ => 
    let n := constr:((List.length l - 4)%nat) in
    instantiate (1 := firstn n l) end.
  reflexivity.
Qed.

Section LoadTestRuns.
Variable w : world.
Variable globals : list string.

Lemma rotate_with_retry_ok (fuel : nat) (sm : Session) (p : Q)
    (s : state LoadTest.locals) :
  from_robot_ok w (n_lookup s) = true ->
  set_power_ok w (n_pulse s) = true ->
  LoadTest.rotate_with_retry w globals fuel sm p s = (Ret tt, rotated1 sm p s).
Proof.
  intros Hl Hp.
  unfold LoadTest.rotate_with_retry, LoadTest.set_rwr_smart_machine,
    LoadTest.get_rwr_smart_machine.
  unfold_machine; simpl. rewrite Hl; simpl. rewrite Hp; simpl.
  unfold rotated1. now rewrite <- app_assoc.
Qed.

Lemma rotations_ok (fuel : nat) (sm : Session) (p : Q) (n : nat)
    (s : state LoadTest.locals) :
  LoadTest.smart_machine (frame s) = Some sm ->
  (forall i, (i < n)%nat -> from_robot_ok w (n_lookup s + i) = true) ->
  (forall i, (i < n)%nat -> set_power_ok w (n_pulse s + i) = true) ->
  for_range n
    (sm' <- LoadTest.get_smart_machine ;;
     LoadTest.rotate_with_retry w globals fuel sm' p) s
  = (Ret tt, rotated sm p n s).
Proof.
  revert s. induction n as [|n IH]; intros s Hsm Hl Hp; [reflexivity|].
  cbn [for_range rotated].
  erewrite bind_Ret.
  2:{ rewrite (bind_Ret _ _ _ _ _ (get_smart_machine_bound s sm Hsm)).
      apply rotate_with_retry_ok.
      - rewrite <- (Nat.add_0_r (n_lookup s)). apply Hl. lia.
      - rewrite <- (Nat.add_0_r (n_pulse s)). apply Hp. lia. }
  apply IH.
  - exact Hsm.
  - intros i Hi. cbn [rotated1 n_lookup].
    replace (S (n_lookup s) + i)%nat with (n_lookup s + S i)%nat by lia.
    apply Hl. lia.
  - intros i Hi. cbn [rotated1 n_pulse].
    replace (S (n_pulse s) + i)%nat with (n_pulse s + S i)%nat by lia.
    apply Hp. lia.
Qed.

Lemma rotated_counters (sm : Session) (p : Q) (n : nat) (s : state LoadTest.locals) :
  n_connect (rotated sm p n s) = n_connect s /\
  n_lookup (rotated sm p n s) = (n_lookup s + n)%nat /\
  n_pulse (rotated sm p n s) = (n_pulse s + n)%nat /\
  n_poll (rotated sm p n s) = n_poll s /\
  LoadTest.smart_machine (frame (rotated sm p n s)) = LoadTest.smart_machine (frame s) /\
  LoadTest.current_wheel_position (frame (rotated sm p n s))
  = LoadTest.current_wheel_position (frame s).
Proof.
  revert s. induction n as [|n IH]; intros s; cbn [rotated].
  - repeat split; lia.
  - destruct (IH (rotated1 sm p s)) as (A & B & C & D & E & F).
    cbn [rotated1 n_connect n_lookup n_pulse n_poll frame
         LoadTest.smart_machine LoadTest.current_wheel_position] in *.
    repeat split; try lia; assumption.
Qed.
End LoadTestRuns.

Lemma turn_stuck (w : world) (fuel : nat) (sm : Session) (s : state LoadTest.locals) :
  LoadTest.smart_machine (frame s) = Some sm ->
  randint_0_5 w (n_poll s) <> LoadTest.current_wheel_position (frame s) ->
  from_robot_ok w (n_lookup s) = true ->
  set_power_ok w (n_pulse s) = false ->
  exists s',
    LoadTest.turn w LoadTest.module_globals fuel s = (OutOfFuel, s') /\
    n_pulse s' = S (n_pulse s) /\ n_connect s' = n_connect s.
Proof.
  intros Hsm Hne Hl Hp. unfold LoadTest.turn.
  erewrite bind_Ret by (unfold LoadTest.randint; reflexivity).
  erewrite bind_Ret by (unfold get_frame; reflexivity).
  cbn [frame].
  destruct (Z.eqb_spec (LoadTest.current_wheel_position (frame s))
              (randint_0_5 w (n_poll s))) as [E|_]; [congruence|].
  cbn [negb].
  erewrite bind_Ret by (unfold print, emit; reflexivity).
  unfold LoadTest.plan.
  set (slices := LoadTest.current_wheel_position (frame s) - randint_0_5 w (n_poll s)).
  assert (Hcount : exists n, Z.to_nat (Z.abs slices * 2) = S n).
  { exists (Nat.pred (Z.to_nat (Z.abs slices * 2))). subst slices. lia. }
  destruct Hcount as [n ->]. cbn [for_range].
  eexists. split.
  - erewrite bind_OutOfFuel; [reflexivity|].
    erewrite bind_OutOfFuel; [reflexivity|].
    erewrite bind_Ret by (apply get_smart_machine_bound; exact Hsm).
    apply rotate_with_retry_stuck; assumption.
  - split; reflexivity.
Qed.

(** C3 fails on load_test.py.  The plan 0 -> 1 has two pulses; the first one
    fails while the robot could be reached again at once.  The reconnection
    loop of [rotate_with_retry] reads [args], which is not a name of its
    scope: the NameError is caught by the loop's own [except] and the loop
    starts over, for any fuel.  No connection is attempted, the call never
    returns, and the second pulse of the plan is never sent: 6 homing pulses
    and 1 pulse of the plan are all there is. *)
Theorem C3_failed_pulse_never_returns (fuel cycles : nat) :
  let run := LoadTest.main (world_one_bad_pulse 6 1) LoadTest.module_globals
               fuel (S cycles) (initial_state LoadTest.initial_locals) in
  snd (LoadTest.plan 0 1) = 2%nat /\
  fst run = OutOfFuel /\
  n_pulse (snd run) = 7%nat /\
  n_connect (snd run) = 1%nat.
Proof.
  intros run. split; [reflexivity|]. subst run.
  rewrite (main_connected _ _ _ _ 0%nat) by reflexivity.
  set (w := world_one_bad_pulse 6 1).
  rewrite (bind_Ret _ _ _ _ _
             (rotations_ok w LoadTest.module_globals fuel 0%nat (-1 # 12) 6
                (homing_state 0) eq_refl (fun _ _ => eq_refl)
                (fun i Hi => ltac:(do 6 (destruct i as [|i]; [reflexivity|]); lia)))).
  erewrite bind_Ret
    by (unfold LoadTest.set_current_wheel_position; unfold_machine; reflexivity).
  cbn [LoadTest.polling_loop].
  match goal with |- context [bind (LoadTest.turn w ?g fuel) ?k ?s0] =>
    destruct (turn_stuck w fuel 0%nat s0) as (s' & E & Hpulse & Hconnect);
      [reflexivity | cbn; discriminate | reflexivity | reflexivity | ]
  end.
  rewrite (bind_OutOfFuel _ _ _ _ E). cbn [fst snd].
  rewrite Hpulse, Hconnect. repeat split.
Qed.

(** The same run where [args] is a name of the module: the executor
    reconnects, returns, and the second pulse of the plan is sent. *)
Example bound_args_resume_the_plan :
  let run := LoadTest.main (world_one_bad_pulse 6 1) ("args" :: LoadTest.module_globals)
               1 1 (initial_state LoadTest.initial_locals) in
  fst run = Ret tt /\ n_pulse (snd run) = 8%nat /\ n_connect (snd run) = 2%nat /\
  LoadTest.smart_machine (frame (snd run)) = Some 0%nat /\
  pulses_of (trace (snd run)) =
    repeat (EvSetPower 0%nat (-1 # 12) true) 6
      ++ [EvSetPower 0%nat (1 # 12) false; EvSetPower 0%nat (1 # 12) true].
Proof. vm_compute. repeat split. Qed.

(** ** reader.py: a cycle whose pulse fails *)

Lemma stepped_keeps_session (r : Session) (d : Z) (j : nat) (c : Z) :
  Forall keeps_session (stepped r d c j).
Proof.
  revert c. induction j as [|j IH]; intros c; cbn [stepped]; repeat constructor.
  apply IH.
Qed.

Lemma poll_trace_keeps_session (reply : calendar_reply) :
  Forall keeps_session (poll_trace reply).
Proof.
  unfold poll_trace.
  destruct reply as [| |[|? ?] ? ?];
    repeat match goal with
           | |- context [if ?b then _ else _] => destruct b
           end;
    repeat constructor.
Qed.

Lemma pulses_of_poll_trace (reply : calendar_reply) : pulses_of (poll_trace reply) = [].
Proof.
  unfold poll_trace.
  destruct reply as [| |[|? ?] ? ?];
    repeat match goal with
           | |- context [if ?b then _ else _] => destruct b
           end;
    reflexivity.
Qed.

Lemma positions_of_poll_trace (reply : calendar_reply) :
  positions_of (poll_trace reply) = [].
Proof.
  unfold poll_trace.
  destruct reply as [| |[|? ?] ? ?];
    repeat match goal with
           | |- context [if ?b then _ else _] => destruct b
           end;
    reflexivity.
Qed.

Lemma reader_set_current_wheel_position_eq (p : Z) (s : state Reader.locals) :
  Reader.set_current_wheel_position p s =
  (Ret tt,
   mkState (n_connect s) (n_lookup s) (n_pulse s) (n_poll s)
     (trace s ++ [EvPosition p])
     (Reader.mkLocals (Reader.robot (frame s)) p
        (Reader.cw_current_wheel_position (frame s)))).
Proof. reflexivity. Qed.

Ltac project_state :=
  cbn [n_connect n_lookup n_pulse n_poll trace frame Reader.robot
       Reader.current_wheel_position Reader.cw_current_wheel_position
       LoadTest.smart_machine LoadTest.current_wheel_position
       LoadTest.rwr_smart_machine].

Section ReaderCycle.
Variable w : world.
Variables (r : Session) (s : state Reader.locals).
Hypothesis robot_bound : Reader.robot (frame s) = Some r.

Lemma ensure_robot_bound : Reader.ensure_robot w s = (Ret r, s).
Proof.
  unfold Reader.ensure_robot, bind, get_frame. now rewrite robot_bound.
Qed.

Hypothesis lookup_ok : from_robot_ok w (n_lookup s) = true.

Lemma cycle_pulse_failure (next : Z) (j : nat) :
  let c := Reader.current_wheel_position (frame s) in
  let d := fst (Reader.plan c next) in
  let n := snd (Reader.plan c next) in
  target_of (calendar w (n_poll s)) = Ret (Some next) ->
  (j < n)%nat ->
  (forall i, (i < j)%nat -> set_power_ok w (n_pulse s + i) = true) ->
  set_power_ok w (n_pulse s + j) = false ->
  Reader.cycle w s =
  (Ret tt,
   mkState (n_connect s) (S (n_lookup s)) (S (n_pulse s + j)) (S (n_poll s))
     (trace s ++ failed_cycle_trace (calendar w (n_poll s)) r d c j)
     (Reader.mkLocals (Some r) (c - d * Z.of_nat j) (c - d * Z.of_nat j))).
Proof.
  intros c d n Htarget Hj Hok Hfail.
  assert (Hne : (c =? next) = false).
  { apply Z.eqb_neq. intros ->. subst n. unfold Reader.plan in Hj.
    cbn [snd] in Hj. rewrite Z.sub_diag in Hj. simpl in Hj. lia. }
  unfold Reader.cycle, try_except.
  rewrite (bind_Ret _ _ _ _ _ ensure_robot_bound).
  erewrite bind_Ret by (unfold from_robot; rewrite lookup_ok; reflexivity).
  erewrite bind_Ret by (unfold get_frame; reflexivity).
  cbn [frame]. fold c.
  erewrite bind_Ret.
  2:{ rewrite control_wheel_polls. cbn [n_poll]. rewrite Htarget, Hne.
      fold d n. rewrite pulses_spec. unfold after_pulses.
      cbn [announced n_pulse].
      rewrite (successes_until (set_power_ok w) n (n_pulse s) j Hj Hok Hfail).
      destruct (Nat.eqb_spec j n) as [E|_]; [lia|].
      unfold wheel_return. cbn [is_Exception]. reflexivity. }
  cbv beta iota.
  rewrite (bind_Ret _ _ _ _ _ (reader_set_current_wheel_position_eq _ _)).
  unfold pulsed, announced. project_state.
  erewrite bind_Ret by reflexivity. project_state.
  unfold print, emit, failed_cycle_trace. project_state.
  rewrite robot_bound.
  repeat rewrite <- app_assoc. cbn [app]. reflexivity.
Qed.
End ReaderCycle.

(** C4, as the code has it.  When pulse [k] of a plan fails in reader.py,
    [control_wheel] hands the failure back to [main] with its estimate, which
    lies at most [k] steps from the old one towards the target.  [main]
    stores it and keeps its session: nothing is closed, no connection is
    attempted, the cycle ends normally and without the 15 s sleep.  The
    pulses after [k] are not sent, and the next cycle asks the calendar
    again. *)
Theorem C4_failure_keeps_session (w : world) (r : Session) (next : Z) (k : nat)
    (s : state Reader.locals) :
  let c := Reader.current_wheel_position (frame s) in
  let d := fst (Reader.plan c next) in
  let n := snd (Reader.plan c next) in
  Reader.robot (frame s) = Some r ->
  from_robot_ok w (n_lookup s) = true ->
  target_of (calendar w (n_poll s)) = Ret (Some next) ->
  (1 <= k <= n)%nat ->
  (forall i, (i < k - 1)%nat -> set_power_ok w (n_pulse s + i) = true) ->
  set_power_ok w (n_pulse s + (k - 1)) = false ->
  let run := Reader.cycle w s in
  fst run = Ret tt /\
  Reader.robot (frame (snd run)) = Some r /\
  n_connect (snd run) = n_connect s /\
  n_poll (snd run) = S (n_poll s) /\
  n_pulse (snd run) = (n_pulse s + k)%nat /\
  (exists j, (j <= k)%nat /\
     Reader.current_wheel_position (frame (snd run)) = c - d * Z.of_nat j) /\
  exists new,
    trace (snd run) = trace s ++ new /\
    Forall keeps_session new /\
    pulses_of new =
      repeat (EvSetPower r (pulse_power (1 # 6) d) true) (k - 1)
        ++ [EvSetPower r (pulse_power (1 # 6) d) false].
Proof.
  intros c d n Hrobot Hlookup Htarget Hk Hok Hfail run. subst run.
  rewrite (cycle_pulse_failure w r s Hrobot Hlookup next (k - 1) Htarget)
    by (fold c n; auto; lia).
  fold c d. cbn [fst snd n_connect n_poll n_pulse trace frame
                 Reader.robot Reader.current_wheel_position].
  repeat split; try lia.
  - exists (k - 1)%nat. split; [lia | reflexivity].
  - eexists. split; [reflexivity|]. split.
    + unfold failed_cycle_trace.
      repeat first [ apply poll_trace_keeps_session
                   | apply stepped_keeps_session
                   | apply Forall_app; split ];
        repeat constructor.
    + unfold failed_cycle_trace.
      rewrite !pulses_of_app, pulses_of_poll_trace, pulses_of_stepped.
      reflexivity.
Qed.

Lemma C4_failure_keeps_session_witness :
  fst (Reader.cycle (world_focus_time 7) reader_homed) = Ret tt /\
  Reader.robot (frame (snd (Reader.cycle (world_focus_time 7) reader_homed)))
  = Some 0%nat.
Proof.
  destruct (C4_failure_keeps_session (world_focus_time 7) 0%nat 3 2 reader_homed)
    as (Hret & Hrobot & _).
  - reflexivity.
  - reflexivity.
  - reflexivity.
  - simpl. lia.
  - intros i Hi. destruct i as [|i]; [reflexivity | simpl in Hi; lia].
  - reflexivity.
  - split; assumption.
Defined.

(** ** The estimate while the pulses of a plan are sent *)

Lemma for_range_app {L} (a b : nat) (body : M L unit) (s : state L) :
  for_range (a + b) body s = (for_range a body ;; for_range b body) s.
Proof.
  revert s. induction a as [|a IH]; intros s; [reflexivity|].
  cbn [Nat.add for_range]. unfold bind.
  destruct (body s) as [[[]|e|] s1]; try reflexivity.
  rewrite IH. reflexivity.
Qed.

Lemma same_estimate_refl (s : state LoadTest.locals) : same_estimate s s.
Proof. split; reflexivity. Qed.

Lemma same_estimate_trans (s0 s s' : state LoadTest.locals) :
  same_estimate s0 s -> same_estimate s s' -> same_estimate s0 s'.
Proof. intros [A B] [C D]. split; congruence. Qed.

Lemma keeps_same_estimate {A} (m : M LoadTest.locals A) (s0 : state LoadTest.locals) :
  (forall s, same_estimate s (snd (m s))) ->
  keeps (same_estimate s0) (fun _ => True) m.
Proof.
  intros H s Hs. split; [|trivial]. eapply same_estimate_trans; [exact Hs | apply H].
Qed.

Section LoadTestEstimate.
Variable w : world.
Variable globals : list string.
Variable s0 : state LoadTest.locals.

Ltac estimate_step :=
  apply keeps_same_estimate; intros s; unfold_machine;
  repeat match goal with
         | |- context [if ?b then _ else _] => destruct b
         | |- context [match ?o with Some _ => _ | None => _ end] => destruct o
         end;
  split; cbn; try rewrite positions_of_app; cbn;
  try rewrite app_nil_r; reflexivity.

Lemma keeps_estimate_print (msg : string) :
  keeps (same_estimate s0) (fun _ : unit => True) (print msg).
Proof. estimate_step. Qed.

Lemma keeps_estimate_load_global (name : string) :
  keeps (same_estimate s0) (fun _ => True) (LoadTest.load_global globals name).
Proof. unfold LoadTest.load_global. estimate_step. Qed.

Lemma keeps_estimate_connect :
  keeps (same_estimate s0) (fun _ => True) (LoadTest.connect w).
Proof. unfold LoadTest.connect. estimate_step. Qed.

Lemma keeps_estimate_set_rwr (sm : Session) :
  keeps (same_estimate s0) (fun _ => True) (LoadTest.set_rwr_smart_machine sm).
Proof. unfold LoadTest.set_rwr_smart_machine. estimate_step. Qed.

Lemma keeps_estimate_get_rwr :
  keeps (same_estimate s0) (fun _ => True) LoadTest.get_rwr_smart_machine.
Proof. unfold LoadTest.get_rwr_smart_machine. estimate_step. Qed.

Lemma keeps_estimate_get_smart_machine :
  keeps (same_estimate s0) (fun _ => True) LoadTest.get_smart_machine.
Proof. unfold LoadTest.get_smart_machine. estimate_step. Qed.

Lemma keeps_estimate_from_robot (sm : Session) :
  keeps (same_estimate s0) (fun _ => True) (@from_robot LoadTest.locals w sm).
Proof. estimate_step. Qed.

Lemma keeps_estimate_set_power (m : Motor) (p : Q) :
  keeps (same_estimate s0) (fun _ => True) (@set_power LoadTest.locals w m p).
Proof. destruct m. estimate_step. Qed.

Lemma keeps_estimate_reconnect_loop (fuel : nat) :
  keeps (same_estimate s0) (fun _ => True) (LoadTest.reconnect_loop w globals fuel).
Proof.
  induction fuel as [|fuel IH]; cbn [LoadTest.reconnect_loop].
  - apply keeps_out_of_fuel.
  - apply keeps_try_except.
    + eapply keeps_bind; [apply keeps_estimate_load_global|]. intros _ _.
      eapply keeps_bind; [apply keeps_estimate_connect|]. intros sm _.
      apply keeps_estimate_set_rwr.
    + intros e. eapply keeps_bind; [apply keeps_estimate_print|]. intros _ _.
      exact IH.
Qed.

Lemma keeps_estimate_rotate (fuel : nat) (sm : Session) (p : Q) :
  keeps (same_estimate s0) (fun _ => True)
    (LoadTest.rotate_with_retry w globals fuel sm p).
Proof.
  unfold LoadTest.rotate_with_retry.
  eapply keeps_bind; [apply keeps_estimate_set_rwr|]. intros _ _.
  apply keeps_try_except.
  - eapply keeps_bind; [apply keeps_estimate_get_rwr|]. intros sm' _.
    eapply keeps_bind; [apply keeps_estimate_from_robot|]. intros m _.
    apply keeps_estimate_set_power.
  - intros e. eapply keeps_bind; [apply keeps_estimate_print|]. intros _ _.
    apply keeps_estimate_reconnect_loop.
Qed.

Lemma keeps_estimate_rotations (fuel : nat) (p : Q) (n : nat) :
  keeps (same_estimate s0) (fun _ => True)
    (for_range n
       (sm <- LoadTest.get_smart_machine ;;
        LoadTest.rotate_with_retry w globals fuel sm p)).
Proof.
  apply keeps_for_range.
  eapply keeps_bind; [apply keeps_estimate_get_smart_machine|]. intros sm _.
  apply keeps_estimate_rotate.
Qed.
End LoadTestEstimate.

Lemma pulses_prefix (w : world) (robot : Session) (direction : Z) (n j : nat)
    (s : state Reader.locals) :
  (j <= n)%nat ->
  (forall i, (i < j)%nat -> set_power_ok w (n_pulse s + i) = true) ->
  for_range n (Reader.pulse w (MotorOf robot) direction) s
  = for_range (n - j) (Reader.pulse w (MotorOf robot) direction)
      (pulsed robot direction j s).
Proof.
  intros Hj Hok. replace n with (j + (n - j))%nat at 1 by lia.
  rewrite for_range_app. erewrite bind_Ret; [reflexivity|].
  rewrite pulses_spec. unfold after_pulses.
  rewrite (successes_all _ _ _ Hok), Nat.eqb_refl. reflexivity.
Qed.

Lemma turn_estimate (w : world) (globals : list string) (fuel : nat)
    (s : state LoadTest.locals) :
  let run := LoadTest.turn w globals fuel s in
  (fst run = Ret tt ->
   LoadTest.current_wheel_position (frame (snd run)) = randint_0_5 w (n_poll s)) /\
  (fst run <> Ret tt ->
   LoadTest.current_wheel_position (frame (snd run))
   = LoadTest.current_wheel_position (frame s)).
Proof.
  intros run. subst run. unfold LoadTest.turn.
  erewrite bind_Ret by (unfold LoadTest.randint; reflexivity).
  erewrite bind_Ret by (unfold get_frame; reflexivity).
  cbn [frame].
  destruct (Z.eqb_spec (LoadTest.current_wheel_position (frame s))
              (randint_0_5 w (n_poll s))) as [E|E]; cbn [negb].
  - unfold ret. cbn. split; [intros _; exact E | intros H; now destruct H].
  - erewrite bind_Ret by (unfold print, emit; reflexivity).
    destruct (LoadTest.plan _ _) as [direction count].
    match goal with |- context [bind (for_range count ?b) ?k ?s1] =>
      destruct (keeps_estimate_rotations w globals s1 fuel
                  (pulse_power (-1 # 12) direction) count s1
                  (same_estimate_refl s1)) as [[Hcur _] _];
      destruct (for_range count b s1) as [[[]|e|] s2] eqn:Efor
    end; cbn [snd fst frame LoadTest.current_wheel_position] in Hcur.
    + rewrite (bind_Ret _ _ _ _ _ Efor).
      unfold LoadTest.set_current_wheel_position. unfold_machine. cbn.
      split; [reflexivity | intros H; now destruct H].
    + rewrite (bind_Raise _ _ _ _ _ Efor). cbn [fst snd].
      split; [discriminate | intros _; exact Hcur].
    + rewrite (bind_OutOfFuel _ _ _ _ Efor). cbn [fst snd].
      split; [discriminate | intros _; exact Hcur].
Qed.

(** C2, as the code has it.  In reader.py the one-station update follows
    each pulse whose call returned: after [j] successful pulses of a plan the
    loop goes on from an estimate moved by [j] stations, [j] assignments
    having been made.  In load_test.py no update is made per pulse: the
    estimate is the same before and after any number of pulse attempts,
    whatever their outcome, and a pass of the loop that completes leaves it
    equal to the target, assigned once. *)
Theorem C2_update_per_pulse (w : world) :
  (forall (robot : Session) (direction : Z) (n j : nat) (s : state Reader.locals),
     (j <= n)%nat ->
     (forall i, (i < j)%nat -> set_power_ok w (n_pulse s + i) = true) ->
     let s_j := pulsed robot direction j s in
     let c := Reader.cw_current_wheel_position (frame s) in
     for_range n (Reader.pulse w (MotorOf robot) direction) s
     = for_range (n - j) (Reader.pulse w (MotorOf robot) direction) s_j /\
     n_pulse s_j = (n_pulse s + j)%nat /\
     Reader.cw_current_wheel_position (frame s_j) = c - direction * Z.of_nat j /\
     positions_of (trace s_j)
     = positions_of (trace s) ++ map (fun i => c - direction * Z.of_nat i) (seq 1 j))
  /\
  (forall (globals : list string) (fuel : nat) (p : Q) (n : nat)
          (s : state LoadTest.locals),
     let after :=
       snd (for_range n
              (sm <- LoadTest.get_smart_machine ;;
               LoadTest.rotate_with_retry w globals fuel sm p) s) in
     LoadTest.current_wheel_position (frame after)
     = LoadTest.current_wheel_position (frame s) /\
     positions_of (trace after) = positions_of (trace s))
  /\
  (forall (globals : list string) (fuel : nat) (s : state LoadTest.locals),
     let run := LoadTest.turn w globals fuel s in
     (fst run = Ret tt ->
      LoadTest.current_wheel_position (frame (snd run)) = randint_0_5 w (n_poll s)) /\
     (fst run <> Ret tt ->
      LoadTest.current_wheel_position (frame (snd run))
      = LoadTest.current_wheel_position (frame s))).
Proof.
  split; [|split].
  - intros robot direction n j s Hj Hok s_j c. subst s_j c.
    split; [now apply pulses_prefix|].
    unfold pulsed. cbn [n_pulse frame trace Reader.cw_current_wheel_position].
    repeat split. now rewrite positions_of_app, positions_of_stepped.
  - intros globals fuel p n s after. subst after.
    destruct (keeps_estimate_rotations w globals s fuel p n s (same_estimate_refl s))
      as [Hsame _].
    exact Hsame.
  - intros globals fuel s. apply turn_estimate.
Qed.

Lemma C2_update_per_pulse_witness :
  for_range 3 (Reader.pulse (world_focus_time 8) (MotorOf 0%nat) (-1)) reader_homed
  = for_range 1 (Reader.pulse (world_focus_time 8) (MotorOf 0%nat) (-1))
      (pulsed 0%nat (-1) 2 reader_homed) /\
  Reader.cw_current_wheel_position (frame (pulsed 0%nat (-1) 2 reader_homed)) = 2.
Proof.
  destruct (proj1 (C2_update_per_pulse (world_focus_time 8))
              0%nat (-1) 3%nat 2%nat reader_homed)
    as (Hloop & _ & Hc & _).
  - lia.
  - intros i Hi. destruct i as [|[|i]]; [reflexivity | reflexivity | lia].
  - split; [exact Hloop | exact Hc].
Defined.

Lemma grown_quietly_step (sm : Session) (p : Q) (tr0 tr : list event) (e : event) :
  grown_quietly sm p tr0 tr -> is_position e = false -> is_pulse e = false ->
  grown_quietly sm p tr0 (tr ++ [e]).
Proof.
  intros (new & -> & Hnew & Hp) He He'. exists (new ++ [e]). repeat split.
  - now rewrite app_assoc.
  - rewrite positions_of_app, Hnew. destruct e; try reflexivity; discriminate.
  - rewrite pulses_of_app. unfold pulses_of at 2. cbn [filter]. rewrite He'.
    now rewrite app_nil_r.
Qed.

Lemma grown_quietly_pulse (sm : Session) (p : Q) (tr0 tr : list event) (ok : bool) :
  grown_quietly sm p tr0 tr -> grown_quietly sm p tr0 (tr ++ [EvSetPower sm p ok]).
Proof.
  intros (new & -> & Hnew & Hp). exists (new ++ [EvSetPower sm p ok]). repeat split.
  - now rewrite app_assoc.
  - rewrite positions_of_app, Hnew. reflexivity.
  - rewrite pulses_of_app. apply Forall_app. split; [exact Hp|].
    constructor; [now exists ok | constructor].
Qed.

Lemma trace_rotated (sm : Session) (p : Q) (n : nat) (s : state LoadTest.locals) :
  trace (rotated sm p n s)
  = trace s ++ List.concat (repeat [EvFromRobot sm true; EvSetPower sm p true] n).
Proof.
  revert s. induction n as [|n IH]; intros s; cbn [rotated repeat List.concat].
  - now rewrite app_nil_r.
  - rewrite IH. cbn [rotated1 trace]. now rewrite <- app_assoc.
Qed.

Lemma pulses_of_rotations (sm : Session) (p : Q) (n : nat) :
  pulses_of (List.concat (repeat [EvFromRobot sm true; EvSetPower sm p true] n))
  = repeat (EvSetPower sm p true) n.
Proof.
  induction n as [|n IH]; [reflexivity|].
  cbn [repeat List.concat]. rewrite pulses_of_app, IH. reflexivity.
Qed.

Lemma positions_of_rotations (sm : Session) (p : Q) (n : nat) :
  positions_of (List.concat (repeat [EvFromRobot sm true; EvSetPower sm p true] n)) = [].
Proof.
  induction n as [|n IH]; [reflexivity|].
  cbn [repeat List.concat]. rewrite positions_of_app, IH. reflexivity.
Qed.

Lemma rotated_rwr (sm : Session) (p : Q) (n : nat) (s : state LoadTest.locals) :
  (0 < n)%nat ->
  LoadTest.rwr_smart_machine (frame (rotated sm p n s)) = Some sm.
Proof.
  revert s. induction n as [|n IH]; intros s Hn; [lia|].
  cbn [rotated]. destruct n as [|n]; [reflexivity|]. apply IH. lia.
Qed.

Section LoadTestTurn.
Variable w : world.
Variable globals : list string.
Variables (fuel : nat) (sm : Session) (s : state LoadTest.locals).
Hypothesis session_bound : LoadTest.smart_machine (frame s) = Some sm.

Lemma turn_positions :
  let run := LoadTest.turn w globals fuel s in
  let d := fst (LoadTest.plan (LoadTest.current_wheel_position (frame s))
                  (randint_0_5 w (n_poll s))) in
  exists new,
    trace (snd run) = trace s ++ new /\
    Forall (fun e => exists ok, e = EvSetPower sm (pulse_power (-1 # 12) d) ok)
           (pulses_of new) /\
    (positions_of new = [] \/
     (fst run = Ret tt /\
      exists before,
        new = before ++ [EvPosition (randint_0_5 w (n_poll s))] /\
        positions_of before = [])).
Proof.
  intros run d. subst run d. unfold LoadTest.turn.
  erewrite bind_Ret by (unfold LoadTest.randint; reflexivity).
  erewrite bind_Ret by (unfold get_frame; reflexivity).
  cbn [frame].
  destruct (LoadTest.current_wheel_position (frame s) =? randint_0_5 w (n_poll s));
    cbn [negb].
  - exists [EvPoll]. repeat split; [constructor | left; reflexivity].
  - erewrite bind_Ret by (unfold print, emit; reflexivity).
    destruct (LoadTest.plan _ _) as [direction count]. cbn [fst].
    set (p := pulse_power (-1 # 12) direction).
    match goal with |- context [bind (for_range count ?b) ?k ?s1] =>
      destruct (for_range_inv
                  (lt_inv (grown_quietly sm p (trace s)) (fun _ => True) sm) b) with
        (n := count) (s := s1) as [(Ht & Hsm & _) Hq];
      [ intros s2 Hs2;
        apply (call_rotate_inv w globals sm (grown_quietly sm p (trace s))
                 (fun _ => True) (fun q => q = p));
        auto;
        try (intros; apply grown_quietly_step; auto; fail);
        intros tr q ok -> Htr; now apply grown_quietly_pulse
      | split; [|split; [exact session_bound | exact Logic.I]];
        exists [EvPoll; EvPrint "turning wheel from"]; repeat split;
        [cbn; now rewrite <- app_assoc | constructor]
      | destruct (for_range count b s1) as [[[]|e|] s2] eqn:Efor ]
    end; cbn [fst snd] in Ht, Hq; try contradiction.
    + rewrite (bind_Ret _ _ _ _ _ Efor).
      unfold LoadTest.set_current_wheel_position. unfold_machine. cbn.
      destruct Ht as (new & -> & Hnew & Hpulses).
      exists (new ++ [EvPosition (randint_0_5 w (n_poll s))]). repeat split.
      * now rewrite app_assoc.
      * rewrite pulses_of_app. now rewrite app_nil_r.
      * right. split; [reflexivity|]. exists new. split; [reflexivity | exact Hnew].
    + rewrite (bind_OutOfFuel _ _ _ _ Efor). cbn [fst snd].
      destruct Ht as (new & -> & Hnew & Hpulses). exists new.
      repeat split; [exact Hpulses | now left].
Qed.

Lemma turn_all_pulses :
  let c := LoadTest.current_wheel_position (frame s) in
  let target := randint_0_5 w (n_poll s) in
  let d := fst (LoadTest.plan c target) in
  let count := snd (LoadTest.plan c target) in
  c <> target ->
  (forall i, (i < count)%nat -> from_robot_ok w (n_lookup s + i) = true) ->
  (forall i, (i < count)%nat -> set_power_ok w (n_pulse s + i) = true) ->
  LoadTest.turn w globals fuel s =
  (Ret tt,
   mkState (n_connect s) (n_lookup s + count) (n_pulse s + count) (S (n_poll s))
     (trace s ++ [EvPoll; EvPrint "turning wheel from"]
        ++ List.concat (repeat [EvFromRobot sm true;
                           EvSetPower sm (pulse_power (-1 # 12) d) true] count)
        ++ [EvPosition target])
     (LoadTest.mkLocals (Some sm) target (Some sm))).
Proof.
  intros c target d count Hne Hl Hp. unfold LoadTest.turn.
  erewrite bind_Ret by (unfold LoadTest.randint; reflexivity).
  erewrite bind_Ret by (unfold get_frame; reflexivity).
  cbn [frame]. fold c target.
  destruct (Z.eqb_spec c target) as [E|_]; [contradiction|]. cbn [negb].
  erewrite bind_Ret by (unfold print, emit; reflexivity).
  assert (Hcount : (0 < count)%nat).
  { subst count. unfold LoadTest.plan. cbn [snd]. lia. }
  subst d count. destruct (LoadTest.plan c target) as [d count]. cbn [fst snd] in *.
  erewrite bind_Ret by (apply rotations_ok with (sm := sm); assumption).
  unfold LoadTest.set_current_wheel_position.
  erewrite bind_Ret by (unfold get_frame; reflexivity).
  erewrite bind_Ret by (unfold put_frame; reflexivity).
  unfold emit. project_state.
  set (s1 := mkState (n_connect s) (n_lookup s) (n_pulse s) (S (n_poll s))
               ((trace s ++ [EvPoll]) ++ [EvPrint "turning wheel from"]) (frame s)).
  destruct (rotated_counters sm (pulse_power (-1 # 12) d) count s1)
    as (A & B & C & D & E & F).
  rewrite A, B, C, D, E, trace_rotated, (rotated_rwr _ _ _ _ Hcount).
  subst s1. project_state.
  rewrite session_bound.
  repeat rewrite <- app_assoc. cbn [app]. reflexivity.
Qed.
End LoadTestTurn.

Lemma control_wheel_steps (w : world) (robot : Session) (current next : Z)
    (s : state Reader.locals) :
  target_of (calendar w (n_poll s)) = Ret (Some next) ->
  let run := Reader.control_wheel w (MotorOf robot) current s in
  let d := Z.sgn (current - next) in
  let n := Z.to_nat (Z.abs (current - next)) in
  exists j new,
    (j <= n)%nat /\
    trace (snd run) = trace s ++ new /\
    positions_of new = map (fun i => current - d * Z.of_nat i) (seq 1 j) /\
    Forall (fun e => exists ok, e = EvSetPower robot (pulse_power (1 # 6) d) ok)
           (pulses_of new) /\
    (exists ex, fst run = Ret (current - d * Z.of_nat j, ex)) /\
    ((forall i, (i < n)%nat -> set_power_ok w (n_pulse s + i) = true) ->
     j = n /\ fst run = Ret (next, None)).
Proof.
  intros Htarget run d n. subst run.
  rewrite control_wheel_polls, Htarget.
  destruct (Z.eqb_spec current next) as [E|E].
  - exists 0%nat, (poll_trace (calendar w (n_poll s))).
    subst d n. subst next. rewrite Z.sub_diag. cbn [Z.sgn Z.abs Z.to_nat fst snd].
    repeat split; try lia; try reflexivity.
    + now rewrite positions_of_poll_trace.
    + rewrite pulses_of_poll_trace. constructor.
    + exists None. do 2 f_equal. lia.
  - unfold Reader.plan. cbn [fst snd]. rewrite copysign_sgn by lia. fold d n.
    rewrite pulses_spec. unfold after_pulses. cbn [announced n_pulse].
    set (j := successes (set_power_ok w) (n_pulse s) n).
    assert (Hj : (j <= n)%nat) by apply successes_le.
    assert (Hend : current - d * Z.of_nat n = next).
    { subst d n. destruct (Z.lt_trichotomy current next) as [H|[H|H]].
      - rewrite Z.sgn_neg by lia. lia.
      - contradiction.
      - rewrite Z.sgn_pos by lia. lia. }
    destruct (Nat.eqb_spec j n) as [Ejn|Ejn]; unfold wheel_return, pulsed, announced;
      cbn [is_Exception fst snd trace frame Reader.cw_current_wheel_position].
    + exists j. eexists. split; [exact Hj|]. split.
      { rewrite <- app_assoc. reflexivity. }
      rewrite !positions_of_app, positions_of_poll_trace, positions_of_stepped.
      rewrite !pulses_of_app, pulses_of_poll_trace, pulses_of_stepped.
      cbn [app positions_of pulses_of filter is_pulse].
      repeat split.
      * apply Forall_forall. intros e He. apply repeat_spec in He. subst e. now exists true.
      * now exists None.
      * exact Ejn.
      * rewrite Ejn, Hend. reflexivity.
    + exists j. eexists. split; [exact Hj|]. split.
      { rewrite <- !app_assoc. reflexivity. }
      rewrite !positions_of_app, positions_of_poll_trace, positions_of_stepped.
      rewrite !pulses_of_app, pulses_of_poll_trace, pulses_of_stepped.
      cbn [app positions_of pulses_of filter is_pulse]. rewrite app_nil_r.
      repeat split.
      * apply Forall_app. split.
        -- apply Forall_forall. intros e He. apply repeat_spec in He. subst e.
           now exists true.
        -- constructor; [now exists false | constructor].
      * now exists (Some MotorError).
      * subst j. now apply successes_all.
      * exfalso. apply Ejn. subst j. now apply successes_all.
Qed.

(** C8, as the code has it.  In reader.py the estimate moves with the
    pulses: the values assigned during a plan are current - d, current - 2d,
    ..., one station at a time towards the target (d the sign of current -
    target), every pulse carries the same power, and with all pulses
    answered the last value is the target.  In load_test.py the pulses of a
    plan carry the same power too, but the estimate is not touched while they
    are sent: it is assigned once, after the last pulse, and to the target
    itself. *)
Theorem C8_positions_step (w : world) :
  (forall (robot : Session) (current next : Z) (s : state Reader.locals),
     target_of (calendar w (n_poll s)) = Ret (Some next) ->
     let run := Reader.control_wheel w (MotorOf robot) current s in
     let d := Z.sgn (current - next) in
     let n := Z.to_nat (Z.abs (current - next)) in
     exists j new,
       (j <= n)%nat /\
       trace (snd run) = trace s ++ new /\
       positions_of new = map (fun i => current - d * Z.of_nat i) (seq 1 j) /\
       Forall (fun e => exists ok, e = EvSetPower robot (pulse_power (1 # 6) d) ok)
              (pulses_of new) /\
       (exists ex, fst run = Ret (current - d * Z.of_nat j, ex)) /\
       ((forall i, (i < n)%nat -> set_power_ok w (n_pulse s + i) = true) ->
        j = n /\ fst run = Ret (next, None)))
  /\
  (forall (globals : list string) (fuel : nat) (sm : Session)
          (s : state LoadTest.locals),
     LoadTest.smart_machine (frame s) = Some sm ->
     let run := LoadTest.turn w globals fuel s in
     let c := LoadTest.current_wheel_position (frame s) in
     let target := randint_0_5 w (n_poll s) in
     let d := fst (LoadTest.plan c target) in
     let count := snd (LoadTest.plan c target) in
     (exists new,
        trace (snd run) = trace s ++ new /\
        Forall (fun e => exists ok, e = EvSetPower sm (pulse_power (-1 # 12) d) ok)
               (pulses_of new) /\
        (positions_of new = [] \/
         (fst run = Ret tt /\
          exists before,
            new = before ++ [EvPosition target] /\ positions_of before = []))) /\
     (c <> target ->
      (forall i, (i < count)%nat -> from_robot_ok w (n_lookup s + i) = true) ->
      (forall i, (i < count)%nat -> set_power_ok w (n_pulse s + i) = true) ->
      fst run = Ret tt /\
      exists new,
        trace (snd run) = trace s ++ new /\
        pulses_of new = repeat (EvSetPower sm (pulse_power (-1 # 12) d) true) count /\
        positions_of new = [target])).
Proof.
  split.
  - intros robot current next s Htarget. now apply control_wheel_steps.
  - intros globals fuel sm s Hsm run c target d count. subst run. split.
    + now apply turn_positions with (sm := sm).
    + intros Hne Hl Hp.
      rewrite (turn_all_pulses w globals fuel sm s Hsm Hne Hl Hp).
      fold c target d count. cbn [fst snd trace]. split; [reflexivity|].
      eexists. split; [reflexivity|].
      rewrite !pulses_of_app, !positions_of_app.
      rewrite pulses_of_rotations, positions_of_rotations.
      split; [now rewrite app_nil_r | reflexivity].
Qed.

Lemma C8_positions_step_witness :
  (exists j new,
     trace (snd (Reader.control_wheel (world_focus_time 99) (MotorOf 0%nat) 0 reader_homed))
     = trace reader_homed ++ new /\
     positions_of new = map (fun i => 0 - Z.sgn (0 - 3) * Z.of_nat i) (seq 1 j) /\
     j = 3%nat) /\
  fst (LoadTest.turn (world_of_targets (fun _ => 5)) LoadTest.module_globals 0
         load_test_homed) = Ret tt.
Proof.
  split.
  - destruct (proj1 (C8_positions_step (world_focus_time 99)) 0%nat 0 3 reader_homed
                eq_refl)
      as (j & new & _ & Htrace & Hpos & _ & _ & Hall).
    exists j, new. repeat split; try assumption.
    apply Hall. intros i Hi. simpl in Hi.
    do 3 (destruct i as [|i]; [reflexivity|]). lia.
  - destruct (proj2 (C8_positions_step (world_of_targets (fun _ => 5)))
                LoadTest.module_globals 0%nat 0%nat load_test_homed eq_refl)
      as (_ & Hall).
    apply Hall.
    + discriminate.
    + intros i Hi. reflexivity.
    + intros i Hi. reflexivity.
Defined.

(** C8 as stated fails on load_test.py: homed at 0 and sent to 5, the run
    assigns 0 and then 5, a jump of five stations. *)
Lemma C8_counterexample :
  ~ steps_by_one
      (positions_of
         (trace (snd (LoadTest.main (world_of_targets (fun _ => 5))
                        LoadTest.module_globals 0 1
                        (initial_state LoadTest.initial_locals))))).
Proof.
  replace (positions_of _) with [0; 5] by (vm_compute; reflexivity).
  simpl. intros [H _]. lia.
Qed.

(** C2 as stated fails in both scripts.  reader.py: from 0 towards 3, the
    first pulse fails and [control_wheel] answers the estimate 0, not the 1
    that one update gives.  load_test.py: from 0 towards 2, the first pulse
    succeeds and the estimate of [main] is still 0. *)
Lemma C2_counterexample :
  (exists position ex,
     fst (Reader.control_wheel (world_focus_time 6) (MotorOf 0%nat) 0 reader_homed)
     = Ret (position, Some ex) /\
     ~ reflects_updates 0 (fst (Reader.plan 0 3)) 1 position) /\
  (let after :=
     snd (for_range 1
            (sm <- LoadTest.get_smart_machine ;;
             LoadTest.rotate_with_retry (world_of_targets (fun _ => 2))
               LoadTest.module_globals 0 sm
               (pulse_power (-1 # 12) (fst (LoadTest.plan 0 2))))
            load_test_homed) in
   n_pulse after = 7%nat /\
   ~ reflects_updates 0 (fst (LoadTest.plan 0 2)) 1
       (LoadTest.current_wheel_position (frame after))).
Proof.
  split.
  - exists 0, MotorError. split; [reflexivity|].
    unfold reflects_updates. simpl. lia.
  - split; [reflexivity|]. unfold reflects_updates. simpl. lia.
Qed.

(** C4 as stated fails on reader.py: the second pulse of the plan 0 -> 3
    fails; after the cycle [main] still holds session 0, nothing was closed,
    the estimate is 1 and not the 2 of two updates, and the next cycle makes
    no connection attempt either. *)
Lemma C4_counterexample :
  let w := world_focus_time 7 in
  let after := snd (Reader.cycle w reader_homed) in
  let later := snd (Reader.cycle w after) in
  n_pulse after = 8%nat /\
  Reader.robot (frame after) <> None /\
  ~ In (EvClose 0%nat) (trace after) /\
  ~ reflects_updates 0 (fst (Reader.plan 0 3)) 2
      (Reader.current_wheel_position (frame after)) /\
  n_connect later = n_connect reader_homed.
Proof.
  vm_compute. repeat split; try discriminate.
  - intros H. repeat (destruct H as [H|H]; [discriminate|]). exact H.
Qed.

Lemma C7_initial_connect_witness :
  fst (LoadTest.main world_never_connects LoadTest.module_globals 1 1
         (initial_state LoadTest.initial_locals)) = Raise SystemExit /\
  quiet (fst (LoadTest.main world_connects_at_tenth LoadTest.module_globals 1 1
                (initial_state LoadTest.initial_locals))).
Proof.
  split.
  - apply (proj1 (C7_initial_connect world_never_connects LoadTest.module_globals 1 1)).
    intros k Hk. reflexivity.
  - apply (proj2 (C7_initial_connect world_connects_at_tenth LoadTest.module_globals 1 1)).
    exists 9%nat. split; [lia | reflexivity].
Defined.

Lemma C9_position_in_range_witness :
  in_range
    (LoadTest.current_wheel_position
       (frame (snd (LoadTest.main (world_of_targets (fun _ => 5))
                      LoadTest.module_globals 1 2
                      (initial_state LoadTest.initial_locals))))) /\
  in_range
    (Reader.current_wheel_position
       (frame (snd (Reader.main (world_of_targets (fun _ => 5)) 1 2
                      (initial_state Reader.initial_locals))))).
Proof.
  destruct (C9_position_in_range (world_of_targets (fun _ => 5))
              LoadTest.module_globals 1 2) as ((Hl & _) & (Hr & _)).
  - intros k. unfold in_range. simpl. lia.
  - split; assumption.
Defined.

(** With [args] bound in the module, the reconnection of [rotate_with_retry]
    does return a new session, number 1; it ends in the local
    [smart_machine] of [rotate_with_retry], while [main] keeps session 0 and
    sends the next pulse to it. *)
Example rebinding_stays_local :
  let run := LoadTest.main (world_one_bad_pulse 6 1) ("args" :: LoadTest.module_globals)
               1 2 (initial_state LoadTest.initial_locals) in
  let after_failure :=
    snd (LoadTest.rotate_with_retry (world_one_bad_pulse 6 1)
           ("args" :: LoadTest.module_globals) 1 0%nat (1 # 12) load_test_homed) in
  LoadTest.rwr_smart_machine (frame after_failure) = Some 1%nat /\
  LoadTest.smart_machine (frame after_failure) = Some 0%nat /\
  pulses_of (trace (snd run)) =
    repeat (EvSetPower 0%nat (-1 # 12) true) 6
      ++ [EvSetPower 0%nat (1 # 12) false; EvSetPower 0%nat (1 # 12) true].
Proof. vm_compute. repeat split. Qed.

(** ** The movement plan and the pulses that carry it out *)

Lemma reconnect_loop_pulses (w : world) (globals : list string) (fuel : nat)
    (s : state LoadTest.locals) :
  n_pulse (snd (LoadTest.reconnect_loop w globals fuel s)) = n_pulse s.
Proof.
  revert s. induction fuel as [|fuel IH]; intros s; [reflexivity|].
  cbn [LoadTest.reconnect_loop].
  unfold LoadTest.load_global, LoadTest.connect, LoadTest.set_rwr_smart_machine.
  destruct (existsb (String.eqb "args") globals); unfold_machine; simpl.
  - destruct (at_address_ok w (n_connect s)); simpl.
    + reflexivity.
    + now rewrite IH.
  - now rewrite IH.
Qed.

Lemma rotate_with_retry_pulses (w : world) (globals : list string) (fuel : nat)
    (sm : Session) (p : Q) (s : state LoadTest.locals) :
  (n_pulse (snd (LoadTest.rotate_with_retry w globals fuel sm p s))
   <= S (n_pulse s))%nat.
Proof.
  unfold LoadTest.rotate_with_retry, LoadTest.set_rwr_smart_machine,
    LoadTest.get_rwr_smart_machine.
  unfold_machine; simpl.
  destruct (from_robot_ok w (n_lookup s)); simpl.
  - destruct (set_power_ok w (n_pulse s)); simpl.
    + lia.
    + rewrite reconnect_loop_pulses. simpl. lia.
  - rewrite reconnect_loop_pulses. simpl. lia.
Qed.

Lemma rotations_pulses (w : world) (globals : list string) (fuel : nat) (p : Q)
    (n : nat) (s : state LoadTest.locals) :
  (n_pulse (snd (for_range n
                   (sm <- LoadTest.get_smart_machine ;;
                    LoadTest.rotate_with_retry w globals fuel sm p) s))
   <= n_pulse s + n)%nat.
Proof.
  revert s. induction n as [|n IH]; intros s; cbn [for_range].
  - cbn. lia.
  - unfold bind at 1.
    assert (Hbody : (n_pulse (snd ((sm <- LoadTest.get_smart_machine ;;
                                    LoadTest.rotate_with_retry w globals fuel sm p) s))
                     <= S (n_pulse s))%nat).
    { destruct (LoadTest.smart_machine (frame s)) as [sm|] eqn:Hsm.
      - rewrite (bind_Ret _ _ _ _ _ (get_smart_machine_bound s sm Hsm)).
        apply rotate_with_retry_pulses.
      - unfold LoadTest.get_smart_machine, bind, get_frame, raise.
        cbv beta iota. rewrite Hsm. cbn. lia. }
    destruct ((sm <- LoadTest.get_smart_machine ;;
               LoadTest.rotate_with_retry w globals fuel sm p) s)
      as [[[]|e|] s1]; cbn [fst snd] in *; try lia.
    specialize (IH s1). lia.
Qed.

Lemma turn_pulses (w : world) (globals : list string) (fuel : nat)
    (s : state LoadTest.locals) :
  (n_pulse (snd (LoadTest.turn w globals fuel s))
   <= n_pulse s
      + snd (LoadTest.plan (LoadTest.current_wheel_position (frame s))
               (randint_0_5 w (n_poll s))))%nat.
Proof.
  unfold LoadTest.turn.
  erewrite bind_Ret by (unfold LoadTest.randint; reflexivity).
  erewrite bind_Ret by (unfold get_frame; reflexivity).
  cbn [frame].
  destruct (LoadTest.current_wheel_position (frame s) =? randint_0_5 w (n_poll s));
    cbn [negb].
  - cbn. lia.
  - erewrite bind_Ret by (unfold print, emit; reflexivity).
    destruct (LoadTest.plan _ _) as [direction count]. cbn [snd].
    unfold bind at 1.
    match goal with |- context [for_range count ?b ?s1] =>
      pose proof (rotations_pulses w globals fuel
                    (pulse_power (-1 # 12) direction) count s1) as H;
      destruct (for_range count b s1) as [[[]|e|] s2]
    end; cbn [fst snd n_pulse] in *; exact H.
Qed.

Lemma control_wheel_pulses (w : world) (robot : Session) (current next : Z)
    (s : state Reader.locals) :
  target_of (calendar w (n_poll s)) = Ret (Some next) ->
  current <> next ->
  let run := Reader.control_wheel w (MotorOf robot) current s in
  let p := pulse_power (1 # 6) (Z.sgn (current - next)) in
  let n := Z.to_nat (Z.abs (current - next)) in
  let j := successes (set_power_ok w) (n_pulse s) n in
  pulses_of (trace (snd run))
  = pulses_of (trace s) ++ repeat (EvSetPower robot p true) j
      ++ (if Nat.eqb j n then [] else [EvSetPower robot p false]).
Proof.
  intros Htarget Hne run p n j. subst run p.
  rewrite control_wheel_polls, Htarget.
  destruct (Z.eqb_spec current next) as [E|_]; [contradiction|].
  unfold Reader.plan. cbn [fst snd]. rewrite copysign_sgn by lia. fold n.
  rewrite pulses_spec. unfold after_pulses. cbn [announced n_pulse]. fold j.
  destruct (Nat.eqb j n); unfold wheel_return, pulsed, announced;
    cbn [is_Exception fst snd trace frame Reader.cw_current_wheel_position];
    rewrite !pulses_of_app, pulses_of_poll_trace, pulses_of_stepped;
    cbn [app pulses_of filter is_pulse];
    rewrite ?app_nil_r, <- ?app_assoc; reflexivity.
Qed.

(** C1. For stations [current] and [target] in 0..5, the plan of either
    script has the direction sign(current - target) and |current - target|
    pulses times the granularity (2 in load_test.py, 1 in reader.py); it is
    the long way round whenever the ring offers a shorter one; and the plan
    is what the script sends: the pulses of a move all carry the power of
    that direction on the session in use, never more of them than the plan
    counts, and exactly that many when each one is answered.  With
    [current = target] no pulse is issued at all; the two plans of the
    end-to-end examples are (-1, 5) and (-1, 6). *)
Theorem C1_movement_plan (current target : Z) :
  in_range current -> in_range target ->
  (current <> target ->
   LoadTest.plan current target
   = (Z.sgn (current - target), Z.to_nat (Z.abs (current - target) * 2)) /\
   Reader.plan current target
   = (Z.sgn (current - target), Z.to_nat (Z.abs (current - target) * 1)) /\
   (6 - Z.abs (current - target) < Z.abs (current - target) ->
    (Z.to_nat ((6 - Z.abs (current - target)) * 2)
       < snd (LoadTest.plan current target))%nat /\
    (Z.to_nat ((6 - Z.abs (current - target)) * 1)
       < snd (Reader.plan current target))%nat) /\
   (forall w globals fuel sm (s : state LoadTest.locals),
      LoadTest.smart_machine (frame s) = Some sm ->
      LoadTest.current_wheel_position (frame s) = current ->
      randint_0_5 w (n_poll s) = target ->
      let run := LoadTest.turn w globals fuel s in
      let p := pulse_power (-1 # 12) (Z.sgn (current - target)) in
      let count := Z.to_nat (Z.abs (current - target) * 2) in
      (n_pulse (snd run) <= n_pulse s + count)%nat /\
      (exists new,
         trace (snd run) = trace s ++ new /\
         Forall (fun e => exists ok, e = EvSetPower sm p ok) (pulses_of new)) /\
      ((forall i, (i < count)%nat -> from_robot_ok w (n_lookup s + i) = true) ->
       (forall i, (i < count)%nat -> set_power_ok w (n_pulse s + i) = true) ->
       fst run = Ret tt /\
       pulses_of (trace (snd run))
       = pulses_of (trace s) ++ repeat (EvSetPower sm p true) count)) /\
   (forall w robot (s : state Reader.locals),
      target_of (calendar w (n_poll s)) = Ret (Some target) ->
      let run := Reader.control_wheel w (MotorOf robot) current s in
      let p := pulse_power (1 # 6) (Z.sgn (current - target)) in
      let count := Z.to_nat (Z.abs (current - target) * 1) in
      exists j,
        (j <= count)%nat /\
        pulses_of (trace (snd run))
        = pulses_of (trace s) ++ repeat (EvSetPower robot p true) j
            ++ (if Nat.eqb j count then [] else [EvSetPower robot p false]) /\
        ((forall i, (i < count)%nat -> set_power_ok w (n_pulse s + i) = true) ->
         j = count)))
  /\
  (current = target ->
   (forall w globals fuel (s : state LoadTest.locals),
      LoadTest.current_wheel_position (frame s) = current ->
      randint_0_5 w (n_poll s) = target ->
      fst (LoadTest.turn w globals fuel s) = Ret tt /\
      n_pulse (snd (LoadTest.turn w globals fuel s)) = n_pulse s /\
      pulses_of (trace (snd (LoadTest.turn w globals fuel s))) = pulses_of (trace s)) /\
   (forall w robot (s : state Reader.locals),
      target_of (calendar w (n_poll s)) = Ret (Some target) ->
      fst (Reader.control_wheel w (MotorOf robot) current s) = Ret (current, None) /\
      n_pulse (snd (Reader.control_wheel w (MotorOf robot) current s)) = n_pulse s /\
      pulses_of (trace (snd (Reader.control_wheel w (MotorOf robot) current s)))
      = pulses_of (trace s)))
  /\
  Reader.plan 0 5 = (-1, 5%nat) /\ LoadTest.plan 2 5 = (-1, 6%nat).
Proof.
  intros Hc Ht. unfold in_range in *.
  split; [|split; [|split; reflexivity]].
  - intros Hne.
    assert (Hl : LoadTest.plan current target
                 = (Z.sgn (current - target),
                    Z.to_nat (Z.abs (current - target) * 2))).
    { unfold LoadTest.plan. rewrite copysign_sgn by lia. reflexivity. }
    split; [exact Hl|]. split; [|split; [|split]].
    + unfold Reader.plan. rewrite copysign_sgn by lia. now rewrite Z.mul_1_r.
    + intros Hlong. split.
      * unfold LoadTest.plan. cbn [snd]. lia.
      * unfold Reader.plan. cbn [snd]. lia.
    + intros w globals fuel sm s Hsm Hcur Hrand.
      split; [|split].
      * pose proof (turn_pulses w globals fuel s) as H.
        rewrite Hcur, Hrand, Hl in H. exact H.
      * destruct (turn_positions w globals fuel sm s Hsm) as (new & Htr & Hp & _).
        rewrite Hcur, Hrand, Hl in Hp. cbn [fst] in Hp.
        exists new. split; assumption.
      * intros Hlook Hpow.
        pose proof (turn_all_pulses w globals fuel sm s Hsm) as H.
        cbv zeta in H. rewrite Hcur, Hrand, Hl in H. cbn [fst snd] in H.
        rewrite (H Hne Hlook Hpow). cbn [fst snd trace].
        split; [reflexivity|].
        rewrite !pulses_of_app, pulses_of_rotations.
        cbn [pulses_of filter is_pulse app]. now rewrite app_nil_r.
    + intros w robot s Htarget.
      rewrite Z.mul_1_r.
      exists (successes (set_power_ok w) (n_pulse s)
                (Z.to_nat (Z.abs (current - target)))).
      split; [apply successes_le|]. split.
      * exact (control_wheel_pulses w robot current target s Htarget Hne).
      * intros Hok. now apply successes_all.
  - intros Heq. split.
    + intros w globals fuel s Hcur Hrand.
      rewrite turn_same_target by congruence. cbn [fst snd n_pulse trace].
      repeat split. rewrite pulses_of_app. cbn. now rewrite app_nil_r.
    + intros w robot s Htarget.
      rewrite control_wheel_polls, Htarget. subst target. rewrite Z.eqb_refl.
      unfold polled. cbn [fst snd n_pulse trace]. repeat split.
      rewrite pulses_of_app, pulses_of_poll_trace. now rewrite app_nil_r.
Qed.

Lemma C1_movement_plan_witness :
  LoadTest.plan 0 5 = (Z.sgn (0 - 5), Z.to_nat (Z.abs (0 - 5) * 2)) /\
  (Z.to_nat ((6 - Z.abs (0 - 5)) * 1) < snd (Reader.plan 0 5))%nat /\
  pulses_of (trace (snd (LoadTest.turn (world_of_targets (fun _ => 5))
                           LoadTest.module_globals 0 load_test_homed)))
  = repeat (EvSetPower 0%nat (pulse_power (-1 # 12) (-1)) true) 10 /\
  pulses_of (trace (snd (Reader.control_wheel (world_focus_time 99) (MotorOf 0%nat)
                           0 reader_homed)))
  = repeat (EvSetPower 0%nat (pulse_power (1 # 6) (-1)) true) 3.
Proof.
  assert (H0 : in_range 0) by (unfold in_range; lia).
  assert (H3 : in_range 3) by (unfold in_range; lia).
  assert (H5 : in_range 5) by (unfold in_range; lia).
  destruct (C1_movement_plan 0 5 H0 H5) as (Hmove & _).
  destruct Hmove as (Hl & _ & Hlong & Hturn & _); [lia|].
  destruct (C1_movement_plan 0 3 H0 H3) as (Hmove3 & _).
  destruct Hmove3 as (_ & _ & _ & _ & Hwheel); [lia|].
  split; [exact Hl|]. split; [apply Hlong; simpl; lia|]. split.
  - destruct (Hturn (world_of_targets (fun _ => 5)) LoadTest.module_globals
                0%nat 0%nat load_test_homed eq_refl eq_refl eq_refl)
      as (_ & _ & Hall).
    destruct Hall as (_ & Hp); [intros; reflexivity | intros; reflexivity |].
    exact Hp.
  - destruct (Hwheel (world_focus_time 99) 0%nat reader_homed eq_refl)
      as (j & Hj & Hp & Hall).
    assert (Ej : j = 3%nat).
    { apply Hall. intros i Hi. simpl in Hi.
      do 3 (destruct i as [|i]; [reflexivity|]). lia. }
    subst j. exact Hp.
Defined.

(** * Further properties of the two scripts *)

(** ** reader.py: [connect] *)

Lemma connect_attempts_spec (w : world) (n : nat) (s : state Reader.locals) :
  Reader.connect_attempts w n s =
  match first_ok (at_address_ok w) (n_connect s) n with
  | None =>
      (Raise TooManyAttempts,
       mkState (n_connect s + n) (n_lookup s) (n_pulse s) (n_poll s)
         (trace s ++ failed_attempts n) (frame s))
  | Some j =>
      (Ret j,
       mkState (S j) (n_lookup s) (n_pulse s) (n_poll s)
         (trace s ++ failed_attempts (j - n_connect s)
            ++ [EvPrint "connection try"; EvConnect (Some j)])
         (frame s))
  end.
Proof.
  revert s. induction n as [|n IH]; intros s.
  - destruct s; simpl. unfold raise. now rewrite Nat.add_0_r, app_nil_r.
  - cbn [Reader.connect_attempts first_ok]. unfold try_except.
    erewrite bind_Ret by reflexivity. unfold at_address.
    cbn [n_connect n_lookup n_pulse n_poll trace frame].
    destruct (at_address_ok w (n_connect s)) eqn:Hok.
    + rewrite Nat.sub_diag. cbn [failed_attempts app].
      now rewrite <- app_assoc.
    + cbn [is_Exception]. erewrite bind_Ret by reflexivity.
      rewrite IH. cbn [n_connect n_lookup n_pulse n_poll trace frame].
      pose proof (first_ok_spec (at_address_ok w) n (S (n_connect s))) as Hf.
      destruct (first_ok (at_address_ok w) (S (n_connect s)) n) as [j|].
      * destruct Hf as (Hj & _).
        replace (j - n_connect s)%nat with (S (j - S (n_connect s))) by lia.
        cbn [failed_attempts]. rewrite <- !app_assoc. reflexivity.
      * cbn [failed_attempts]. rewrite <- !app_assoc. cbn [app].
        do 2 f_equal. lia.
Qed.

(** X1. [connect] of reader.py tries [RobotClient.at_address] until it
    answers, fifty times at most: it returns the session of the first
    attempt that succeeds and makes no attempt after it; it raises its
    "Too many connection attempts" exception exactly when all fifty fail;
    nothing else can come out of it, and it sends no pulse and leaves the
    locals alone. *)
Theorem X1_connect_bounded (w : world) (s : state Reader.locals) :
  let run := Reader.connect w s in
  (fst run = Raise TooManyAttempts <->
   forall i, (i < 50)%nat -> at_address_ok w (n_connect s + i) = false) /\
  (forall r, fst run = Ret r ->
     at_address_ok w r = true /\
     (n_connect s <= r < n_connect s + 50)%nat /\
     (forall i, (n_connect s <= i < r)%nat -> at_address_ok w i = false) /\
     n_connect (snd run) = S r) /\
  (fst run = Raise TooManyAttempts \/ exists r, fst run = Ret r) /\
  (n_connect (snd run) <= n_connect s + 50)%nat /\
  n_pulse (snd run) = n_pulse s /\
  frame (snd run) = frame s.
Proof.
  intros run. subst run. unfold Reader.connect. rewrite connect_attempts_spec.
  pose proof (first_ok_spec (at_address_ok w) 50 (n_connect s)) as Hf.
  destruct (first_ok (at_address_ok w) (n_connect s) 50) as [j|];
    cbn [fst snd n_connect n_pulse frame].
  - destruct Hf as (Hj & Hok & Hbefore).
    split; [split|split; [|split; [|split; [|split]]]].
    + discriminate.
    + intros Hall. specialize (Hall (j - n_connect s)%nat).
      replace (n_connect s + (j - n_connect s))%nat with j in Hall by lia.
      rewrite Hall in Hok by lia. discriminate.
    + intros r H. inversion H; subst r. repeat split; try lia; auto.
    + right. now exists j.
    + lia.
    + reflexivity.
    + reflexivity.
  - split; [split|split; [|split; [|split; [|split]]]];
      try reflexivity; try discriminate; auto; lia.
Qed.

Lemma keeps_after_connect (w : world) (T : list event -> Prop) (fuel cycles : nat) :
  (forall tr e, T tr -> T (tr ++ [e])) ->
  keeps (rd_inv T) (fun _ => True)
    (Reader.homing_loop w fuel ;;
     Reader.set_current_wheel_position 0 ;;
     Reader.polling_loop w cycles).
Proof.
  intros HT.
  assert (Hstep : forall tr e, T tr -> True -> T (tr ++ [e])) by auto.
  eapply keeps_bind.
  - apply (keeps_homing_loop w T (fun _ => True)); auto.
  - intros _ _. eapply keeps_bind.
    + apply (keeps_set_current_wheel_position T (fun _ => True)); auto.
      unfold in_range; lia.
    + intros _ _. apply (keeps_polling_loop w T (fun _ => True)); auto.
Qed.

(** X2. The first connection of reader.py is made outside any [try]: when
    its fifty attempts all fail, the exception of [connect] ends [main]
    before the homing message and before any pulse.  When attempt [j] is the
    first to succeed, [main] makes no further attempt and announces homing
    right after it. *)
Theorem X2_first_connection (w : world) (fuel cycles : nat) :
  let run := Reader.main w fuel cycles (initial_state Reader.initial_locals) in
  ((forall i, (i < 50)%nat -> at_address_ok w i = false) ->
   fst run = Raise TooManyAttempts /\
   n_pulse (snd run) = 0%nat /\
   trace (snd run) =
     [EvPrint "Namespace(...)"; EvPrint "connecting to robot"] ++ failed_attempts 50) /\
  (forall j, (j < 50)%nat -> at_address_ok w j = true ->
     (forall i, (i < j)%nat -> at_address_ok w i = false) ->
     exists rest,
       trace (snd run) =
         ([EvPrint "Namespace(...)"; EvPrint "connecting to robot"]
            ++ failed_attempts j
            ++ [EvPrint "connection try"; EvConnect (Some j);
                EvPrint "turning wheel to initial position 0"])
           ++ rest).
Proof.
  intros run. subst run. unfold Reader.main.
  erewrite bind_Ret by reflexivity. erewrite bind_Ret by reflexivity.
  unfold Reader.connect.
  pose proof (first_ok_spec (at_address_ok w) 50 0) as Hf.
  split.
  - intros Hall. erewrite bind_Raise.
    2:{ rewrite connect_attempts_spec. cbn [n_connect initial_state].
        destruct (first_ok (at_address_ok w) 0 50) as [j|]; [|reflexivity].
        destruct Hf as (Hj & Hok & _). rewrite Hall in Hok by lia. discriminate. }
    repeat split.
  - intros j Hj Hok Hbefore.
    assert (E : first_ok (at_address_ok w) 0 50 = Some j).
    { destruct (first_ok (at_address_ok w) 0 50) as [j'|].
      - destruct Hf as (Hj' & Hok' & Hb'). f_equal.
        destruct (Nat.lt_trichotomy j j') as [H|[H|H]]; [|exact (eq_sym H)|].
        + rewrite Hb' in Hok by lia. discriminate.
        + rewrite Hbefore in Hok' by lia. discriminate.
      - specialize (Hf j Hj). simpl in Hf. rewrite Hf in Hok. discriminate. }
    erewrite bind_Ret.
    2:{ rewrite connect_attempts_spec. cbn [n_connect initial_state]. rewrite E.
        reflexivity. }
    erewrite bind_Ret by reflexivity. erewrite bind_Ret by reflexivity.
    cbn [n_connect n_lookup n_pulse n_poll trace frame initial_state
         Reader.robot Reader.current_wheel_position Reader.cw_current_wheel_position
         Reader.initial_locals].
    rewrite Nat.sub_0_r.
    set (pre := [EvPrint "Namespace(...)"; EvPrint "connecting to robot"]
                  ++ failed_attempts j
                  ++ [EvPrint "connection try"; EvConnect (Some j);
                      EvPrint "turning wheel to initial position 0"]).
    match goal with |- context [bind ?m ?k ?s0] =>
      destruct (keeps_after_connect w (fun tr => exists rest, tr = pre ++ rest)
                  fuel cycles) with (s := s0) as [(Ht & _) _]
    end.
    + intros tr e [rest ->]. exists (rest ++ [e]). now rewrite app_assoc.
    + split; [|unfold in_range; cbn; lia]. exists []. subst pre.
      cbn [trace]. rewrite app_nil_r. rewrite <- !app_assoc. reflexivity.
    + exact Ht.
Qed.

Lemma X2_first_connection_witness :
  fst (Reader.main world_never_connects 1 1 (initial_state Reader.initial_locals))
  = Raise TooManyAttempts /\
  exists rest,
    trace (snd (Reader.main world_connects_at_tenth 1 1
                  (initial_state Reader.initial_locals)))
    = ([EvPrint "Namespace(...)"; EvPrint "connecting to robot"]
         ++ failed_attempts 9
         ++ [EvPrint "connection try"; EvConnect (Some 9%nat);
             EvPrint "turning wheel to initial position 0"])
        ++ rest.
Proof.
  split.
  - apply (proj1 (X2_first_connection world_never_connects 1 1)).
    intros i _. reflexivity.
  - apply (proj2 (X2_first_connection world_connects_at_tenth 1 1) 9%nat).
    + lia.
    + reflexivity.
    + intros i Hi. do 9 (destruct i as [|i]; [reflexivity|]). lia.
Defined.

(** ** reader.py: what [get_next_wheel_position] answers *)

Ltac split_conditions :=
  repeat match goal with
         | |- context [String.eqb ?a ?b] =>
             destruct (String.eqb_spec a b)
         | |- context [?a >=? ?b] =>
             rewrite (Z.geb_leb a b); destruct (Z.leb_spec b a)
         | |- context [?a >? ?b] =>
             rewrite (Z.gtb_ltb a b); destruct (Z.ltb_spec b a)
         end.

(** X3. [get_next_wheel_position] answers [None] in four cases and no other:
    the calendar call raised an HTTP error; no event is listed; the first
    event is a working location whose summary is "Office"; or the first event
    has begun and its type is none of "outOfOffice", "focusTime" and
    "default". *)
Theorem X3_no_target (w : world) (s : state Reader.locals) :
  fst (Reader.get_next_wheel_position w s) = Ret None <->
  match calendar w (n_poll s) with
  | HttpError => True
  | CalendarRaises => False
  | Items [] _ _ => True
  | Items (event :: _) now1 now2 =>
      (eventType event = "workingLocation" /\ summary event = "Office") \/
      (eventType event <> "workingLocation" /\
       start event < now1 + Reader.five_minutes /\ start event <= now2 /\
       eventType event <> "outOfOffice" /\ eventType event <> "focusTime" /\
       eventType event <> "default")
  end.
Proof.
  rewrite get_next_wheel_position_spec. cbn [fst].
  destruct (calendar w (n_poll s)) as [| |[|event events] now1 now2]; cbn [target_of].
  - tauto.
  - split; [discriminate | tauto].
  - unfold Reader.wheel_position_of. tauto.
  - unfold Reader.wheel_position_of, Reader.event_type_to_wheel_position.
    split_conditions; cbn [negb]; try (exfalso; congruence);
      (split;
       [ let Hx := fresh "Hx" in
         intros Hx;
         first [ discriminate Hx
               | left; split; congruence
               | right; repeat split; first [assumption | congruence | lia] ]
       | let Hx := fresh "Hx" in
         intros Hx;
         first [ reflexivity
               | exfalso; destruct Hx as [[? ?]|(? & ? & ? & ? & ? & ?)];
                 first [congruence | lia | contradiction] ] ]).
Qed.

(** X4. For a listed first event, the station that
    [get_next_wheel_position] answers: WORK_FROM_HOME exactly for a working
    location other than "Office", whenever it starts; AVAILABLE exactly for
    any other event that starts five minutes or more after the first clock
    reading, whatever its type; GOING_TO_EVENT exactly for one that starts
    sooner but after the second reading; and OUT_OF_OFFICE, FOCUS_TIME,
    IN_MEETING only for an event that has begun, of type "outOfOffice",
    "focusTime", "default".  The events after the first are not read. *)
Theorem X4_stations (w : world) (s : state Reader.locals) (event : cal_event)
    (rest : list cal_event) (now1 now2 : Z) :
  calendar w (n_poll s) = Items (event :: rest) now1 now2 ->
  let answer := fst (Reader.get_next_wheel_position w s) in
  let located := eventType event = "workingLocation" in
  let begun := start event < now1 + Reader.five_minutes /\ start event <= now2 in
  (answer = Ret (Some Reader.WORK_FROM_HOME) <->
   located /\ summary event <> "Office") /\
  (answer = Ret (Some Reader.AVAILABLE) <->
   ~ located /\ now1 + Reader.five_minutes <= start event) /\
  (answer = Ret (Some Reader.GOING_TO_EVENT) <->
   ~ located /\ start event < now1 + Reader.five_minutes /\ now2 < start event) /\
  (answer = Ret (Some Reader.OUT_OF_OFFICE) <->
   eventType event = "outOfOffice" /\ begun) /\
  (answer = Ret (Some Reader.FOCUS_TIME) <->
   eventType event = "focusTime" /\ begun) /\
  (answer = Ret (Some Reader.IN_MEETING) <->
   eventType event = "default" /\ begun) /\
  answer = Ret (Reader.wheel_position_of [event] now1 now2).
Proof.
  intros Hcal answer located begun. subst answer located begun.
  rewrite get_next_wheel_position_spec, Hcal. cbn [fst target_of].
  unfold Reader.wheel_position_of, Reader.event_type_to_wheel_position,
    Reader.WORK_FROM_HOME, Reader.AVAILABLE, Reader.GOING_TO_EVENT,
    Reader.OUT_OF_OFFICE, Reader.FOCUS_TIME, Reader.IN_MEETING.
  split_conditions; cbn [negb]; try (exfalso; congruence);
    repeat match goal with
           | |- _ /\ _ => split
           | |- _ <-> _ =>
               split;
               [ let Hx := fresh "Hx" in
                 intros Hx;
                 first [ discriminate Hx
                       | repeat split; first [assumption | congruence | lia] ]
               | let Hx := fresh "Hx" in
                 intros Hx;
                 first [ reflexivity
                       | exfalso; decompose [and] Hx;
                         first [congruence | lia | contradiction] ] ]
           | |- _ = _ => reflexivity
           end.
Qed.

Lemma X4_stations_witness :
  fst (Reader.get_next_wheel_position (world_focus_time 0) reader_homed)
  = Ret (Some Reader.FOCUS_TIME).
Proof.
  apply (proj1 (proj2 (proj2 (proj2 (proj2
           (X4_stations (world_focus_time 0) reader_homed
              (mkEvent "focusTime" "deep work" 0) [] 10 10 eq_refl)))))).
  repeat split; unfold Reader.five_minutes; simpl; lia.
Defined.

(** ** load_test.py: [rotate_with_retry] as the script runs it *)

Lemma rotate_with_retry_no_motor (w : world) (fuel : nat) (sm : Session) (p : Q)
    (s : state LoadTest.locals) :
  from_robot_ok w (n_lookup s) = false ->
  LoadTest.rotate_with_retry w LoadTest.module_globals fuel sm p s =
  (OutOfFuel,
   mkState (n_connect s) (S (n_lookup s)) (n_pulse s) (n_poll s)
     (trace s ++ [EvFromRobot sm false]
        ++ repeat (EvPrint "CUSTOM ATTEMPT to reconnect after exception") (S fuel))
     (LoadTest.mkLocals (LoadTest.smart_machine (frame s))
        (LoadTest.current_wheel_position (frame s)) (Some sm))).
Proof.
  intros Hl.
  unfold LoadTest.rotate_with_retry, LoadTest.set_rwr_smart_machine,
    LoadTest.get_rwr_smart_machine.
  unfold_machine; simpl. rewrite Hl; simpl.
  rewrite reconnect_loop_diverges. cbn.
  rewrite <- !app_assoc. reflexivity.
Qed.

(** X5. With the names that load_test.py binds, [rotate_with_retry] returns
    exactly when the motor lookup and the pulse both succeed.  After any
    failure its reconnection loop runs without end, whatever the fuel, and
    never calls [connect]: the count of connection attempts is the same
    before and after every call.  At most one pulse is sent. *)
Theorem X5_rotate_returns_iff (w : world) (fuel : nat) (sm : Session) (p : Q)
    (s : state LoadTest.locals) :
  let run := LoadTest.rotate_with_retry w LoadTest.module_globals fuel sm p s in
  (fst run = Ret tt <->
   from_robot_ok w (n_lookup s) = true /\ set_power_ok w (n_pulse s) = true) /\
  (fst run <> Ret tt -> fst run = OutOfFuel) /\
  n_connect (snd run) = n_connect s /\
  (n_pulse (snd run) <= S (n_pulse s))%nat /\
  LoadTest.smart_machine (frame (snd run)) = LoadTest.smart_machine (frame s).
Proof.
  intros run. subst run.
  destruct (from_robot_ok w (n_lookup s)) eqn:Hl.
  - destruct (set_power_ok w (n_pulse s)) eqn:Hp.
    + rewrite rotate_with_retry_ok by assumption. cbn.
      repeat split; auto. intros H. now destruct H.
    + rewrite rotate_with_retry_stuck by assumption. cbn.
      repeat split; auto; try discriminate. intros [_ H]. discriminate.
  - rewrite rotate_with_retry_no_motor by assumption. cbn.
    repeat split; auto; try discriminate. intros [H _]. discriminate.
Qed.

(** ** load_test.py: the connections of a whole run *)

Section LoadTestOnce.
Variable w : world.
Variable c : nat.
Variable sm : Session.

Lemma calm_app (tr new : list event) :
  Forall calm tr -> Forall calm new -> Forall calm (tr ++ new).
Proof. intros H1 H2. apply Forall_app. split; assumption. Qed.

Lemma calm_prints (msg : string) (n : nat) : Forall calm (repeat (EvPrint msg) n).
Proof. induction n; cbn; constructor; auto. exact Logic.I. Qed.

Lemma once_emit (e : event) :
  calm e -> keeps (connected_once c sm) (fun _ => True) (emit e).
Proof.
  intros He s (Hc & Hsm & Ht). split; [|auto].
  repeat split; cbn; auto. apply calm_app; auto.
Qed.

Lemma once_call_rotate (fuel : nat) (p : Q) :
  keeps (connected_once c sm) (fun _ => True)
    (sm' <- LoadTest.get_smart_machine ;;
     LoadTest.rotate_with_retry w LoadTest.module_globals fuel sm' p).
Proof.
  intros s (Hc & Hsm & Ht). split; [|auto].
  rewrite (bind_Ret _ _ _ _ _ (get_smart_machine_bound s sm Hsm)).
  destruct (from_robot_ok w (n_lookup s)) eqn:Hl.
  - destruct (set_power_ok w (n_pulse s)) eqn:Hp.
    + rewrite rotate_with_retry_ok by assumption.
      repeat split; cbn; auto. apply calm_app; auto. repeat constructor.
    + rewrite rotate_with_retry_stuck by assumption.
      repeat split; cbn [snd n_connect trace frame LoadTest.smart_machine]; auto.
      apply calm_app; auto.
      constructor; [exact Logic.I|]. constructor; [exact Logic.I|].
      apply calm_prints.
  - rewrite rotate_with_retry_no_motor by assumption.
    repeat split; cbn [snd n_connect trace frame LoadTest.smart_machine]; auto.
    apply calm_app; auto. constructor; [exact Logic.I|]. apply calm_prints.
Qed.

Lemma once_set_current_wheel_position (p : Z) :
  keeps (connected_once c sm) (fun _ => True)
    (LoadTest.set_current_wheel_position p).
Proof.
  intros s (Hc & Hsm & Ht). split; [|auto].
  unfold LoadTest.set_current_wheel_position. unfold_machine.
  repeat split; cbn; auto. apply calm_app; auto. repeat constructor.
Qed.

Lemma once_turn (fuel : nat) :
  keeps (connected_once c sm) (fun _ => True)
    (LoadTest.turn w LoadTest.module_globals fuel).
Proof.
  unfold LoadTest.turn.
  eapply keeps_bind with (V := fun _ => True).
  - intros s (Hc & Hsm & Ht). split; [|auto]. unfold LoadTest.randint.
    repeat split; cbn; auto. apply calm_app; auto. repeat constructor.
  - intros next _.
    eapply keeps_bind; [apply keeps_get_frame with (F := fun _ => True); auto|].
    intros f _.
    destruct (negb (LoadTest.current_wheel_position f =? next)).
    + eapply keeps_bind; [now apply once_emit|]. intros _ _.
      destruct (LoadTest.plan (LoadTest.current_wheel_position f) next)
        as [direction count].
      eapply keeps_bind; [apply keeps_for_range, once_call_rotate|].
      intros _ _. apply once_set_current_wheel_position.
    + now apply keeps_ret.
Qed.

Lemma once_polling_loop (fuel cycles : nat) :
  keeps (connected_once c sm) (fun _ => True)
    (LoadTest.polling_loop w LoadTest.module_globals fuel cycles).
Proof.
  induction cycles as [|cycles IH]; cbn [LoadTest.polling_loop].
  - now apply keeps_ret.
  - eapply keeps_bind; [apply once_turn|]. intros _ _. exact IH.
Qed.

Lemma once_from_homing (fuel cycles : nat) :
  keeps (connected_once c sm) (fun _ => True)
    (for_range 6
       (sm' <- LoadTest.get_smart_machine ;;
        LoadTest.rotate_with_retry w LoadTest.module_globals fuel sm' (-1 # 12)) ;;
     LoadTest.set_current_wheel_position 0 ;;
     LoadTest.polling_loop w LoadTest.module_globals fuel cycles).
Proof.
  eapply keeps_bind; [apply keeps_for_range, once_call_rotate|]. intros _ _.
  eapply keeps_bind; [apply once_set_current_wheel_position|]. intros _ _.
  apply once_polling_loop.
Qed.
End LoadTestOnce.

(** X6. As load_test.py runs, with [args] a local of [main], the only calls
    to [connect] of a whole run are those of the initial loop: at most ten
    attempts are made, and none after the one that gave the session, even
    though every failed pulse enters a loop written to reconnect.  The
    script never closes a session and never sleeps. *)
Theorem X6_load_test_connects_once (w : world) (fuel cycles : nat) :
  let run := LoadTest.main w LoadTest.module_globals fuel cycles
               (initial_state LoadTest.initial_locals) in
  (n_connect (snd run) <= 10)%nat /\
  (forall j, LoadTest.smart_machine (frame (snd run)) = Some j ->
     n_connect (snd run) = S j) /\
  (LoadTest.smart_machine (frame (snd run)) = None ->
   n_lookup (snd run) = 0%nat /\ n_pulse (snd run) = 0%nat) /\
  Forall calm (trace (snd run)).
Proof.
  intros run. subst run.
  pose proof (first_ok_spec (at_address_ok w) 10 0) as Hspec.
  destruct (first_ok (at_address_ok w) 0 10) as [j|] eqn:Hf.
  - destruct Hspec as (Hj & _).
    rewrite (main_connected w LoadTest.module_globals fuel cycles j Hf).
    destruct (once_from_homing w (S j) j fuel cycles (homing_state j))
      as [(Hc & Hsm & Ht) _].
    + repeat split. unfold homing_state. cbn [trace].
      constructor; [exact Logic.I|]. apply Forall_app. split.
      * apply Forall_forall. intros e He. apply repeat_spec in He. now subst e.
      * repeat constructor.
    + rewrite Hc, Hsm. split; [lia|]. split; [|split].
      * intros j' E. now inversion E.
      * discriminate.
      * exact Ht.
  - rewrite (main_not_connected w LoadTest.module_globals fuel cycles Hf).
    cbn [fst snd n_connect n_lookup n_pulse trace frame
         LoadTest.initial_locals LoadTest.smart_machine].
    split; [lia|]. split; [discriminate|]. split; [now split|].
    constructor; [exact Logic.I|]. apply Forall_app. split.
    + apply Forall_forall. intros e He. apply repeat_spec in He. now subst e.
    + repeat constructor.
Qed.

(** ** The pulses of a completed plan, counted with their sense *)

Lemma sgn_Qred (q : Q) : Z.sgn (Qnum (Qred q)) = Z.sgn (Qnum q).
Proof.
  pose proof (Qred_correct q) as H. unfold Qeq in H.
  destruct (Qnum (Qred q)), (Qnum q); simpl in H;
    try reflexivity; discriminate.
Qed.

Lemma pulse_sense_power (base : Q) (direction : Z) :
  pulse_sense (pulse_power base direction) = Z.sgn (Qnum base) * Z.sgn direction.
Proof.
  unfold pulse_sense, pulse_power. rewrite sgn_Qred.
  cbn [Qmult Qnum inject_Z]. apply Z.sgn_mul.
Qed.

Lemma sgn_copysign (x : Z) : Z.sgn (copysign 1 x) = copysign 1 x.
Proof. unfold copysign. destruct (x <? 0); reflexivity. Qed.

Lemma signed_pulses_app (a b : list event) :
  signed_pulses (a ++ b) = signed_pulses a + signed_pulses b.
Proof.
  induction a as [|e a IH]; cbn [app signed_pulses]; [reflexivity|].
  destruct e; try exact IH. rewrite IH. lia.
Qed.

Lemma signed_pulses_poll_trace (reply : calendar_reply) :
  signed_pulses (poll_trace reply) = 0.
Proof.
  unfold poll_trace.
  destruct reply as [| |[|? ?] ? ?];
    repeat match goal with
           | |- context [if ?b then _ else _] => destruct b
           end;
    reflexivity.
Qed.

Lemma signed_pulses_stepped (robot : Session) (direction : Z) (j : nat) (c : Z) :
  signed_pulses (stepped robot direction c j) = Z.of_nat j * Z.sgn direction.
Proof.
  revert c. induction j as [|j IH]; intros c; [reflexivity|].
  cbn [stepped signed_pulses]. rewrite IH, pulse_sense_power.
  change (Z.sgn (Qnum (1 # 6))) with 1. lia.
Qed.

Lemma signed_pulses_rotations (sm : Session) (p : Q) (n : nat) :
  signed_pulses (List.concat (repeat [EvFromRobot sm true; EvSetPower sm p true] n))
  = Z.of_nat n * pulse_sense p.
Proof.
  induction n as [|n IH]; [reflexivity|].
  cbn [repeat List.concat app signed_pulses]. rewrite IH. lia.
Qed.

Lemma control_wheel_completes (w : world) (robot : Session) (current next : Z)
    (s : state Reader.locals) :
  target_of (calendar w (n_poll s)) = Ret (Some next) ->
  (forall i, (i < Z.to_nat (Z.abs (current - next)))%nat ->
     set_power_ok w (n_pulse s + i) = true) ->
  Reader.control_wheel w (MotorOf robot) current s =
  (Ret (next, None),
   mkState (n_connect s) (n_lookup s)
     (n_pulse s + Z.to_nat (Z.abs (current - next))) (S (n_poll s))
     (trace s ++ poll_trace (calendar w (n_poll s)) ++ move_trace robot current next)
     (Reader.mkLocals (Reader.robot (frame s))
        (Reader.current_wheel_position (frame s)) next)).
Proof.
  intros Htarget Hok. rewrite control_wheel_polls, Htarget. unfold move_trace.
  destruct (Z.eqb_spec current next) as [E|E].
  - subst next. rewrite Z.sub_diag. cbn [Z.abs Z.to_nat]. unfold polled.
    now rewrite Nat.add_0_r, app_nil_r.
  - unfold Reader.plan. cbn [fst snd]. rewrite copysign_sgn by lia.
    rewrite pulses_spec. unfold after_pulses. cbn [announced n_pulse].
    rewrite (successes_all _ _ _ Hok), Nat.eqb_refl.
    unfold wheel_return, pulsed, announced.
    cbn [n_connect n_lookup n_pulse n_poll trace frame Reader.robot
         Reader.current_wheel_position Reader.cw_current_wheel_position].
    assert (Hend : current - Z.sgn (current - next)
                             * Z.of_nat (Z.to_nat (Z.abs (current - next))) = next).
    { destruct (Z.lt_trichotomy current next) as [H|[H|H]].
      - rewrite Z.sgn_neg by lia. lia.
      - contradiction.
      - rewrite Z.sgn_pos by lia. lia. }
    rewrite Hend. rewrite <- !app_assoc. reflexivity.
Qed.

Lemma signed_pulses_move_trace (robot : Session) (current next : Z) :
  signed_pulses (move_trace robot current next) = current - next.
Proof.
  unfold move_trace. destruct (Z.eqb_spec current next) as [E|E].
  - subst next. now rewrite Z.sub_diag.
  - cbn [signed_pulses]. rewrite signed_pulses_stepped, Z.sgn_sgn. lia.
Qed.

(** X7. The pulses of a plan that is answered throughout, counted with
    their sense (the sign of their power): reader.py sends current - target
    of them, load_test.py twice target - current.  So load_test.py sends
    two pulses where reader.py sends one, and for the same move the two
    scripts drive the motor in opposite senses. *)
Theorem X7_signed_pulses (w : world) :
  (forall (robot : Session) (current next : Z) (s : state Reader.locals),
     target_of (calendar w (n_poll s)) = Ret (Some next) ->
     (forall i, (i < Z.to_nat (Z.abs (current - next)))%nat ->
        set_power_ok w (n_pulse s + i) = true) ->
     exists new,
       trace (snd (Reader.control_wheel w (MotorOf robot) current s)) = trace s ++ new /\
       signed_pulses new = current - next)
  /\
  (forall (globals : list string) (fuel : nat) (sm : Session)
          (s : state LoadTest.locals),
     LoadTest.smart_machine (frame s) = Some sm ->
     let current := LoadTest.current_wheel_position (frame s) in
     let target := randint_0_5 w (n_poll s) in
     let count := snd (LoadTest.plan current target) in
     (forall i, (i < count)%nat -> from_robot_ok w (n_lookup s + i) = true) ->
     (forall i, (i < count)%nat -> set_power_ok w (n_pulse s + i) = true) ->
     exists new,
       trace (snd (LoadTest.turn w globals fuel s)) = trace s ++ new /\
       signed_pulses new = 2 * (target - current)).
Proof.
  split.
  - intros robot current next s Htarget Hok.
    rewrite (control_wheel_completes w robot current next s Htarget Hok).
    cbn [snd trace]. eexists. split; [reflexivity|].
    rewrite signed_pulses_app, signed_pulses_poll_trace, signed_pulses_move_trace.
    lia.
  - intros globals fuel sm s Hsm current target count Hl Hp.
    destruct (Z.eq_dec current target) as [E|E].
    + rewrite turn_same_target by (symmetry; exact E). cbn [snd trace].
      eexists. split; [reflexivity|]. cbn [signed_pulses]. lia.
    + rewrite (turn_all_pulses w globals fuel sm s Hsm E Hl Hp).
      cbn [snd trace]. eexists. split; [reflexivity|].
      fold current target.
      change (signed_pulses ([EvPoll; EvPrint "turning wheel from"] ++ ?l))
        with (signed_pulses l).
      rewrite signed_pulses_app, signed_pulses_rotations, pulse_sense_power.
      cbn [signed_pulses]. unfold LoadTest.plan. cbn [fst snd].
      rewrite sgn_copysign, copysign_sgn by lia.
      change (Z.sgn (Qnum (-1 # 12))) with (-1).
      destruct (Z.lt_trichotomy current target) as [H|[H|H]].
      * rewrite Z.sgn_neg by lia. lia.
      * contradiction.
      * rewrite Z.sgn_pos by lia. lia.
Qed.

Lemma X7_signed_pulses_witness :
  exists new,
    trace (snd (Reader.control_wheel (world_focus_time 99) (MotorOf 0%nat) 0
                  reader_homed))
    = trace reader_homed ++ new /\
    signed_pulses new = -3.
Proof.
  destruct (proj1 (X7_signed_pulses (world_focus_time 99)) 0%nat 0 3 reader_homed
              eq_refl)
    as (new & Ht & Hr).
  - intros i Hi. simpl in Hi. do 3 (destruct i as [|i]; [reflexivity|]). lia.
  - exists new. split; [exact Ht | exact Hr].
Defined.

(** ** reader.py: a cycle that completes *)

Lemma move_trace_keeps_session (robot : Session) (current next : Z) :
  Forall keeps_session (move_trace robot current next).
Proof.
  unfold move_trace. destruct (current =? next); [constructor|].
  constructor; [exact Logic.I | apply stepped_keeps_session].
Qed.

Lemma cycle_completes (w : world) (r : Session) (s : state Reader.locals) (next : Z) :
  let c := Reader.current_wheel_position (frame s) in
  let n := Z.to_nat (Z.abs (c - next)) in
  Reader.robot (frame s) = Some r ->
  from_robot_ok w (n_lookup s) = true ->
  target_of (calendar w (n_poll s)) = Ret (Some next) ->
  (forall i, (i < n)%nat -> set_power_ok w (n_pulse s + i) = true) ->
  Reader.cycle w s =
  (Ret tt,
   mkState (n_connect s) (S (n_lookup s)) (n_pulse s + n) (S (n_poll s))
     (trace s ++ ([EvFromRobot r true] ++ poll_trace (calendar w (n_poll s))
                    ++ move_trace r c next
                    ++ [EvPosition next; EvPrint "wheel now at: "])
        ++ [EvSleep 15])
     (Reader.mkLocals (Some r) next next)).
Proof.
  intros c n Hrobot Hlookup Htarget Hok.
  unfold Reader.cycle, try_except.
  rewrite (bind_Ret _ _ _ _ _ (ensure_robot_bound w r s Hrobot)).
  erewrite bind_Ret by (unfold from_robot; rewrite Hlookup; reflexivity).
  erewrite bind_Ret by (unfold get_frame; reflexivity).
  cbn [frame]. fold c.
  erewrite bind_Ret
    by (apply control_wheel_completes; cbn [n_poll n_pulse];
        [exact Htarget | exact Hok]).
  cbv beta iota.
  rewrite (bind_Ret _ _ _ _ _ (reader_set_current_wheel_position_eq _ _)).
  project_state.
  erewrite bind_Ret by reflexivity. project_state.
  unfold sleep, emit. project_state. rewrite Hrobot. fold n.
  repeat rewrite <- app_assoc. cbn [app]. reflexivity.
Qed.

(** X8. A cycle of reader.py that holds a session, finds the motor and has
    every pulse of its plan answered ends normally with the estimate on the
    target (also when no move was needed): it sends |current - target|
    pulses, keeps its session, makes no connection attempt, and sleeps 15
    seconds exactly once, as its last action. *)
Theorem X8_cycle_completes (w : world) (r : Session) (next : Z)
    (s : state Reader.locals) :
  let c := Reader.current_wheel_position (frame s) in
  let n := Z.to_nat (Z.abs (c - next)) in
  Reader.robot (frame s) = Some r ->
  from_robot_ok w (n_lookup s) = true ->
  target_of (calendar w (n_poll s)) = Ret (Some next) ->
  (forall i, (i < n)%nat -> set_power_ok w (n_pulse s + i) = true) ->
  let run := Reader.cycle w s in
  fst run = Ret tt /\
  Reader.current_wheel_position (frame (snd run)) = next /\
  Reader.robot (frame (snd run)) = Some r /\
  n_pulse (snd run) = (n_pulse s + n)%nat /\
  n_connect (snd run) = n_connect s /\
  exists before,
    trace (snd run) = trace s ++ before ++ [EvSleep 15] /\
    Forall keeps_session before.
Proof.
  intros c n Hrobot Hlookup Htarget Hok run. subst run.
  rewrite (cycle_completes w r s next Hrobot Hlookup Htarget Hok).
  fold c n. cbn [fst snd n_connect n_pulse trace frame
                 Reader.robot Reader.current_wheel_position].
  repeat split. eexists. split; [reflexivity|].
  repeat first [ apply poll_trace_keeps_session
               | apply move_trace_keeps_session
               | apply Forall_app; split ];
    repeat constructor.
Qed.

Lemma X8_cycle_completes_witness :
  fst (Reader.cycle (world_focus_time 99) reader_homed) = Ret tt /\
  Reader.current_wheel_position
    (frame (snd (Reader.cycle (world_focus_time 99) reader_homed))) = 3.
Proof.
  destruct (X8_cycle_completes (world_focus_time 99) 0%nat 3 reader_homed)
    as (Hret & Hpos & _).
  - reflexivity.
  - reflexivity.
  - reflexivity.
  - intros i Hi. simpl in Hi.
    do 3 (destruct i as [|i]; [reflexivity|]). lia.
  - split; assumption.
Defined.

(** ** Rules for the judgements *)

Section Triples.
Context {L : Type}.

Lemma triple_conseq {A} (P P' : state L -> Prop) (m : M L A)
    (Q Q' : result A -> state L -> Prop) :
  (forall s, P' s -> P s) -> (forall res s, Q res s -> Q' res s) ->
  triple P m Q -> triple P' m Q'.
Proof. intros HP HQ Hm s Hs. apply HQ, Hm, HP, Hs. Qed.

Lemma triple_bind {A B} (P : state L -> Prop) (m : M L A) (k : A -> M L B)
    (Qm : result A -> state L -> Prop) (Q : result B -> state L -> Prop) :
  triple P m Qm ->
  (forall a, triple (Qm (Ret a)) (k a) Q) ->
  (forall e s, Qm (Raise e) s -> Q (Raise e) s) ->
  (forall s, Qm OutOfFuel s -> Q OutOfFuel s) ->
  triple P (bind m k) Q.
Proof.
  intros Hm Hk He Ho s Hs. unfold bind. specialize (Hm s Hs).
  destruct (m s) as [[a|e|] s1]; cbn [fst snd] in *.
  - apply Hk, Hm.
  - apply He, Hm.
  - apply Ho, Hm.
Qed.

Lemma triple_try_except {A} (P : state L -> Prop) (body : M L A)
    (handler : exn -> M L A) (Qb Q : result A -> state L -> Prop) :
  triple P body Qb ->
  (forall e, is_Exception e = true -> triple (Qb (Raise e)) (handler e) Q) ->
  (forall a s, Qb (Ret a) s -> Q (Ret a) s) ->
  (forall e s, is_Exception e = false -> Qb (Raise e) s -> Q (Raise e) s) ->
  (forall s, Qb OutOfFuel s -> Q OutOfFuel s) ->
  triple P (try_except body handler) Q.
Proof.
  intros Hb Hh Hr He Ho s Hs. unfold try_except. specialize (Hb s Hs).
  destruct (body s) as [[a|e|] s1]; cbn [fst snd] in *.
  - apply Hr, Hb.
  - destruct (is_Exception e) eqn:E.
    + apply Hh; assumption.
    + apply He; assumption.
  - apply Ho, Hb.
Qed.

Variable I : state L -> Prop.

Lemma steady_weaken {A} (V V' : A -> Prop) (m : M L A) :
  (forall a, V a -> V' a) -> steady I V m -> steady I V' m.
Proof.
  intros HV Hm s Hs. destruct (Hm s Hs) as [H1 H2]. split; [exact H1|].
  destruct (fst (m s)); auto.
Qed.

Lemma steady_ret {A} (V : A -> Prop) (a : A) : V a -> steady I V (ret a).
Proof. intros Ha s Hs. split; assumption. Qed.

Lemma steady_raise {A} (V : A -> Prop) (e : exn) :
  is_Exception e = true -> steady I V (raise e).
Proof. intros He s Hs. split; assumption. Qed.

Lemma steady_bind {A B} (V : A -> Prop) (V' : B -> Prop) (m : M L A)
    (k : A -> M L B) :
  steady I V m -> (forall a, V a -> steady I V' (k a)) -> steady I V' (bind m k).
Proof.
  intros Hm Hk s Hs. unfold bind. destruct (Hm s Hs) as [H1 H2].
  destruct (m s) as [[a|e|] s1]; cbn [fst snd] in *.
  - apply Hk; assumption.
  - split; assumption.
  - contradiction.
Qed.

Lemma steady_try_except {A} (V : A -> Prop) (body : M L A)
    (handler : exn -> M L A) :
  steady I V body -> (forall e, steady I V (handler e)) ->
  steady I V (try_except body handler).
Proof.
  intros Hb Hh s Hs. unfold try_except. destruct (Hb s Hs) as [H1 H2].
  destruct (body s) as [[a|e|] s1]; cbn [fst snd] in *.
  - split; assumption.
  - rewrite H2. apply Hh, H1.
  - contradiction.
Qed.

Lemma steady_for_range (n : nat) (body : M L unit) :
  steady I (fun _ => True) body -> steady I (fun _ => True) (for_range n body).
Proof.
  intros Hb. induction n as [|n IH]; cbn [for_range].
  - now apply steady_ret.
  - eapply steady_bind; [exact Hb|]. intros ? _. exact IH.
Qed.

Lemma steady_get_frame (F : L -> Prop) :
  (forall s, I s -> F (frame s)) -> steady I F get_frame.
Proof. intros HF s Hs. split; [exact Hs | now apply HF]. Qed.
End Triples.

(** ** reader.py: what [main] does with a session it holds *)

Lemma poll_trace_uses_only (r : Session) (reply : calendar_reply) :
  Forall (uses_only r) (poll_trace reply).
Proof.
  unfold poll_trace.
  destruct reply as [| |[|event events] now1 now2];
    repeat match goal with
           | |- context [if ?b then _ else _] => destruct b
           end;
    repeat constructor.
Qed.

Section HeldSession.
Variable w : world.
Variable r : Session.
Variable U : list event -> Prop.
Hypothesis U_step : forall tr e, U tr -> uses_only r e -> U (tr ++ [e]).

Lemma U_app (l : list event) (tr : list event) :
  U tr -> Forall (uses_only r) l -> U (tr ++ l).
Proof.
  revert tr. induction l as [|e l IH]; intros tr Ht Hl.
  - now rewrite app_nil_r.
  - inversion Hl; subst.
    change (e :: l) with ([e] ++ l). rewrite app_assoc. apply IH; auto.
Qed.

Lemma steady_emit (e : event) :
  uses_only r e -> steady (held U r) (fun _ => True) (emit e).
Proof.
  intros He s (Hr & Hu). unfold emit; cbn [fst snd].
  split; [|exact Logic.I]. split; cbn [frame trace]; auto.
Qed.

Lemma steady_from_robot :
  steady (held U r) (fun m => m = MotorOf r) (from_robot w r).
Proof.
  intros s (Hr & Hu). unfold from_robot.
  destruct (from_robot_ok w (n_lookup s)); cbn [fst snd];
    (split; [split; cbn [frame trace]; [exact Hr | now apply U_step] | reflexivity]).
Qed.

Lemma steady_set_power (p : Q) :
  steady (held U r) (fun _ => True) (set_power w (MotorOf r) p).
Proof.
  intros s (Hr & Hu). unfold set_power.
  destruct (set_power_ok w (n_pulse s)); cbn [fst snd];
    (split; [split; cbn [frame trace]; [exact Hr | now apply U_step] |]);
    [exact Logic.I | reflexivity].
Qed.

Lemma steady_bind_cw (p : Z) :
  steady (held U r) (fun _ => True) (Reader.bind_cw_current_wheel_position p).
Proof. intros s (Hr & Hu). split; [split|]; cbn; auto. Qed.

Lemma steady_set_cw (p : Z) :
  steady (held U r) (fun _ => True) (Reader.set_cw_current_wheel_position p).
Proof.
  unfold Reader.set_cw_current_wheel_position.
  eapply steady_bind; [apply steady_bind_cw|]. intros _ _.
  now apply steady_emit.
Qed.

Lemma steady_set_current_wheel_position (p : Z) :
  steady (held U r) (fun _ => True) (Reader.set_current_wheel_position p).
Proof.
  intros s (Hr & Hu). rewrite reader_set_current_wheel_position_eq.
  cbn [fst snd]. split; [|exact Logic.I].
  split; cbn [frame trace Reader.robot]; [exact Hr | now apply U_step].
Qed.

Lemma steady_get_next_wheel_position :
  steady (held U r) (fun _ => True) (Reader.get_next_wheel_position w).
Proof.
  intros s (Hr & Hu). rewrite get_next_wheel_position_spec. cbn [fst snd].
  split.
  - split; cbn [frame trace]; [exact Hr|].
    apply U_app; [exact Hu | apply poll_trace_uses_only].
  - destruct (calendar w (n_poll s)); cbn [target_of]; auto.
Qed.

Lemma steady_pulse (direction : Z) :
  steady (held U r) (fun _ => True) (Reader.pulse w (MotorOf r) direction).
Proof.
  unfold Reader.pulse.
  eapply steady_bind; [apply steady_set_power|]. intros _ _.
  eapply steady_bind; [apply steady_get_frame with (F := fun _ => True); auto|].
  intros f _. apply steady_set_cw.
Qed.

Lemma steady_control_wheel (current : Z) :
  steady (held U r) (fun _ => True) (Reader.control_wheel w (MotorOf r) current).
Proof.
  unfold Reader.control_wheel.
  eapply steady_bind; [apply steady_bind_cw|]. intros _ _.
  eapply steady_bind; [apply steady_get_next_wheel_position|].
  intros [next|] _.
  - destruct (negb (current =? next)).
    + eapply steady_bind; [now apply steady_emit|]. intros _ _.
      destruct (Reader.plan current next) as [direction count].
      apply steady_try_except.
      * eapply steady_bind; [apply steady_for_range, steady_pulse|]. intros _ _.
        eapply steady_bind; [apply steady_get_frame with (F := fun _ => True); auto|].
        intros f _. now apply steady_ret.
      * intros e. eapply steady_bind; [now apply steady_emit|]. intros _ _.
        eapply steady_bind; [apply steady_get_frame with (F := fun _ => True); auto|].
        intros f _. now apply steady_ret.
    + now apply steady_ret.
  - eapply steady_bind; [now apply steady_emit|]. intros _ _.
    now apply steady_raise.
Qed.

Lemma steady_homing_rest :
  steady (held U r) (fun _ => True) (homing_rest w r).
Proof.
  unfold homing_rest.
  eapply steady_bind; [apply steady_from_robot|]. intros m ->.
  apply steady_for_range, steady_set_power.
Qed.

Lemma steady_cycle_rest :
  steady (held U r) (fun _ => True) (cycle_rest w r).
Proof.
  unfold cycle_rest.
  eapply steady_bind; [apply steady_from_robot|]. intros m ->.
  eapply steady_bind; [apply steady_get_frame with (F := fun _ => True); auto|].
  intros f _.
  eapply steady_bind; [apply steady_control_wheel|]. intros [position ex] _.
  eapply steady_bind; [apply steady_set_current_wheel_position|]. intros _ _.
  eapply steady_bind; [now apply steady_emit|]. intros _ _.
  destruct ex; now apply steady_emit.
Qed.
End HeldSession.

(** ** reader.py: one round of a loop of [main] *)

Lemma cycle_unfold (w : world) :
  Reader.cycle w =
  try_except (r <- Reader.ensure_robot w ;; cycle_rest w r)
    (fun _ => Reader.failed_to_connect).
Proof. reflexivity. Qed.

Lemma homing_loop_unfold (w : world) (fuel : nat) :
  Reader.homing_loop w (S fuel) =
  try_except (r <- Reader.ensure_robot w ;; homing_rest w r)
    (fun _ => Reader.failed_to_connect ;; Reader.homing_loop w fuel).
Proof. reflexivity. Qed.

Lemma ensure_robot_unbound (w : world) (s : state Reader.locals) :
  Reader.robot (frame s) = None ->
  Reader.ensure_robot w s =
  match first_ok (at_address_ok w) (n_connect s) 50 with
  | None => (Raise TooManyAttempts, unreachable s)
  | Some j => (Ret j, reconnected j s)
  end.
Proof.
  intros Hr. unfold Reader.ensure_robot.
  erewrite bind_Ret by (unfold get_frame; reflexivity).
  rewrite Hr. unfold Reader.connect. unfold bind at 1.
  rewrite connect_attempts_spec.
  destruct (first_ok (at_address_ok w) (n_connect s) 50); reflexivity.
Qed.

Lemma round_bound (w : world) (rest : Session -> M Reader.locals unit)
    (r : Session) (s : state Reader.locals) :
  Reader.robot (frame s) = Some r ->
  (r' <- Reader.ensure_robot w ;; rest r') s = rest r s.
Proof.
  intros Hr. now rewrite (bind_Ret _ _ _ _ _ (ensure_robot_bound w r s Hr)).
Qed.

Lemma round_unbound (w : world) (rest : Session -> M Reader.locals unit)
    (s : state Reader.locals) :
  Reader.robot (frame s) = None ->
  (r' <- Reader.ensure_robot w ;; rest r') s =
  match first_ok (at_address_ok w) (n_connect s) 50 with
  | None => (Raise TooManyAttempts, unreachable s)
  | Some j => rest j (reconnected j s)
  end.
Proof.
  intros Hr. unfold bind. rewrite (ensure_robot_unbound w s Hr).
  destruct (first_ok (at_address_ok w) (n_connect s) 50); reflexivity.
Qed.

Lemma failed_to_connect_held (r : Session) (s : state Reader.locals) :
  Reader.robot (frame s) = Some r ->
  Reader.failed_to_connect s =
  (Ret tt,
   mkState (n_connect s) (n_lookup s) (n_pulse s) (n_poll s)
     (trace s ++ [EvPrint "Failed to connect"; EvClose r])
     (Reader.mkLocals None (Reader.current_wheel_position (frame s))
        (Reader.cw_current_wheel_position (frame s)))).
Proof.
  intros Hr. unfold Reader.failed_to_connect, Reader.set_robot.
  unfold_machine. cbn. rewrite Hr. cbn. now rewrite <- app_assoc.
Qed.

Lemma failed_to_connect_unbound (s : state Reader.locals) :
  Reader.robot (frame s) = None ->
  Reader.failed_to_connect s =
  (Raise AttributeError,
   mkState (n_connect s) (n_lookup s) (n_pulse s) (n_poll s)
     (trace s ++ [EvPrint "Failed to connect"]) (frame s)).
Proof.
  intros Hr. unfold Reader.failed_to_connect, Reader.set_robot.
  unfold_machine. cbn. rewrite Hr. reflexivity.
Qed.

(** ** reader.py: how the connections are used *)

Lemma usage_of_app (a b : list event) :
  usage_of (a ++ b) = fold_left use b (usage_of a).
Proof. unfold usage_of. apply fold_left_app. Qed.

Lemma usage_open_step (r : Session) (tr : list event) (e : event) :
  usage_of tr = Open r -> uses_only r e -> usage_of (tr ++ [e]) = Open r.
Proof.
  intros Hu He. rewrite usage_of_app, Hu.
  destruct e; cbn in *; try contradiction; try reflexivity;
    subst; now rewrite Nat.eqb_refl.
Qed.

Lemma usage_failed_attempts (n : nat) :
  fold_left use (failed_attempts n) Idle = Idle.
Proof. induction n as [|n IH]; [reflexivity | exact IH]. Qed.

Lemma reconnected_held (j : nat) (s : state Reader.locals) :
  disciplined s -> Reader.robot (frame s) = None ->
  held (fun tr => usage_of tr = Open j) j (reconnected j s).
Proof.
  unfold disciplined, robot_usage. intros Hd Hr. rewrite Hr in Hd.
  split; [reflexivity|]. cbn [reconnected trace].
  rewrite usage_of_app, Hd, fold_left_app, usage_failed_attempts. reflexivity.
Qed.

Lemma held_disciplined (r : Session) (s : state Reader.locals) :
  held (fun tr => usage_of tr = Open r) r s -> disciplined s.
Proof.
  intros (Hr & Hu). unfold disciplined, robot_usage. now rewrite Hr.
Qed.

Section Rounds.
Variable w : world.
Variable rest : Session -> M Reader.locals unit.
Hypothesis rest_steady :
  forall r, steady (held (fun tr => usage_of tr = Open r) r) (fun _ => True) (rest r).

Lemma rest_ends (r : Session) (s : state Reader.locals) :
  held (fun tr => usage_of tr = Open r) r s ->
  match fst (rest r s) with
  | Ret _ => disciplined (snd (rest r s))
  | Raise e => is_Exception e = true /\ before_handler (snd (rest r s))
  | OutOfFuel => False
  end.
Proof.
  intros Hs. destruct (rest_steady r s Hs) as [Hheld Hres].
  pose proof (held_disciplined _ _ Hheld) as Hd.
  destruct (fst (rest r s)); auto.
  split; [exact Hres|]. split; [exact Hd|].
  destruct Hheld as (Hr & _). intros H. congruence.
Qed.

Lemma round_body :
  triple disciplined (r <- Reader.ensure_robot w ;; rest r)
    (fun res s =>
       match res with
       | Ret _ => disciplined s
       | Raise e => is_Exception e = true /\ before_handler s
       | OutOfFuel => False
       end).
Proof.
  intros s Hs. destruct (Reader.robot (frame s)) as [r|] eqn:Hr.
  - rewrite (round_bound w rest r s Hr). apply rest_ends.
    split; [exact Hr|]. unfold disciplined, robot_usage in Hs. now rewrite Hr in Hs.
  - rewrite (round_unbound w rest s Hr).
    destruct (first_ok (at_address_ok w) (n_connect s) 50) as [j|].
    + apply rest_ends, reconnected_held; assumption.
    + cbn [fst snd]. split; [reflexivity|].
      unfold disciplined, robot_usage in Hs. rewrite Hr in Hs.
      split.
      * unfold disciplined, robot_usage, unreachable. cbn [trace frame].
        rewrite Hr, usage_of_app, Hs. apply usage_failed_attempts.
      * intros _. exists (trace s). reflexivity.
Qed.
End Rounds.

Lemma failed_to_connect_ends :
  triple before_handler Reader.failed_to_connect
    (fun res s =>
       disciplined s /\
       match res with
       | Ret _ => True
       | Raise e => gave_up e s
       | OutOfFuel => False
       end).
Proof.
  intros s (Hd & Hn). unfold disciplined, robot_usage in Hd.
  destruct (Reader.robot (frame s)) as [r|] eqn:Hr.
  - rewrite (failed_to_connect_held r s Hr). cbn [fst snd].
    split; [|exact Logic.I].
    unfold disciplined, robot_usage. cbn [trace frame Reader.robot].
    rewrite usage_of_app, Hd. cbn. now rewrite Nat.eqb_refl.
  - rewrite (failed_to_connect_unbound s Hr). cbn [fst snd].
    split.
    + unfold disciplined, robot_usage. cbn [trace frame]. rewrite Hr.
      rewrite usage_of_app, Hd. reflexivity.
    + split; [reflexivity|]. split; [exact Hr|].
      destruct (Hn eq_refl) as [before Hb]. exists before.
      cbn [trace]. rewrite Hb, <- app_assoc. reflexivity.
Qed.

Section ReaderEnds.
Variable w : world.

Lemma cycle_ends :
  triple disciplined (Reader.cycle w)
    (fun res s =>
       disciplined s /\
       match res with
       | Ret _ => True
       | Raise e => gave_up e s
       | OutOfFuel => False
       end).
Proof.
  rewrite cycle_unfold.
  eapply triple_try_except.
  - apply round_body. intros r. apply steady_cycle_rest. apply usage_open_step.
  - intros e He. cbv beta.
    eapply triple_conseq; [| |apply failed_to_connect_ends].
    + intros s (_ & H). exact H.
    + auto.
  - cbv beta. intros a s H. split; [exact H | exact Logic.I].
  - cbv beta. intros e s He (H & _). congruence.
  - cbv beta. intros s [].
Qed.

Lemma cycle_loop_end : triple disciplined (Reader.cycle w) loop_end.
Proof.
  eapply triple_conseq; [| |apply cycle_ends]; [auto|].
  intros res s (Hd & H). split; [exact Hd|]. destruct res; auto.
Qed.

Lemma polling_loop_ends (cycles : nat) :
  triple disciplined (Reader.polling_loop w cycles) loop_end.
Proof.
  induction cycles as [|cycles IH]; cbn [Reader.polling_loop].
  - intros s Hs. split; [exact Hs | exact Logic.I].
  - eapply triple_bind; [apply cycle_loop_end | | |].
    + intros a. eapply triple_conseq; [| |exact IH]; [|auto].
      intros s (Hd & _). exact Hd.
    + intros e s H. exact H.
    + intros s (Hd & _). split; [exact Hd | exact Logic.I].
Qed.

Lemma homing_loop_ends (fuel : nat) :
  triple disciplined (Reader.homing_loop w fuel) loop_end.
Proof.
  induction fuel as [|fuel IH].
  - intros s Hs. split; [exact Hs | exact Logic.I].
  - rewrite homing_loop_unfold.
    eapply triple_try_except.
    + apply round_body. intros r. apply steady_homing_rest. apply usage_open_step.
    + intros e He. cbv beta.
      eapply triple_bind.
      * eapply triple_conseq; [| |apply failed_to_connect_ends].
        -- intros s (_ & H). exact H.
        -- intros res s H. exact H.
      * intros a. eapply triple_conseq; [| |exact IH]; [|auto].
        intros s (Hd & _). exact Hd.
      * intros e' s (Hd & H). split; assumption.
      * intros s (_ & []).
    + cbv beta. intros a s H. split; [exact H | exact Logic.I].
    + cbv beta. intros e s He (H & _). congruence.
    + cbv beta. intros s [].
Qed.

Lemma after_connect_ends (fuel cycles : nat) :
  triple disciplined
    (Reader.homing_loop w fuel ;;
     Reader.set_current_wheel_position 0 ;;
     Reader.polling_loop w cycles)
    loop_end.
Proof.
  eapply triple_bind; [apply homing_loop_ends | | |].
  - intros a.
    eapply triple_bind
      with (Qm := fun res s => disciplined s /\ exists u, res = Ret u).
    + intros s (Hd & _). rewrite reader_set_current_wheel_position_eq.
      cbn [fst snd]. split; [|now exists tt].
      unfold disciplined, robot_usage in *.
      cbn [trace frame Reader.robot]. rewrite usage_of_app, Hd.
      destruct (Reader.robot (frame s)); reflexivity.
    + intros u. eapply triple_conseq; [| |apply polling_loop_ends]; [|auto].
      intros s (Hd & _). exact Hd.
    + intros e s (_ & u & H). discriminate.
    + intros s (_ & u & H). discriminate.
  - intros e s H. exact H.
  - intros s (Hd & _). split; [exact Hd | exact Logic.I].
Qed.
End ReaderEnds.

(** ** reader.py: how a cycle, and [main], can end *)

Lemma cycle_rest_caught (w : world) (r : Session) (s : state Reader.locals) :
  Reader.robot (frame s) = Some r ->
  Reader.robot (frame (snd (cycle_rest w r s))) = Some r /\
  match fst (cycle_rest w r s) with
  | Ret _ => True
  | Raise e => is_Exception e = true
  | OutOfFuel => False
  end.
Proof.
  intros Hr.
  destruct (steady_cycle_rest w r (fun _ => True) (fun _ _ _ _ => Logic.I) s)
    as [(Hr' & _) Hres].
  - split; [exact Hr | exact Logic.I].
  - split; assumption.
Qed.

Lemma cycle_with_session (w : world) (r : Session) (s : state Reader.locals) :
  Reader.robot (frame s) = Some r ->
  fst (try_except (cycle_rest w r) (fun _ => Reader.failed_to_connect) s) = Ret tt.
Proof.
  intros Hr. unfold try_except.
  destruct (cycle_rest_caught w r s Hr) as [Hr' Hres].
  destruct (cycle_rest w r s) as [[[]|e|] s1]; cbn [fst snd] in *.
  - reflexivity.
  - rewrite Hres, (failed_to_connect_held r s1 Hr'). reflexivity.
  - contradiction.
Qed.

(** X9. One pass of the polling loop of reader.py either completes or
    raises AttributeError, nothing else.  It raises exactly when [main]
    holds no session and the fifty attempts of [connect] all fail: the
    handler then calls [close] on [None], so what leaves [main] is that
    AttributeError and not the exception of [connect].  In that case the
    pass has polled no target and sent no pulse. *)
Theorem X9_cycle_outcomes (w : world) (s : state Reader.locals) :
  let run := Reader.cycle w s in
  (fst run = Ret tt \/ fst run = Raise AttributeError) /\
  (fst run = Raise AttributeError <->
   Reader.robot (frame s) = None /\
   forall i, (i < 50)%nat -> at_address_ok w (n_connect s + i) = false) /\
  (fst run = Raise AttributeError ->
   snd run =
   mkState (n_connect s + 50) (n_lookup s) (n_pulse s) (n_poll s)
     (trace s ++ failed_attempts 50 ++ [EvPrint "Failed to connect"])
     (frame s)).
Proof.
  intros run. subst run. rewrite cycle_unfold.
  destruct (Reader.robot (frame s)) as [r|] eqn:Hr.
  - assert (E : fst (try_except (r' <- Reader.ensure_robot w ;; cycle_rest w r')
                       (fun _ => Reader.failed_to_connect) s) = Ret tt).
    { unfold try_except. rewrite (round_bound w (cycle_rest w) r s Hr).
      exact (cycle_with_session w r s Hr). }
    rewrite E. split; [now left|]. split; [|discriminate].
    split; [discriminate | intros [H _]; discriminate].
  - pose proof (first_ok_spec (at_address_ok w) 50 (n_connect s)) as Hf.
    unfold try_except. rewrite (round_unbound w (cycle_rest w) s Hr).
    destruct (first_ok (at_address_ok w) (n_connect s) 50) as [j|].
    + destruct Hf as (Hj & Hok & _).
      pose proof (cycle_with_session w j (reconnected j s) eq_refl) as E.
      unfold try_except in E. rewrite E.
      split; [now left|]. split; [|discriminate].
      split; [discriminate|]. intros [_ Hall].
      specialize (Hall (j - n_connect s)%nat).
      replace (n_connect s + (j - n_connect s))%nat with j in Hall by lia.
      rewrite Hall in Hok by lia. discriminate.
    + cbn [is_Exception]. rewrite (failed_to_connect_unbound (unreachable s) Hr).
      cbn [fst snd unreachable n_connect n_lookup n_pulse n_poll trace frame].
      split; [now right|]. split.
      * split; [intros _; split; [reflexivity | exact Hf] | reflexivity].
      * intros _. now rewrite <- app_assoc.
Qed.

Lemma main_ends (w : world) (fuel cycles : nat) :
  let run := Reader.main w fuel cycles (initial_state Reader.initial_locals) in
  disciplined (snd run) /\
  forall e, fst run = Raise e ->
    (e = TooManyAttempts /\ first_ok (at_address_ok w) 0 50 = None) \/
    gave_up e (snd run).
Proof.
  intros run. subst run. unfold Reader.main.
  erewrite bind_Ret by reflexivity. erewrite bind_Ret by reflexivity.
  unfold Reader.connect.
  destruct (first_ok (at_address_ok w) 0 50) as [j|] eqn:Hf.
  - erewrite bind_Ret.
    2:{ rewrite connect_attempts_spec. cbn [n_connect initial_state].
        rewrite Hf. reflexivity. }
    erewrite bind_Ret by reflexivity. erewrite bind_Ret by reflexivity.
    match goal with |- context [bind ?m ?k ?s0] =>
      destruct (after_connect_ends w fuel cycles s0) as [Hd He]
    end.
    + unfold disciplined, robot_usage.
      cbn [n_connect n_lookup n_pulse n_poll trace frame Reader.robot
           Reader.initial_locals initial_state].
      rewrite !usage_of_app. cbn [usage_of fold_left use app].
      rewrite fold_left_app, usage_failed_attempts. reflexivity.
    + split; [exact Hd|]. intros e E. right. rewrite E in He. exact He.
  - erewrite bind_Raise.
    2:{ rewrite connect_attempts_spec. cbn [n_connect initial_state].
        rewrite Hf. reflexivity. }
    cbn [fst snd]. split.
    + unfold disciplined, robot_usage.
      cbn [n_connect n_lookup n_pulse n_poll trace frame Reader.robot
           Reader.initial_locals initial_state].
      rewrite !usage_of_app. cbn [usage_of fold_left use app].
      apply usage_failed_attempts.
    + intros e E. inversion E; subst e. left. split; reflexivity.
Qed.

(** X10. Past its first connection, [main] of reader.py can be left by an
    exception in one way only.  An exception that ends [main] is either the
    one of [connect] at line 150, all of the first fifty attempts having
    failed, or the AttributeError of [robot.close()] on [None]: then [robot]
    is [None] and the run ends with fifty failed attempts and the message
    of the handler.  No failure of the motor, of the calendar or of a plan
    ends the script. *)
Theorem X10_main_ends (w : world) (fuel cycles : nat) (e : exn) :
  let run := Reader.main w fuel cycles (initial_state Reader.initial_locals) in
  fst run = Raise e ->
  (e = TooManyAttempts /\
   forall i, (i < 50)%nat -> at_address_ok w i = false) \/
  (e = AttributeError /\
   Reader.robot (frame (snd run)) = None /\
   exists before,
     trace (snd run) =
       before ++ failed_attempts 50 ++ [EvPrint "Failed to connect"]).
Proof.
  intros run Hrun. subst run.
  destruct (main_ends w fuel cycles) as [_ He].
  destruct (He e Hrun) as [(-> & Hf)|Hg].
  - left. split; [reflexivity|].
    pose proof (first_ok_spec (at_address_ok w) 50 0) as Hs.
    rewrite Hf in Hs. exact Hs.
  - right. exact Hg.
Qed.

Lemma X10_main_ends_witness :
  fst (Reader.main world_no_event_then_offline 1 2
         (initial_state Reader.initial_locals)) = Raise AttributeError /\
  Reader.robot
    (frame (snd (Reader.main world_no_event_then_offline 1 2
                   (initial_state Reader.initial_locals)))) = None.
Proof.
  split; [reflexivity|].
  destruct (X10_main_ends world_no_event_then_offline 1 2 AttributeError eq_refl)
    as [(H & _)|(_ & H & _)]; [discriminate H | exact H].
Defined.

(** X11. reader.py uses its connections one at a time.  Over any run of
    [main], a connection is attempted only while no session is open, every
    motor lookup, pulse and [close] goes to the session that is open at
    that moment, and no session is closed twice; at the end the variable
    [robot] names the open session, and is [None] when there is none. *)
Theorem X11_one_session_at_a_time (w : world) (fuel cycles : nat) :
  let final :=
    snd (Reader.main w fuel cycles (initial_state Reader.initial_locals)) in
  usage_of (trace final) =
  match Reader.robot (frame final) with
  | Some r => Open r
  | None => Idle
  end.
Proof.
  intros final. subst final.
  destruct (main_ends w fuel cycles) as [Hd _]. exact Hd.
Qed.

(** ** reader.py: homing *)

Lemma set_powers_spec {L} (w : world) (r : Session) (p : Q) (n : nat)
    (s : state L) :
  for_range n (set_power w (MotorOf r) p) s =
  let j := successes (set_power_ok w) (n_pulse s) n in
  if Nat.eqb j n
  then (Ret tt,
        mkState (n_connect s) (n_lookup s) (n_pulse s + n) (n_poll s)
          (trace s ++ repeat (EvSetPower r p true) n) (frame s))
  else (Raise MotorError,
        mkState (n_connect s) (n_lookup s) (S (n_pulse s + j)) (n_poll s)
          (trace s ++ repeat (EvSetPower r p true) j ++ [EvSetPower r p false])
          (frame s)).
Proof.
  revert s. induction n as [|n IH]; intros s.
  - destruct s; cbn. unfold ret. now rewrite Nat.add_0_r, app_nil_r.
  - cbn [for_range successes]. unfold bind at 1. unfold set_power at 1.
    destruct (set_power_ok w (n_pulse s)) eqn:Hok.
    + rewrite IH. cbn [n_connect n_lookup n_pulse n_poll trace frame].
      cbv zeta.
      set (j := successes (set_power_ok w) (S (n_pulse s)) n).
      change (S j =? S n)%nat with (j =? n)%nat.
      replace (S (n_pulse s) + n)%nat with (n_pulse s + S n)%nat by lia.
      replace (S (n_pulse s) + j)%nat with (n_pulse s + S j)%nat by lia.
      cbn [repeat]. rewrite <- !app_assoc. cbn [app].
      destruct (j =? n)%nat; reflexivity.
    + cbn. now rewrite Nat.add_0_r.
Qed.

Lemma homing_rest_returns (w : world) (r : Session) (s s' : state Reader.locals) :
  homing_rest w r s = (Ret tt, s') ->
  frame s' = frame s /\
  trace s' = trace s ++ EvFromRobot r true :: repeat (EvSetPower r (1 # 6) true) 6.
Proof.
  unfold homing_rest. unfold bind at 1. unfold from_robot at 1.
  destruct (from_robot_ok w (n_lookup s)); [|discriminate].
  rewrite set_powers_spec. cbv zeta.
  cbn [n_connect n_lookup n_pulse n_poll trace frame].
  destruct (Nat.eqb _ 6); [|discriminate].
  intros H. inversion H; subst s'. cbn [frame trace].
  split; [reflexivity|]. now rewrite <- app_assoc.
Qed.

Lemma homing_rest_first_try (w : world) (r : Session) (s : state Reader.locals) :
  from_robot_ok w (n_lookup s) = true ->
  (forall i, (i < 6)%nat -> set_power_ok w (n_pulse s + i) = true) ->
  homing_rest w r s =
  (Ret tt,
   mkState (n_connect s) (S (n_lookup s)) (n_pulse s + 6) (n_poll s)
     (trace s ++ EvFromRobot r true :: repeat (EvSetPower r (1 # 6) true) 6)
     (frame s)).
Proof.
  intros Hl Hp. unfold homing_rest. unfold bind at 1. unfold from_robot at 1.
  rewrite Hl, set_powers_spec. cbv zeta.
  cbn [n_connect n_lookup n_pulse n_poll trace frame].
  rewrite (successes_all _ _ _ Hp), Nat.eqb_refl.
  now rewrite <- app_assoc.
Qed.

Lemma homing_loop_returns (w : world) (fuel : nat) (s s' : state Reader.locals) :
  Reader.homing_loop w fuel s = (Ret tt, s') ->
  exists r before,
    Reader.robot (frame s') = Some r /\
    trace s' = before ++ EvFromRobot r true :: repeat (EvSetPower r (1 # 6) true) 6.
Proof.
  revert s. induction fuel as [|fuel IH]; intros s; [discriminate|].
  rewrite homing_loop_unfold. unfold try_except.
  destruct ((r <- Reader.ensure_robot w ;; homing_rest w r) s)
    as [[[]|e|] s1] eqn:Eb.
  - intros H. inversion H; subst s1. clear H.
    destruct (Reader.robot (frame s)) as [r|] eqn:Hr.
    + rewrite (round_bound w (homing_rest w) r s Hr) in Eb.
      destruct (homing_rest_returns w r s s' Eb) as [Hf Ht].
      exists r, (trace s). rewrite Hf. split; assumption.
    + rewrite (round_unbound w (homing_rest w) s Hr) in Eb.
      destruct (first_ok (at_address_ok w) (n_connect s) 50) as [j|];
        [|discriminate].
      destruct (homing_rest_returns w j _ s' Eb) as [Hf Ht].
      exists j, (trace (reconnected j s)). rewrite Hf. split; [reflexivity|exact Ht].
  - destruct (is_Exception e); [|discriminate].
    unfold bind. destruct (Reader.failed_to_connect s1) as [[[]|e'|] s2];
      try discriminate.
    apply IH.
  - discriminate.
Qed.

(** X12. Homing in reader.py returns only on a full round: when the homing
    loop returns, the last seven actions of the run are one successful motor
    lookup and six successful pulses of power 1/6, all on the session that
    [robot] then names.  Pulses sent in a round that failed are not
    counted: the next round starts again at six.  With a session in hand,
    the motor found and six pulses answered, the first round is the last
    and makes no connection attempt. *)
Theorem X12_homing_full_round (w : world) (fuel : nat) (s : state Reader.locals) :
  let run := Reader.homing_loop w fuel s in
  (fst run = Ret tt ->
   exists r before,
     Reader.robot (frame (snd run)) = Some r /\
     trace (snd run) =
       before ++ EvFromRobot r true :: repeat (EvSetPower r (1 # 6) true) 6) /\
  (forall r,
     fuel <> 0%nat ->
     Reader.robot (frame s) = Some r ->
     from_robot_ok w (n_lookup s) = true ->
     (forall i, (i < 6)%nat -> set_power_ok w (n_pulse s + i) = true) ->
     run =
     (Ret tt,
      mkState (n_connect s) (S (n_lookup s)) (n_pulse s + 6) (n_poll s)
        (trace s ++ EvFromRobot r true :: repeat (EvSetPower r (1 # 6) true) 6)
        (frame s))).
Proof.
  intros run. subst run. split.
  - intros H. apply (homing_loop_returns w fuel s).
    destruct (Reader.homing_loop w fuel s) as [res s']. cbn [fst snd] in *.
    now subst res.
  - intros r Hfuel Hr Hl Hp. destruct fuel as [|fuel]; [contradiction|].
    rewrite homing_loop_unfold. unfold try_except.
    rewrite (round_bound w (homing_rest w) r s Hr).
    now rewrite (homing_rest_first_try w r s Hl Hp).
Qed.

Lemma X12_homing_full_round_witness :
  Reader.homing_loop (world_of_targets (fun _ => 0)) 1
    (mkState 1 0 0 0 [] (Reader.mkLocals (Some 0%nat) 0 0))
  = (Ret tt,
     mkState 1 1 6 0
       (EvFromRobot 0%nat true :: repeat (EvSetPower 0%nat (1 # 6) true) 6)
       (Reader.mkLocals (Some 0%nat) 0 0)).
Proof.
  apply (proj2 (X12_homing_full_round (world_of_targets (fun _ => 0)) 1
                  (mkState 1 0 0 0 [] (Reader.mkLocals (Some 0%nat) 0 0)))
           0%nat).
  - discriminate.
  - reflexivity.
  - reflexivity.
  - intros i _. reflexivity.
Defined.

(** ** reader.py: the credentials of the calendar *)

Lemma get_creds_cases (sv : Credentials.services) (st : Credentials.files) :
  Credentials.get_creds sv st =
  if Credentials.from_client_secrets_file sv then
    match Credentials.run_local_server sv with
    | Some c =>
        (Credentials.Ok c,
         Credentials.mkFiles (Credentials.token_json st)
           (Credentials.actions st ++ [Credentials.RunLocalServer]))
    | None =>
        (Credentials.Error Credentials.FlowError,
         Credentials.mkFiles (Credentials.token_json st)
           (Credentials.actions st ++ [Credentials.RunLocalServer]))
    end
  else (Credentials.Error Credentials.FileNotFoundError, st).
Proof.
  unfold Credentials.get_creds.
  destruct (Credentials.from_client_secrets_file sv); [|reflexivity].
  unfold Credentials.bind, Credentials.act.
  destruct (Credentials.run_local_server sv); reflexivity.
Qed.

Ltac credentials_cases sv :=
  unfold Credentials.load_credentials, Credentials.renew, Credentials.read_token,
    Credentials.try_except_RefreshError, Credentials.do_refresh,
    Credentials.write_token, Credentials.bind, Credentials.act,
    Credentials.ret, Credentials.raise;
  cbn [Credentials.token_json Credentials.actions];
  repeat match goal with
         | |- context [Credentials.get_creds sv ?st] =>
             rewrite (get_creds_cases sv st)
         | |- context [match Credentials.from_authorized_user_file sv ?t with _ => _ end] =>
             destruct (Credentials.from_authorized_user_file sv t) as [?c|] eqn:?Hparse
         | |- context [if Credentials.valid ?c then _ else _] =>
             destruct (Credentials.valid c) eqn:?Hvalid
         | |- context [if (Credentials.expired ?c && ?b)%bool then _ else _] =>
             destruct (Credentials.expired c && b)%bool eqn:?Hrefreshable
         | |- context [match Credentials.refresh sv ?c with _ => _ end] =>
             destruct (Credentials.refresh sv c) as [?c'| |] eqn:?Hrefresh
         | |- context [if Credentials.from_client_secrets_file sv then _ else _] =>
             destruct (Credentials.from_client_secrets_file sv) eqn:?Hsecrets
         | |- context [match Credentials.run_local_server sv with _ => _ end] =>
             destruct (Credentials.run_local_server sv) as [?c''|] eqn:?Hflow
         end;
  cbn [fst snd Credentials.token_json Credentials.actions app].

(** X13. The credentials block of [get_next_wheel_position] (reader.py,
    lines 62-79).  Valid credentials found in token.json are used as they
    are: no refresh, no login, no write.  Otherwise, when the block
    completes, token.json holds the JSON of the very credentials it hands
    on, written as its last action.  When it raises, token.json is left as
    it was, and the exception is never the RefreshError of a refused
    refresh: that one is answered by the login flow.  The login flow runs
    exactly when credentials.json loads and either there is no token.json,
    or its credentials are invalid and cannot be refreshed (not expired, or
    without a refresh token), or the refresh is refused. *)
Theorem X13_credentials (sv : Credentials.services) (file : option string) :
  let run := Credentials.load_credentials sv (Credentials.mkFiles file []) in
  (forall text c,
     file = Some text ->
     Credentials.from_authorized_user_file sv text = Some c ->
     Credentials.valid c = true ->
     run = (Credentials.Ok c, Credentials.mkFiles file [])) /\
  (forall c,
     fst run = Credentials.Ok c ->
     snd run = Credentials.mkFiles file [] \/
     (Credentials.token_json (snd run) = Some (Credentials.to_json c) /\
      exists before,
        Credentials.actions (snd run)
        = before ++ [Credentials.WriteToken (Credentials.to_json c)] /\
        forall content, ~ In (Credentials.WriteToken content) before)) /\
  (forall e,
     fst run = Credentials.Error e ->
     e <> Credentials.RefreshError /\
     Credentials.token_json (snd run) = file /\
     forall content, ~ In (Credentials.WriteToken content)
                         (Credentials.actions (snd run))) /\
  (In Credentials.RunLocalServer (Credentials.actions (snd run)) <->
   Credentials.from_client_secrets_file sv = true /\
   match file with
   | None => True
   | Some text =>
       match Credentials.from_authorized_user_file sv text with
       | None => False
       | Some c =>
           Credentials.valid c = false /\
           ((Credentials.expired c
             && Credentials.truthy (Credentials.refresh_token c))%bool = false \/
            Credentials.refresh sv c = Credentials.Refused)
       end
   end).
Proof.
  intros run. subst run.
  split; [|split; [|split]].
  - intros text c -> Hparse Hvalid.
    unfold Credentials.load_credentials, Credentials.read_token, Credentials.bind.
    cbn [Credentials.token_json]. now rewrite Hparse, Hvalid.
  - intros c. destruct file as [text|]; credentials_cases sv;
      intros H; inversion H; subst; clear H;
      try (left; reflexivity);
      right; (split; [reflexivity|]);
      match goal with
      | |- exists before, ?l ++ [?x] = _ /\ _ => exists l
      | |- exists before, [?x] = _ /\ _ => exists []
      | |- exists before, [?y; ?x] = _ /\ _ => exists [y]
      | |- exists before, [?z; ?y; ?x] = _ /\ _ => exists [z; y]
      end;
      (split; [reflexivity|]); intros content Hin; cbn in Hin;
      repeat (destruct Hin as [Hin|Hin]; try discriminate); assumption.
  - intros e. destruct file as [text|]; credentials_cases sv;
      intros H; inversion H; subst; clear H;
      (split; [discriminate|]); (split; [reflexivity|]);
      intros content Hin; cbn in Hin;
      repeat (destruct Hin as [Hin|Hin]; try discriminate); assumption.
  - destruct file as [text|]; credentials_cases sv; cbn;
      split; intros H;
      repeat match goal with
             | H : _ \/ _ |- _ => destruct H
             | H : _ /\ _ |- _ => destruct H
             | H : False |- _ => contradiction
             end;
      try discriminate; try congruence; auto;
      try (split; [reflexivity|]; auto).
Qed.

Lemma X13_credentials_witness :
  Credentials.load_credentials services_login
    (Credentials.mkFiles (Some "saved") [])
  = (Credentials.Ok saved_credentials, Credentials.mkFiles (Some "saved") []).
Proof.
  apply (proj1 (X13_credentials services_login (Some "saved"))
           "saved" saved_credentials);
    reflexivity.
Defined.

Lemma load_credentials_valid (sv : Credentials.services) (st : Credentials.files)
    (text : string) (c : Credentials.credentials) :
  Credentials.token_json st = Some text ->
  Credentials.from_authorized_user_file sv text = Some c ->
  Credentials.valid c = true ->
  Credentials.load_credentials sv st = (Credentials.Ok c, st).
Proof.
  intros Hfile Hparse Hvalid.
  unfold Credentials.load_credentials, Credentials.read_token, Credentials.bind.
  now rewrite Hfile, Hparse, Hvalid.
Qed.

Lemma load_credentials_token (sv : Credentials.services) (file : option string)
    (c : Credentials.credentials) :
  let run := Credentials.load_credentials sv (Credentials.mkFiles file []) in
  fst run = Credentials.Ok c ->
  (exists text,
     Credentials.token_json (snd run) = Some text /\
     Credentials.from_authorized_user_file sv text = Some c /\
     Credentials.valid c = true) \/
  Credentials.token_json (snd run) = Some (Credentials.to_json c).
Proof.
  intros run. subst run.
  destruct file as [text|]; credentials_cases sv;
    intros H; inversion H; subst; clear H;
    try (right; reflexivity).
  left. exists text. repeat split; assumption.
Qed.

(** X14. What one call saves, the next call loads.  Provided that the
    credentials handed on by a call are valid and that the library reads
    their JSON back as the same credentials, the credentials block of a
    following call finds them in token.json and returns them without a
    refresh, a login or a write. *)
Theorem X14_saved_is_loaded (sv : Credentials.services) (file : option string)
    (c : Credentials.credentials) :
  let run := Credentials.load_credentials sv (Credentials.mkFiles file []) in
  fst run = Credentials.Ok c ->
  Credentials.valid c = true ->
  Credentials.from_authorized_user_file sv (Credentials.to_json c) = Some c ->
  Credentials.load_credentials sv (snd run) = (Credentials.Ok c, snd run).
Proof.
  intros run Hok Hvalid Hparse.
  destruct (load_credentials_token sv file c Hok) as [(text & Hf & Hp & _)|Hf].
  - exact (load_credentials_valid sv (snd run) text c Hf Hp Hvalid).
  - exact (load_credentials_valid sv (snd run) _ c Hf Hparse Hvalid).
Qed.

Lemma X14_saved_is_loaded_witness :
  Credentials.actions
    (snd (Credentials.load_credentials services_login
            (Credentials.mkFiles None [])))
  = [Credentials.RunLocalServer; Credentials.WriteToken "saved"] /\
  Credentials.load_credentials services_login
    (snd (Credentials.load_credentials services_login
            (Credentials.mkFiles None [])))
  = (Credentials.Ok saved_credentials,
     snd (Credentials.load_credentials services_login
            (Credentials.mkFiles None []))).
Proof.
  split; [reflexivity|].
  apply (X14_saved_is_loaded services_login None saved_credentials);
    reflexivity.
Defined.

(** ** reader.py: the estimate and the acknowledged pulses *)

Lemma acknowledged_app (a b : list event) :
  acknowledged (a ++ b) = acknowledged a + acknowledged b.
Proof.
  induction a as [|e a IH]; cbn [app acknowledged]; [reflexivity|].
  destruct e as [| | |r p [|]| | | |]; try exact IH.
  rewrite IH. lia.
Qed.

Lemma acknowledged_poll_trace (reply : calendar_reply) :
  acknowledged (poll_trace reply) = 0.
Proof.
  unfold poll_trace.
  destruct reply as [| |[|? ?] ? ?];
    repeat match goal with
           | |- context [if ?b then _ else _] => destruct b
           end;
    reflexivity.
Qed.

Lemma acknowledged_failed_attempts (n : nat) :
  acknowledged (failed_attempts n) = 0.
Proof. induction n as [|n IH]; [reflexivity | exact IH]. Qed.

Lemma acknowledged_stepped (robot : Session) (direction : Z) (j : nat) (c : Z) :
  acknowledged (stepped robot direction c j) = Z.of_nat j * Z.sgn direction.
Proof.
  revert c. induction j as [|j IH]; intros c; [reflexivity|].
  cbn [stepped acknowledged]. rewrite IH, pulse_sense_power.
  change (Z.sgn (Qnum (1 # 6))) with 1. lia.
Qed.

Lemma control_wheel_acknowledged (w : world) (r : Session) (c : Z)
    (s : state Reader.locals) :
  let run := Reader.control_wheel w (MotorOf r) c s in
  Reader.robot (frame (snd run)) = Reader.robot (frame s) /\
  Reader.current_wheel_position (frame (snd run))
  = Reader.current_wheel_position (frame s) /\
  exists new,
    trace (snd run) = trace s ++ new /\
    match fst run with
    | Ret (position, _) => acknowledged new = c - position
    | Raise e => is_Exception e = true /\ acknowledged new = 0
    | OutOfFuel => False
    end.
Proof.
  intros run. subst run. rewrite control_wheel_polls.
  destruct (target_of (calendar w (n_poll s))) as [[next|]|e|] eqn:Htarget.
  - destruct (Z.eqb_spec c next) as [E|E].
    + cbn [fst snd polled trace frame Reader.robot Reader.current_wheel_position].
      split; [reflexivity|]. split; [reflexivity|].
      eexists. split; [reflexivity|].
      rewrite acknowledged_poll_trace. lia.
    + rewrite pulses_spec. unfold after_pulses.
      set (d := fst (Reader.plan c next)). set (n := snd (Reader.plan c next)).
      cbn [announced n_pulse].
      set (j := successes (set_power_ok w) (n_pulse s) n).
      assert (Hd : Z.sgn d = d) by apply sgn_copysign.
      assert (Hack : acknowledged (poll_trace (calendar w (n_poll s))
                                     ++ [EvPrint "turning wheel from"]
                                     ++ stepped r d c j)
                     = c - (c - d * Z.of_nat j)).
      { rewrite !acknowledged_app, acknowledged_poll_trace, acknowledged_stepped.
        cbn [acknowledged]. rewrite Hd. lia. }
      destruct (Nat.eqb j n); unfold wheel_return, pulsed, announced;
        cbn [is_Exception fst snd n_connect n_lookup n_pulse n_poll trace frame
             Reader.robot Reader.current_wheel_position
             Reader.cw_current_wheel_position];
        (split; [reflexivity|]); (split; [reflexivity|]).
      * exists (poll_trace (calendar w (n_poll s))
                  ++ [EvPrint "turning wheel from"] ++ stepped r d c j).
        split; [now rewrite <- !app_assoc | exact Hack].
      * exists ((poll_trace (calendar w (n_poll s))
                   ++ [EvPrint "turning wheel from"] ++ stepped r d c j)
                  ++ [EvSetPower r (pulse_power (1 # 6) d) false;
                      EvPrint "exception happened"]).
        split; [now rewrite <- !app_assoc|].
        rewrite acknowledged_app, Hack. cbn [acknowledged]. lia.
  - cbn [fst snd announced trace frame Reader.robot Reader.current_wheel_position].
    split; [reflexivity|]. split; [reflexivity|].
    eexists. split; [reflexivity|]. split; [reflexivity|].
    rewrite acknowledged_app, acknowledged_poll_trace. reflexivity.
  - cbn [fst snd polled trace frame Reader.robot Reader.current_wheel_position].
    split; [reflexivity|]. split; [reflexivity|].
    eexists. split; [reflexivity|]. split.
    + destruct (calendar w (n_poll s)); cbn in Htarget; inversion Htarget.
      reflexivity.
    + apply acknowledged_poll_trace.
  - destruct (calendar w (n_poll s)); discriminate.
Qed.

Lemma held_cycle_acknowledged (w : world) (r : Session) (s : state Reader.locals) :
  Reader.robot (frame s) = Some r ->
  let run := try_except (cycle_rest w r) (fun _ => Reader.failed_to_connect) s in
  exists new,
    trace (snd run) = trace s ++ new /\
    acknowledged new
    = Reader.current_wheel_position (frame s)
      - Reader.current_wheel_position (frame (snd run)).
Proof.
  intros Hr run.
  remember run as result eqn:Erun. subst run.
  unfold try_except, cycle_rest in Erun.
  destruct (from_robot_ok w (n_lookup s)) eqn:Hl.
  - erewrite bind_Ret in Erun by (unfold from_robot; rewrite Hl; reflexivity).
    erewrite bind_Ret in Erun by reflexivity.
    unfold bind at 1 in Erun.
    match type of Erun with context [Reader.control_wheel w ?m ?c ?st] =>
      pose proof (control_wheel_acknowledged w r c st) as H; cbv zeta in H;
      destruct (Reader.control_wheel w m c st) as [[[position ex]|e|] s3]
    end;
      cbn [fst snd n_connect n_lookup n_pulse n_poll trace frame] in H;
      destruct H as (Hrob & Hcur & new & Htr & Hres).
    + rewrite (bind_Ret _ _ _ _ _ (reader_set_current_wheel_position_eq _ _)) in Erun.
      erewrite bind_Ret in Erun by reflexivity.
      exists ((EvFromRobot r true :: new)
                ++ [EvPosition position; EvPrint "wheel now at: ";
                    match ex with
                    | Some _ =>
                        EvPrint "exception happened during turning, trying to recover. Exception: "
                    | None => EvSleep 15
                    end]).
      subst result. split.
      * destruct ex; cbn [print sleep emit fst snd trace];
          cbn [n_connect n_lookup n_pulse n_poll trace frame];
          rewrite Htr, <- !app_assoc; reflexivity.
      * rewrite acknowledged_app. cbn [acknowledged].
        destruct ex; cbn [acknowledged print sleep emit fst snd frame
                          Reader.current_wheel_position];
          rewrite Hres; lia.
    + destruct Hres as (He & Hack). rewrite He in Erun.
      rewrite Hr in Hrob.
      rewrite (failed_to_connect_held r s3 Hrob) in Erun. subst result.
      cbn [fst snd trace frame Reader.current_wheel_position].
      exists ((EvFromRobot r true :: new) ++ [EvPrint "Failed to connect"; EvClose r]).
      split; [rewrite Htr, <- !app_assoc; reflexivity|].
      rewrite acknowledged_app. cbn [acknowledged]. rewrite Hack, Hcur. lia.
    + contradiction.
  - erewrite bind_Raise in Erun by (unfold from_robot; rewrite Hl; reflexivity).
    cbn [is_Exception] in Erun.
    rewrite (failed_to_connect_held r) in Erun by exact Hr. subst result.
    cbn [fst snd n_connect n_lookup n_pulse n_poll trace frame
         Reader.current_wheel_position].
    exists [EvFromRobot r false; EvPrint "Failed to connect"; EvClose r].
    split; [now rewrite <- !app_assoc|]. cbn [acknowledged]. lia.
Qed.

Lemma cycle_acknowledged (w : world) (s : state Reader.locals) :
  exists new,
    trace (snd (Reader.cycle w s)) = trace s ++ new /\
    acknowledged new
    = Reader.current_wheel_position (frame s)
      - Reader.current_wheel_position (frame (snd (Reader.cycle w s))).
Proof.
  rewrite cycle_unfold.
  destruct (Reader.robot (frame s)) as [r|] eqn:Hr.
  - pose proof (held_cycle_acknowledged w r s Hr) as H. cbv zeta in H.
    unfold try_except in *. rewrite (round_bound w (cycle_rest w) r s Hr).
    exact H.
  - unfold try_except. rewrite (round_unbound w (cycle_rest w) s Hr).
    destruct (first_ok (at_address_ok w) (n_connect s) 50) as [j|].
    + pose proof (held_cycle_acknowledged w j (reconnected j s) eq_refl) as H.
      cbv zeta in H. unfold try_except in H.
      destruct H as (new & Htr & Hack).
      exists ((failed_attempts (j - n_connect s)
                 ++ [EvPrint "connection try"; EvConnect (Some j)]) ++ new).
      split.
      * rewrite Htr. cbn [reconnected trace]. now rewrite <- !app_assoc.
      * rewrite !acknowledged_app, acknowledged_failed_attempts.
        cbn [acknowledged]. rewrite Hack.
        cbn [reconnected frame Reader.current_wheel_position]. lia.
    + cbn [is_Exception]. rewrite (failed_to_connect_unbound (unreachable s) Hr).
      cbn [fst snd unreachable n_connect n_lookup n_pulse n_poll trace frame].
      exists (failed_attempts 50 ++ [EvPrint "Failed to connect"]).
      split; [now rewrite <- !app_assoc|].
      rewrite acknowledged_app, acknowledged_failed_attempts.
      cbn [acknowledged]. lia.
Qed.

(** X15. In reader.py the estimate of [main] accounts for exactly the
    pulses that the motor acknowledged.  Over any number of passes of the
    polling loop, from any state and whatever fails (a pulse, the motor
    lookup, the calendar, the connection), the pulses whose call returned,
    counted with their sense, number estimate before - estimate after: one
    station of the estimate per acknowledged pulse, no pulse acknowledged
    and forgotten, none counted without an answer. *)
Theorem X15_estimate_tracks_pulses (w : world) (cycles : nat)
    (s : state Reader.locals) :
  let run := Reader.polling_loop w cycles s in
  exists new,
    trace (snd run) = trace s ++ new /\
    acknowledged new
    = Reader.current_wheel_position (frame s)
      - Reader.current_wheel_position (frame (snd run)).
Proof.
  intros run. subst run. revert s.
  induction cycles as [|cycles IH]; intros s; cbn [Reader.polling_loop].
  - exists []. cbn [ret fst snd acknowledged]. split; [now rewrite app_nil_r | lia].
  - destruct (cycle_acknowledged w s) as (new1 & Htr1 & Hack1).
    unfold bind.
    destruct (Reader.cycle w s) as [[[]|e|] s1]; cbn [fst snd] in *.
    + destruct (IH s1) as (new2 & Htr2 & Hack2).
      exists (new1 ++ new2). split.
      * now rewrite Htr2, Htr1, <- app_assoc.
      * rewrite acknowledged_app, Hack1, Hack2. lia.
    + exists new1. split; assumption.
    + exists new1. split; assumption.
Qed.

(** ** load_test.py: the estimate and the acknowledged pulses *)

Lemma acknowledged_rotations (sm : Session) (p : Q) (n : nat) :
  acknowledged (List.concat (repeat [EvFromRobot sm true; EvSetPower sm p true] n))
  = Z.of_nat n * pulse_sense p.
Proof.
  induction n as [|n IH]; [reflexivity|].
  cbn [repeat List.concat app acknowledged]. rewrite IH. lia.
Qed.

Lemma rotated_session (sm : Session) (p : Q) (n : nat) (s : state LoadTest.locals) :
  LoadTest.smart_machine (frame (rotated sm p n s))
  = LoadTest.smart_machine (frame s) /\
  LoadTest.current_wheel_position (frame (rotated sm p n s))
  = LoadTest.current_wheel_position (frame s).
Proof.
  destruct (rotated_counters sm p n s) as (_ & _ & _ & _ & A & B).
  split; assumption.
Qed.

Lemma rotations_returned (w : world) (fuel : nat) (sm : Session) (p : Q)
    (n : nat) (s s' : state LoadTest.locals) :
  LoadTest.smart_machine (frame s) = Some sm ->
  for_range n
    (sm' <- LoadTest.get_smart_machine ;;
     LoadTest.rotate_with_retry w LoadTest.module_globals fuel sm' p) s
  = (Ret tt, s') ->
  s' = rotated sm p n s.
Proof.
  revert s. induction n as [|n IH]; intros s Hsm Hrun.
  - cbn in Hrun. inversion Hrun. reflexivity.
  - cbn [for_range rotated] in Hrun |- *. unfold bind at 1 in Hrun.
    rewrite (bind_Ret _ _ _ _ _ (get_smart_machine_bound s sm Hsm)) in Hrun.
    destruct (from_robot_ok w (n_lookup s)) eqn:Hl.
    + destruct (set_power_ok w (n_pulse s)) eqn:Hp.
      * rewrite rotate_with_retry_ok in Hrun by assumption.
        apply IH; [exact Hsm | exact Hrun].
      * rewrite rotate_with_retry_stuck in Hrun by assumption. discriminate.
    + rewrite rotate_with_retry_no_motor in Hrun by assumption. discriminate.
Qed.

Lemma turn_returned (w : world) (fuel : nat) (sm : Session)
    (s s' : state LoadTest.locals) :
  LoadTest.smart_machine (frame s) = Some sm ->
  LoadTest.turn w LoadTest.module_globals fuel s = (Ret tt, s') ->
  LoadTest.smart_machine (frame s') = Some sm /\
  exists new,
    trace s' = trace s ++ new /\
    acknowledged new
    = 2 * (LoadTest.current_wheel_position (frame s')
           - LoadTest.current_wheel_position (frame s)).
Proof.
  intros Hsm Hrun. unfold LoadTest.turn in Hrun.
  erewrite bind_Ret in Hrun by (unfold LoadTest.randint; reflexivity).
  erewrite bind_Ret in Hrun by reflexivity.
  cbn [frame] in Hrun.
  set (c := LoadTest.current_wheel_position (frame s)) in *.
  set (target := randint_0_5 w (n_poll s)) in *.
  destruct (Z.eqb_spec c target) as [E|E]; cbn [negb] in Hrun.
  - inversion Hrun; subst s'. cbn [frame trace]. split; [exact Hsm|].
    exists [EvPoll]. split; [reflexivity|]. cbn [acknowledged]. lia.
  - erewrite bind_Ret in Hrun by reflexivity.
    pose proof (copysign_sgn (c - target)) as Hd.
    unfold LoadTest.plan in Hrun.
    set (d := copysign 1 (c - target)) in *.
    set (count := Z.to_nat (Z.abs (c - target) * 2)) in *.
    cbv beta iota zeta in Hrun.
    unfold bind at 1 in Hrun.
    match type of Hrun with context [for_range count ?b ?st] =>
      pose proof (fun st' => rotations_returned w fuel sm
                               (pulse_power (-1 # 12) d) count st st' Hsm) as H;
      destruct (for_range count b st) as [[[]|e|] s1]
    end; try discriminate.
    specialize (H s1 eq_refl). subst s1.
    unfold LoadTest.set_current_wheel_position in Hrun.
    erewrite bind_Ret in Hrun by reflexivity.
    erewrite bind_Ret in Hrun by reflexivity.
    unfold emit in Hrun. inversion Hrun; subst s'. clear Hrun.
    cbn [n_connect n_lookup n_pulse n_poll trace frame
         LoadTest.smart_machine LoadTest.current_wheel_position].
    match goal with |- context [rotated sm ?p count ?st] =>
      destruct (rotated_session sm p count st) as [A _];
      rewrite A, (trace_rotated sm p count st)
    end.
    cbn [frame trace]. split; [exact Hsm|].
    eexists. split; [rewrite <- !app_assoc; reflexivity|].
    rewrite !acknowledged_app, acknowledged_rotations, pulse_sense_power.
    cbn [acknowledged]. fold c. subst d count.
    rewrite sgn_copysign, Hd by lia.
    change (Z.sgn (Qnum (-1 # 12))) with (-1).
    destruct (Z.lt_trichotomy c target) as [H|[H|H]].
    + rewrite Z.sgn_neg by lia. lia.
    + contradiction.
    + rewrite Z.sgn_pos by lia. lia.
Qed.

(** X16. In load_test.py, as written and once connected, the polling loop
    never raises: it gets to the end of its passes or it hangs.  When it
    gets to the end, the estimate is right: the acknowledged pulses, counted
    with their sense, number twice (estimate after - estimate before), two
    half-station pulses per station.  The sense is the opposite of the one
    reader.py uses. *)
Theorem X16_load_test_estimate (w : world) (fuel cycles : nat) (sm : Session)
    (s : state LoadTest.locals) :
  let run := LoadTest.polling_loop w LoadTest.module_globals fuel cycles s in
  LoadTest.smart_machine (frame s) = Some sm ->
  (fst run = Ret tt \/ fst run = OutOfFuel) /\
  (fst run = Ret tt ->
   exists new,
     trace (snd run) = trace s ++ new /\
     acknowledged new
     = 2 * (LoadTest.current_wheel_position (frame (snd run))
            - LoadTest.current_wheel_position (frame s))).
Proof.
  intros run Hsm. subst run. split.
  - destruct (polling_loop_inv w LoadTest.module_globals sm
                (fun _ => True) (fun _ => True) (fun _ => True))
      with (fuel := fuel) (cycles := cycles) (s := s) as [_ Hq];
      try (intros; exact Logic.I).
    + repeat split. exact Hsm.
    + destruct (fst (LoadTest.polling_loop w LoadTest.module_globals fuel cycles s))
        as [[]|e|]; [now left | contradiction | now right].
  - revert s Hsm.
    induction cycles as [|cycles IH]; intros s Hsm Hret;
      cbn [LoadTest.polling_loop] in *.
    + exists []. cbn [ret fst snd acknowledged]. split; [now rewrite app_nil_r | lia].
    + unfold bind in *.
      destruct (LoadTest.turn w LoadTest.module_globals fuel s)
        as [[[]|e|] s1] eqn:Eturn; try discriminate.
      destruct (turn_returned w fuel sm s s1 Hsm Eturn)
        as (Hsm1 & new1 & Htr1 & Hack1).
      destruct (IH s1 Hsm1 Hret) as (new2 & Htr2 & Hack2).
      exists (new1 ++ new2). split.
      * now rewrite Htr2, Htr1, <- app_assoc.
      * rewrite acknowledged_app, Hack1, Hack2. lia.
Qed.

Lemma X16_load_test_estimate_witness :
  exists new,
    trace (snd (LoadTest.polling_loop (world_of_targets (fun _ => 5))
                  LoadTest.module_globals 0 2 load_test_homed))
    = trace load_test_homed ++ new /\
    acknowledged new = 10.
Proof.
  destruct (X16_load_test_estimate (world_of_targets (fun _ => 5)) 0 2 0%nat
              load_test_homed eq_refl)
    as (_ & Hdone).
  destruct (Hdone eq_refl) as (new & Htr & Hack).
  exists new. split; [exact Htr | exact Hack].
Defined.
